(** * pick-your-go: template cache and module-identity rewriting

    A shallow embedding of the cache manager (package [cache]), the
    template manager (package [template]) and the go.mod / import-path
    rewriting of package [generator], with the properties the specification
    states about them, and further properties of the code.

    Go strings are byte sequences: a string is a [list ascii], an [int] is
    a [Z], an [error] is its message ([None] is [nil]). *)

From Stdlib Require Import ZArith Lia Ascii String.
From stdpp Require Import gmap strings list fin_maps.

Local Open Scope Z_scope.

Abbreviation str := (list ascii).
Abbreviation error := (list ascii) (only parsing).

(** A string literal of the source. *)
Definition lit (s : string) : str := list_ascii_of_string s.

(** The double quote (byte 34) and the newline (byte 10). *)
Definition dquote : ascii := "034"%char.
Definition newline : ascii := "010"%char.

(** [len(s)] *)
Definition len (s : str) : Z := Z.of_nat (length s).

(** [s[lo:hi]]; [None] is the run-time panic of an out-of-range slice. *)
Definition slice (s : str) (lo hi : Z) : option str :=
  if bool_decide (0 ≤ lo ∧ lo ≤ hi ∧ hi ≤ len s)
  then Some (take (Z.to_nat (hi - lo)) (drop (Z.to_nat lo) s))
  else None.

(** ** Package [strings] of the Go library, as far as the program uses it *)
Module GoStrings.

(** [len(s) >= len(prefix) && s[:len(prefix)] == prefix] *)
Definition HasPrefix (s prefix : str) : bool :=
  bool_decide (length prefix ≤ length s)%nat
  && bool_decide (take (length prefix) s = prefix).

(** [len(s) >= len(suffix) && s[len(s)-len(suffix):] == suffix] *)
Definition HasSuffix (s suffix : str) : bool :=
  bool_decide (length suffix ≤ length s)%nat
  && bool_decide (drop (length s - length suffix) s = suffix).

Definition TrimPrefix (s prefix : str) : str :=
  if HasPrefix s prefix then drop (length prefix) s else s.

(** [Index(s, substr)]: the offset of the first occurrence, [-1] if none. *)
Fixpoint index_from (s substr : str) (i : Z) : Z :=
  if HasPrefix s substr then i
  else match s with
       | [] => -1
       | _ :: s' => index_from s' substr (i + 1)
       end.

Definition Index (s substr : str) : Z := index_from s substr 0.

(** [Split(s, sep)] for a separator of one byte: the fields between the
    occurrences of [sep]; never empty. *)
Fixpoint split_on (sep : ascii) (s : str) : list str :=
  match s with
  | [] => [[]]
  | c :: s' =>
      if bool_decide (c = sep) then [] :: split_on sep s'
      else match split_on sep s' with
           | [] => [[c]]
           | f :: fs => (c :: f) :: fs
           end
  end.

(** [Join(elems, sep)] *)
Fixpoint Join (elems : list str) (sep : str) : str :=
  match elems with
  | [] => []
  | [e] => e
  | e :: rest => e ++ sep ++ Join rest sep
  end.

(** [Replace(s, old, new, n)] for [n >= 0]: the first [n] occurrences of
    [old], left to right and without overlap.  An empty [old] matches at
    the beginning of [s]; the further matches it has (after each UTF-8
    sequence) are reached only for [n > 1], which the program never
    asks for, and are left out here. *)
Fixpoint Replace (s old new : str) (n : nat) : str :=
  match n with
  | O => s
  | S n' =>
      let i := Index s old in
      if i =? -1 then s
      else take (Z.to_nat i) s ++ new
           ++ (if bool_decide (old = []) then drop (Z.to_nat i) s
               else Replace (drop (Z.to_nat i + length old) s) old new n')
  end.

(** *** [TrimSpace]

    [TrimSpace] removes the leading and the trailing white space of [s],
    as [unicode.IsSpace] defines it, reading [s] as UTF-8.  The white
    space code points are the six ASCII ones, U+0085, U+00A0, U+1680,
    U+2000 to U+200A, U+2028, U+2029, U+202F, U+205F and U+3000.  Each of
    their encodings opens with an ASCII byte or with a leading byte of
    UTF-8, so a rune read at the head of the string, or the last rune
    read backwards from its end, is a white space exactly when the
    string starts, or ends, with one of these encodings. *)
Definition space_runes : list Z :=
  [9; 10; 11; 12; 13; 32; 133; 160; 5760;
   8192; 8193; 8194; 8195; 8196; 8197; 8198; 8199; 8200; 8201; 8202;
   8232; 8233; 8239; 8287; 12288].

Definition byte_of (z : Z) : ascii := ascii_of_nat (Z.to_nat z).

(** The UTF-8 encoding of a code point below U+10000. *)
Definition utf8_encode (r : Z) : str :=
  if r <? 128 then [byte_of r]
  else if r <? 2048 then
    [byte_of (Z.lor 192 (Z.shiftr r 6));
     byte_of (Z.lor 128 (Z.land r 63))]
  else
    [byte_of (Z.lor 224 (Z.shiftr r 12));
     byte_of (Z.lor 128 (Z.land (Z.shiftr r 6) 63));
     byte_of (Z.lor 128 (Z.land r 63))].

Definition space_encodings : list str :=
  Eval vm_compute in map utf8_encode space_runes.

(** The white space rune the string starts with, if any. *)
Definition leading_space (s : str) : option str :=
  List.find (HasPrefix s) space_encodings.

(** The white space rune the string ends with, if any. *)
Definition trailing_space (s : str) : option str :=
  List.find (HasSuffix s) space_encodings.

Fixpoint trim_left (fuel : nat) (s : str) : str :=
  match fuel with
  | O => s
  | S fuel' =>
      match leading_space s with
      | Some e => trim_left fuel' (drop (length e) s)
      | None => s
      end
  end.

Fixpoint trim_right (fuel : nat) (s : str) : str :=
  match fuel with
  | O => s
  | S fuel' =>
      match trailing_space s with
      | Some e => trim_right fuel' (take (length s - length e) s)
      | None => s
      end
  end.

(** Every round removes at least one byte, so [length s] rounds reach the
    first, or last, byte that is no white space. *)
Definition TrimSpace (s : str) : str :=
  let s1 := trim_left (length s) s in
  trim_right (length s1) s1.

End GoStrings.

Import GoStrings.

(** ** Package [generator]: the rewriting of import paths (pure part) *)
Module Rewrite.

Definition splitLines (s : str) : list str := split_on newline s.

(** The body of the [for] loop of [replaceModulePathInLine], run at most
    [fuel] times on the state [(line, start)]; [None] is a panic, or
    the loop still running when the fuel is spent. *)
Fixpoint replaceModulePathInLine_loop (fuel : nat)
    (line oldModule newModule : str) (start : Z) : option str :=
  match fuel with
  | O => None
  | S fuel' =>
      rest ← slice line start (len line);
      let quoteStart := Index rest [dquote] in
      if quoteStart =? -1 then Some line else
      let quoteStart := quoteStart + start in
      rest ← slice line (quoteStart + 1) (len line);
      let quoteEnd := Index rest [dquote] in
      if quoteEnd =? -1 then Some line else
      let quoteEnd := quoteEnd + (quoteStart + 1) in
      quotedPath ← slice line (quoteStart + 1) quoteEnd;
      if bool_decide (quotedPath = oldModule)
         || HasPrefix quotedPath (oldModule ++ lit "/")
      then
        let newPath := Replace quotedPath oldModule newModule 1 in
        before ← slice line 0 (quoteStart + 1);
        after ← slice line quoteEnd (len line);
        let line := before ++ newPath ++ after in
        let quoteEnd := quoteStart + 1 + len newPath in
        replaceModulePathInLine_loop fuel' line oldModule newModule
          (quoteEnd + 1)
      else
        replaceModulePathInLine_loop fuel' line oldModule newModule
          (quoteEnd + 1)
  end.

(** Every round moves [start] past a pair of quotes of the text not yet
    scanned, so one round more than the line has bytes is enough. *)
Definition replaceModulePathInLine (line oldModule newModule : str)
    : option str :=
  replaceModulePathInLine_loop (S (length line)) line oldModule newModule 0.

(** The [for i, line := range lines] loop of [replaceImportPaths], with
    [n] lines still to visit from index [i] on; the loop reads
    [lines[i]] from the slice it writes to. *)
Fixpoint replaceImportPaths_loop (n : nat) (i : nat) (inImportBlock : bool)
    (lines : list str) (oldModule newModule : str) : option (list str) :=
  match n with
  | O => Some lines
  | S n' =>
      line ← lines !! i;
      let trimmedLine := TrimSpace line in
      if bool_decide (trimmedLine = lit "import (") then
        replaceImportPaths_loop n' (S i) true lines oldModule newModule
      else if inImportBlock && bool_decide (trimmedLine = lit ")") then
        replaceImportPaths_loop n' (S i) false lines oldModule newModule
      else if HasPrefix trimmedLine (lit "import ") || inImportBlock then
        newLine ← replaceModulePathInLine line oldModule newModule;
        if bool_decide (newLine ≠ line) then
          replaceImportPaths_loop n' (S i) inImportBlock
            (<[i := newLine]> lines) oldModule newModule
        else
          replaceImportPaths_loop n' (S i) inImportBlock lines
            oldModule newModule
      else
        replaceImportPaths_loop n' (S i) inImportBlock lines
          oldModule newModule
  end.

Definition replaceImportPaths (content oldModule newModule : str)
    : option str :=
  let lines := splitLines content in
  lines' ← replaceImportPaths_loop (length lines) 0 false lines
             oldModule newModule;
  Some (Join lines' [newline]).

(** *** The rewrite as the specification words it *)

(** A quoted value is rewritten when it is [oldIdentity], or starts with
    [oldIdentity] and a path separator right after it: the prefix
    becomes [newIdentity], the remainder stays. *)
Definition refers_to (oldIdentity q : str) : bool :=
  bool_decide (q = oldIdentity)
  || bool_decide (take (length oldIdentity + 1) q = oldIdentity ++ lit "/").

Definition rewrite_value (oldIdentity newIdentity q : str) : str :=
  if refers_to oldIdentity q
  then newIdentity ++ drop (length oldIdentity) q
  else q.

(** Paired-quote scanning, over the fields the quotes of the line
    delimit: the fields are in turn outside and inside quotes, and a
    field after an opening quote is a quoted value only when a closing
    quote, hence a further field, follows it. *)
Fixpoint rewrite_fields (oldIdentity newIdentity : str)
    (fields : list str) : list str :=
  match fields with
  | outside :: quoted :: ((_ :: _) as rest) =>
      outside :: rewrite_value oldIdentity newIdentity quoted
        :: rewrite_fields oldIdentity newIdentity rest
  | _ => fields
  end.

Definition rewrite_line (oldIdentity newIdentity line : str) : str :=
  Join (rewrite_fields oldIdentity newIdentity (split_on dquote line))
       [dquote].

Definition is_opener (line : str) : bool :=
  bool_decide (TrimSpace line = lit "import (").
Definition is_closer (line : str) : bool :=
  bool_decide (TrimSpace line = lit ")").
Definition is_single_import (line : str) : bool :=
  bool_decide (take 7 (TrimSpace line) = lit "import ").

(** The cursor is inside a block after the lines [before]: one of them
    is a block opener and no line after that one is a block closer. *)
Fixpoint inside_block (before : list str) : bool :=
  match before with
  | [] => false
  | l :: rest =>
      (is_opener l && forallb (λ l', negb (is_closer l')) rest)
      || inside_block rest
  end.

Definition candidate_line (before : list str) (line : str) : bool :=
  is_single_import line || inside_block before.

(** Line [i] is rewritten when it is a candidate, and kept otherwise. *)
Definition rewrite_lines (oldIdentity newIdentity : str)
    (lines : list str) : list str :=
  imap (λ i line,
          if candidate_line (take i lines) line
          then rewrite_line oldIdentity newIdentity line
          else line)
       lines.

Definition rewrite_content (oldIdentity newIdentity content : str) : str :=
  Join (rewrite_lines oldIdentity newIdentity (splitLines content))
       [newline].

End Rewrite.

Import Rewrite.

(** ** Package [path/filepath] on a Unix system, for clean paths *)
Module FilePath.

Definition slash : ascii := "/"%char.

Definition IsAbs (path : str) : bool := HasPrefix path [slash].

(** [Join(dir, name)] for a clean [dir] other than the root directory
    and a [name] that is a directory entry: no cleaning is needed. *)
Definition Join (dir name : str) : str := dir ++ [slash] ++ name.

Fixpoint strip_slashes (rev_path : str) : str :=
  match rev_path with
  | c :: r => if bool_decide (c = slash) then strip_slashes r else rev_path
  | [] => []
  end.

Fixpoint until_slash (rev_path : str) : str :=
  match rev_path with
  | c :: r => if bool_decide (c = slash) then [] else c :: until_slash r
  | [] => []
  end.

Fixpoint after_slash (rev_path : str) : str :=
  match rev_path with
  | c :: r => if bool_decide (c = slash) then rev_path else after_slash r
  | [] => []
  end.

(** [Base(path)]: the last element of the path, trailing slashes
    removed; ["."] for the empty path, ["/"] for a path of slashes. *)
Definition Base (path : str) : str :=
  if bool_decide (path = []) then lit "."
  else
    let last := rev (until_slash (strip_slashes (rev path))) in
    if bool_decide (last = []) then [slash] else last.

(** [Dir(path)] for a clean path: all but the last element. *)
Definition Dir (path : str) : str :=
  let dir := rev (strip_slashes (after_slash (rev path))) in
  if bool_decide (dir = []) then
    (if IsAbs path then [slash] else lit ".")
  else dir.

End FilePath.

(** ** The files of the generated project

    [os.Stat], [os.ReadFile] and [os.WriteFile] over a store of files by
    path.  A file carries its content and the error, if any, that opening
    it for reading or for writing meets.  The store also keeps the calls
    made and the text printed. *)
Module FS.

Record file := File {
  data : str;
  read_error : option error;
  write_error : option error
}.

Inductive call :=
| CallStat (path : str)
| CallReadFile (path : str)
| CallWriteFile (path : str) (content : str).

Record World := mkWorld {
  files : gmap str file;
  calls : list call;
  stdout : list str
}.

Definition record (c : call) (w : World) : World :=
  mkWorld (files w) (calls w ++ [c]) (stdout w).

(** [fmt.Printf] and [fmt.Println] *)
Definition Print (msg : str) (w : World) : World :=
  mkWorld (files w) (calls w) (stdout w ++ [msg]).

(** [_, err := os.Stat(path); os.IsNotExist(err)] *)
Definition StatNotExist (w : World) (path : str) : World * bool :=
  (record (CallStat path) w, bool_decide (files w !! path = None)).

Definition no_such_file (path : str) : error :=
  lit "open " ++ path ++ lit ": no such file or directory".

(** [os.ReadFile(path)]: the content, or the error *)
Definition ReadFile (w : World) (path : str) : World * (str + error) :=
  (record (CallReadFile path) w,
   match files w !! path with
   | None => inr (no_such_file path)
   | Some f =>
       match read_error f with
       | Some e => inr e
       | None => inl (data f)
       end
   end).

(** [os.WriteFile(path, data, perm)]: an existing file keeps its mode
    and gets the new content, a missing one is created.  The generator
    writes a file only after it has read it, and so writes existing files
    only; the copy of a template creates files, and has
    [TemplateFiles.WriteFileMode]. *)
Definition WriteFile (w : World) (path content : str)
    : World * option error :=
  let w := record (CallWriteFile path content) w in
  match files w !! path with
  | None =>
      (mkWorld (<[path := File content None None]> (files w))
               (calls w) (stdout w), None)
  | Some f =>
      match write_error f with
      | Some e => (w, Some e)
      | None =>
          (mkWorld (<[path := File content (read_error f) None]> (files w))
                   (calls w) (stdout w), None)
      end
  end.

End FS.

(** ** Package [generator]: go.mod and the walk over the project *)
Module Generator.
Import FS.

(** The [for i, line := range lines] loop of [updateGoModule]; it stops
    at the first line it rewrites. *)
Fixpoint updateGoModule_loop (rest : list str) (i : nat)
    (lines : list str) (modulePath : str) : list str :=
  match rest with
  | [] => lines
  | line :: rest' =>
      if HasPrefix line (lit "module ")
      then <[i := lit "module " ++ modulePath]> lines
      else updateGoModule_loop rest' (S i) lines modulePath
  end.

Definition updateGoModule (w : World) (goModPath modulePath : str)
    : World * option error :=
  if negb (FilePath.IsAbs goModPath) then
    (w, Some (lit "BUG: goModPath is not absolute: " ++ goModPath))
  else
    let '(w, notExist) := StatNotExist w goModPath in
    if notExist then
      (w, Some (lit "go.mod file does not exist at path: " ++ goModPath))
    else
      match ReadFile w goModPath with
      | (w, inr err) =>
          (w, Some (lit "failed to read go.mod file " ++ goModPath
                    ++ lit ": " ++ err))
      | (w, inl content) =>
          let lines := splitLines content in
          let lines := updateGoModule_loop lines 0 lines modulePath in
          match WriteFile w goModPath (GoStrings.Join lines [newline]) with
          | (w, Some err) =>
              (w, Some (lit "failed to write go.mod file " ++ goModPath
                        ++ lit ": " ++ err))
          | (w, None) => (w, None)
          end
      end.

(** The [for _, line := range lines] loop of
    [extractOriginalModulePath]. *)
Fixpoint extractOriginalModulePath_loop (lines : list str) : str + error :=
  match lines with
  | [] => inr (lit "no module declaration found in go.mod")
  | line :: rest =>
      if HasPrefix line (lit "module ")
      then inl (TrimSpace (TrimPrefix line (lit "module ")))
      else extractOriginalModulePath_loop rest
  end.

Definition extractOriginalModulePath (w : World) (goModPath : str)
    : World * (str + error) :=
  if negb (FilePath.IsAbs goModPath) then
    (w, inr (lit "BUG: goModPath is not absolute: " ++ goModPath))
  else
    let '(w, notExist) := StatNotExist w goModPath in
    if notExist then
      (w, inr (lit "go.mod file does not exist at path: " ++ goModPath))
    else
      match ReadFile w goModPath with
      | (w, inr err) =>
          (w, inr (lit "failed to read go.mod file " ++ goModPath
                   ++ lit ": " ++ err))
      | (w, inl content) =>
          (w, extractOriginalModulePath_loop (splitLines content))
      end.

(** [None] is a panic inside [replaceImportPaths]. *)
Definition updateImportPathsInFile (w : World)
    (filePath oldModule newModule : str) : option (World * option error) :=
  match ReadFile w filePath with
  | (w, inr err) => Some (w, Some (lit "failed to read file: " ++ err))
  | (w, inl content) =>
      let originalContent := content in
      contentStr ← replaceImportPaths content oldModule newModule;
      if bool_decide (contentStr ≠ originalContent) then
        match WriteFile w filePath contentStr with
        | (w, Some err) =>
            Some (w, Some (lit "failed to write file: " ++ err))
        | (w, None) => Some (w, None)
        end
      else Some (w, None)
  end.

(** *** [filepath.Walk]

    What the walk finds below a path: a file, a directory with the
    outcome of reading its entries (in the order of their names), or a
    name whose [Lstat] fails. *)
Unset Elimination Schemes.
Inductive node :=
| Regular
| Directory (readdir_error : option error) (entries : list (str * node))
| Broken (lstat_error : error).
Set Elimination Schemes.

(** What a [WalkFunc], or the walk of a subtree, returns: [nil],
    [filepath.SkipDir] or another error. *)
Inductive walk_error :=
| Nil
| SkipDir
| Other (e : error).

(** [func(path string, info os.FileInfo, err error) error]; of [info]
    only [IsDir()] is kept, and [None] is the [nil] info. *)
Definition WalkFunc : Type :=
  str → option bool → option error → World → option (World * walk_error).

(** [walk(path, info, walkFn)], together with the [lstat] its caller
    does on [path] before the call. *)
Fixpoint walk (fn : WalkFunc) (path : str) (n : node) (w : World)
    {struct n} : option (World * walk_error) :=
  match n with
  | Broken e => fn path None (Some e) w
  | Regular => fn path (Some false) None w
  | Directory readdir_error entries =>
      '(w, err1) ← fn path (Some true) readdir_error w;
      match readdir_error, err1 with
      | None, Nil =>
          (fix walk_entries (entries : list (str * node)) (w : World)
               : option (World * walk_error) :=
             match entries with
             | [] => Some (w, Nil)
             | (name, child) :: rest =>
                 let filename := FilePath.Join path name in
                 '(w, err) ← walk fn filename child w;
                 match err, child with
                 | Nil, _ => walk_entries rest w
                 | SkipDir, (Broken _ | Directory _ _) =>
                     walk_entries rest w
                 | _, _ => Some (w, err)
                 end
             end) entries w
      | _, _ => Some (w, err1)
      end
  end.

(** [filepath.Walk(root, fn)] *)
Definition Walk (fn : WalkFunc) (root : str) (n : node) (w : World)
    : option (World * option error) :=
  '(w, err) ← walk fn root n w;
  match err with
  | Nil | SkipDir => Some (w, None)
  | Other e => Some (w, Some e)
  end.

Definition warning (path : str) (err : error) : str :=
  lit "Warning: failed to update import paths in " ++ path ++ lit ": "
  ++ err ++ [newline].

(** The function literal that [updateImportPaths] hands to the walk. *)
Definition updateImportPaths_visit (oldModule newModule : str) : WalkFunc :=
  λ path info err w,
    match err with
    | Some e => Some (w, Other e)
    | None =>
        isDir ← info;
        if isDir : bool then
          let baseName := FilePath.Base path in
          if bool_decide (baseName = lit "vendor")
             || bool_decide (baseName = lit ".git")
             || HasPrefix baseName (lit ".")
          then Some (w, SkipDir)
          else Some (w, Nil)
        else if negb (HasSuffix path (lit ".go")) then Some (w, Nil)
        else if bool_decide (FilePath.Base path = lit "go.mod")
        then Some (w, Nil)
        else
          '(w, err) ← updateImportPathsInFile w path oldModule newModule;
          match err with
          | Some e => Some (Print (warning path e) w, Nil)
          | None => Some (w, Nil)
          end
    end.

(** [tree] is what the walk finds at [projectPath]. *)
Definition updateImportPaths (w : World) (projectPath : str) (tree : node)
    (oldModule newModule : str) : option (World * option error) :=
  if bool_decide (oldModule = newModule) then
    Some (w, Some (lit "oldModule and newModule are the same: "
                   ++ oldModule))
  else if bool_decide (oldModule = []) || bool_decide (newModule = []) then
    Some (w, Some (lit "oldModule and newModule must not be empty (old: '"
                   ++ oldModule ++ lit "', new: '" ++ newModule
                   ++ lit "')"))
  else
    '(w, err) ← Walk (updateImportPaths_visit oldModule newModule)
                  projectPath tree w;
    match err with
    | Some e =>
        Some (w, Some (lit "error walking project directory: " ++ e))
    | None => Some (w, None)
    end.

(** *** The walk as the specification words it *)

(** The directories the walk does not enter. *)
Definition skipped_dir (path : str) : bool :=
  let baseName := FilePath.Base path in
  bool_decide (baseName = lit "vendor")
  || bool_decide (baseName = lit ".git")
  || bool_decide (take 1 baseName = lit ".").

(** The source files of the tree, in the order of the walk. *)
Fixpoint source_files (path : str) (n : node) {struct n} : list str :=
  match n with
  | Regular => if HasSuffix path (lit ".go") then [path] else []
  | Broken _ => []
  | Directory _ entries =>
      if skipped_dir path then []
      else
        (fix of_entries (entries : list (str * node)) : list str :=
           match entries with
           | [] => []
           | (name, child) :: rest =>
               source_files (FilePath.Join path name) child
               ++ of_entries rest
           end) entries
  end.

(** The walk itself meets no error: every name it reaches can be
    examined and every directory it reaches can be listed. *)
Fixpoint walkable (path : str) (n : node) {struct n} : bool :=
  match n with
  | Regular => true
  | Broken _ => false
  | Directory readdir_error entries =>
      bool_decide (readdir_error = None)
      && (skipped_dir path
          || (fix of_entries (entries : list (str * node)) : bool :=
                match entries with
                | [] => true
                | (name, child) :: rest =>
                    walkable (FilePath.Join path name) child
                    && of_entries rest
                end) entries)
  end.

(** The rewrite of the file at [path] fails: the file cannot be read,
    or its content changes and cannot be written. *)
Definition file_failure (w : World) (oldIdentity newIdentity path : str)
    : option error :=
  match files w !! path with
  | None => Some (lit "failed to read file: " ++ no_such_file path)
  | Some f =>
      match read_error f, write_error f with
      | Some e, _ => Some (lit "failed to read file: " ++ e)
      | None, Some e =>
          if bool_decide
               (rewrite_content oldIdentity newIdentity (data f) ≠ data f)
          then Some (lit "failed to write file: " ++ e)
          else None
      | None, None => None
      end
  end.

(** An identity holds no white space: no white space rune occurs in
    it. *)
Definition whitespace_free (identity : str) : bool :=
  forallb (λ e, Index identity e =? -1) space_encodings.

(** A line of the manifest that begins with the declaration keyword. *)
Definition declares_module (line : str) : bool :=
  bool_decide (take 7 line = lit "module ").

(** What the walk does at one source file: it reads the file, writes
    it when the rewrite changes its content, and prints a warning when
    the reading or the writing fails. *)
Definition rewrite_file (oldIdentity newIdentity : str) (w : World)
    (path : str) : World :=
  let warn e := stdout w ++ [warning path e] in
  match files w !! path with
  | None =>
      mkWorld (files w) (calls w ++ [CallReadFile path])
        (warn (lit "failed to read file: " ++ no_such_file path))
  | Some f =>
      match read_error f with
      | Some e =>
          mkWorld (files w) (calls w ++ [CallReadFile path])
            (warn (lit "failed to read file: " ++ e))
      | None =>
          let content := rewrite_content oldIdentity newIdentity (data f) in
          if bool_decide (content ≠ data f) then
            let calls' :=
              calls w ++ [CallReadFile path; CallWriteFile path content] in
            match write_error f with
            | Some e =>
                mkWorld (files w) calls'
                  (warn (lit "failed to write file: " ++ e))
            | None =>
                mkWorld (<[path := File content None None]> (files w))
                  calls' (stdout w)
            end
          else mkWorld (files w) (calls w ++ [CallReadFile path]) (stdout w)
      end
  end.

(** The warning the walk prints at a source file, if any. *)
Definition warnings_of (w : World) (oldIdentity newIdentity path : str)
    : list str :=
  match file_failure w oldIdentity newIdentity path with
  | Some e => [warning path e]
  | None => []
  end.

(** A file with its import paths rewritten. *)
Definition rewritten (oldIdentity newIdentity : str) (f : file) : file :=
  File (rewrite_content oldIdentity newIdentity (data f))
       (read_error f) (write_error f).

End Generator.

(** ** Package [cache]

    A [time.Time] is a number of nanoseconds on the wall clock, which is
    what the JSON encoding of the metadata keeps of it, and every reading
    of [time.Now()] is an argument of the function that takes it.  The
    metadata file is kept as what [json.Unmarshal] makes of it. *)
Module Cache.

(** A [time.Duration] is an [int64] of nanoseconds. *)
Definition minDuration : Z := - 2 ^ 63.
Definition maxDuration : Z := 2 ^ 63 - 1.
Definition Hour : Z := 3600 * 1000000000.

(** [CacheTTL = 24 * time.Hour] *)
Definition CacheTTL : Z := 24 * Hour.
Definition CacheDirName : str := lit ".pick-your-go".
Definition CacheMetadataFile : str := lit "cache-metadata.json".

(** [t.Sub(u)]: the difference, or the largest or smallest duration
    when the difference does not fit one. *)
Definition Sub (t u : Z) : Z :=
  if t - u <? minDuration then minDuration
  else if maxDuration <? t - u then maxDuration
  else t - u.

(** [time.Since(t)], with [now] the reading of the clock *)
Definition Since (now t : Z) : Z := Sub now t.

Record TemplateCacheInfo := mkInfo {
  CachedAt : Z;
  LastChecked : Z;
  Path : str;
  Version : str
}.

(** [m.metadata.Templates] is a Go map: [None] is the [nil] map, which
    reads as the empty map and panics when written to. *)
Record Manager := mkManager {
  cacheDir : str;
  Templates : option (gmap str TemplateCacheInfo)
}.

(** The ["templates"] member of a JSON document that decodes. *)
Inductive templates_member :=
| Absent
| Null
| Object (entries : gmap str TemplateCacheInfo).

(** The metadata file: missing; not readable; not accepted by
    [json.Unmarshal], which has stored [partial] before it met the
    error; or decoded in full. *)
Inductive document :=
| NoFile
| Unreadable (e : error)
| Unparsable (e : error) (partial : templates_member)
| Parsed (t : templates_member).

Inductive event :=
| EvRemoveAll (path : str)
| EvMkdirAll (path : str)
| EvRun (argv : list str)
| EvWriteMetadata (d : document)
| EvPrint (msg : str).

(** The cache directory and the world around it: the metadata file
    and the error, if any, that writing it meets; the paths that
    exist; the outcome of [os.RemoveAll], [os.MkdirAll] and of running
    a command; and the effects so far. *)
Record World := mkWorld {
  metadata_file : document;
  metadata_write_error : option error;
  existing : gset str;
  remove_error : str → option error;
  mkdir_error : str → option error;
  run_error : list str → option error;
  events : list event
}.

(** [os.UserCacheDir()] is an argument; for a clean path the cache
    directory is that path, a separator and the name. *)
Definition NewManager (userCacheDir : str) : Manager :=
  mkManager (FilePath.Join userCacheDir CacheDirName) (Some ∅).

Definition GetTemplateCachePath (m : Manager) (archType : str) : str :=
  FilePath.Join (cacheDir m) archType.

(** What [json.Unmarshal] does to the map with the ["templates"]
    member: nothing without the member, [nil] for [null], and for an
    object its entries stored into the map, a new one if it was [nil]. *)
Definition unmarshal_templates (t : templates_member)
    (cur : option (gmap str TemplateCacheInfo))
    : option (gmap str TemplateCacheInfo) :=
  match t with
  | Absent => cur
  | Null => None
  | Object entries => Some (entries ∪ default ∅ cur)
  end.

Definition loadMetadata (m : Manager) (w : World)
    : Manager * option error :=
  match metadata_file w with
  | NoFile => (mkManager (cacheDir m) (Some ∅), None)
  | Unreadable e => (m, Some (lit "failed to read metadata file: " ++ e))
  | Unparsable e partial =>
      (mkManager (cacheDir m) (unmarshal_templates partial (Templates m)),
       Some (lit "failed to parse metadata: " ++ e))
  | Parsed t =>
      (mkManager (cacheDir m) (unmarshal_templates t (Templates m)), None)
  end.

(** [json.MarshalIndent] of the metadata in memory; the times of the
    program are readings of the clock or were read from a document, so
    that encoding them does not fail.  The strings are written as they
    are, which is what [json.MarshalIndent] does with valid UTF-8; the
    properties that depend on it say so, with [Utf8.valid_metadata]. *)
Definition marshal (m : Manager) : document :=
  Parsed (match Templates m with
          | None => Null
          | Some entries => Object entries
          end).

Definition saveMetadata (m : Manager) (w : World) : World * option error :=
  let d := marshal m in
  let w' := mkWorld (metadata_file w) (metadata_write_error w)
              (existing w) (remove_error w) (mkdir_error w) (run_error w)
              (events w ++ [EvWriteMetadata d]) in
  match metadata_write_error w with
  | Some e => (w', Some (lit "failed to write metadata file: " ++ e))
  | None =>
      (mkWorld d None (existing w) (remove_error w) (mkdir_error w)
         (run_error w) (events w ++ [EvWriteMetadata d]), None)
  end.

(** [info, exists := m.metadata.Templates[key]] *)
Definition lookup_template (m : Manager) (key : str)
    : option TemplateCacheInfo :=
  default ∅ (Templates m) !! key.

Definition IsCached (m : Manager) (w : World) (now : Z) (archType : str)
    : Manager * bool :=
  match loadMetadata m w with
  | (m, Some _) => (m, false)
  | (m, None) =>
      match lookup_template m archType with
      | None => (m, false)
      | Some info => (m, bool_decide (Since now (CachedAt info) < CacheTTL))
      end
  end.

Definition IsCacheExpired (m : Manager) (w : World) (now : Z)
    (archType : str) : Manager * bool :=
  match loadMetadata m w with
  | (m, Some _) => (m, true)
  | (m, None) =>
      match lookup_template m archType with
      | None => (m, true)
      | Some info => (m, bool_decide (CacheTTL ≤ Since now (CachedAt info)))
      end
  end.

(** [now1] and [now2] are the two readings of the clock; [None] is the
    panic of an assignment to an entry of a [nil] map. *)
Definition UpdateCacheTime (m : Manager) (w : World) (now1 now2 : Z)
    (archType : str) : option (Manager * World * option error) :=
  match loadMetadata m w with
  | (m, Some err) =>
      Some (m, w, Some (lit "failed to load metadata: " ++ err))
  | (m, None) =>
      entries ← Templates m;
      let m := mkManager (cacheDir m)
                 (Some (<[archType :=
                            mkInfo now1 now2
                              (GetTemplateCachePath m archType) []]>
                          entries)) in
      match saveMetadata m w with
      | (w, Some err) =>
          Some (m, w, Some (lit "failed to save metadata: " ++ err))
      | (w, None) => Some (m, w, None)
      end
  end.

(** *** The cache as the specification words it *)

(** The entries of the metadata document; a document that is missing,
    not readable or not parsable has none. *)
Definition document_entries (d : document)
    : gmap str TemplateCacheInfo :=
  match d with
  | Parsed (Object entries) => entries
  | _ => ∅
  end.

End Cache.

(** ** Package [template] *)
Module Template.
Import Cache.

Definition LayeredArchitecture : str := lit "layered".
Definition ModularArchitecture : str := lit "modular".
Definition HexagonalArchitecture : str := lit "hexagonal".

Record Template := mkTemplate {
  Type_ : str;
  Name : str;
  Description : str;
  Repository : str;
  Branch : str
}.

Record Manager := mkManager {
  cacheManager : Cache.Manager;
  templates : list Template
}.

Definition getDefaultTemplates : list Template :=
  [ mkTemplate LayeredArchitecture
      (lit "Layered Architecture Template")
      (lit "Traditional layered architecture with clear separation between presentation, business logic, and data layers")
      (lit "https://github.com/PickHD/go-layered-template.git")
      (lit "main");
    mkTemplate ModularArchitecture
      (lit "Modular Architecture Template")
      (lit "Modular monolithic architecture with domain-driven design principles")
      (lit "https://github.com/PickHD/go-modular-template.git")
      (lit "main");
    mkTemplate HexagonalArchitecture
      (lit "Hexagonal Architecture Template")
      (lit "Hexagonal architecture (ports and adapters) with isolation of core logic from external concerns")
      (lit "https://github.com/PickHD/go-hexagonal-template.git")
      (lit "main") ].

Definition NewManager (userCacheDir : str) : Manager :=
  mkManager (Cache.NewManager userCacheDir) getDefaultTemplates.

Definition with_cache (m : Manager) (c : Cache.Manager) : Manager :=
  mkManager c (templates m).

Fixpoint GetTemplate_loop (ts : list Template) (archType : str)
    : Template + error :=
  match ts with
  | [] => inr (lit "template not found for architecture type: "
               ++ archType)
  | tmpl :: rest =>
      if bool_decide (Type_ tmpl = archType) then inl tmpl
      else GetTemplate_loop rest archType
  end.

Definition GetTemplate (m : Manager) (archType : str) : Template + error :=
  GetTemplate_loop (templates m) archType.

Definition IsCached (m : Manager) (w : World) (now : Z) (archType : str)
    : Manager * bool :=
  let '(c, b) := Cache.IsCached (cacheManager m) w now archType in
  (with_cache m c, b).

Definition buildAuthenticatedURL (repoURL token : str) : str :=
  if bool_decide (token = []) then repoURL
  else
    let url := TrimPrefix repoURL (lit "https://") in
    let url := TrimPrefix url (lit "http://") in
    lit "https://" ++ token ++ lit "@" ++ url.

Definition log (e : event) (w : World) : World :=
  Cache.mkWorld (metadata_file w) (metadata_write_error w) (existing w)
    (remove_error w) (mkdir_error w) (run_error w) (events w ++ [e]).

Definition set_existing (paths : gset str) (w : World) : World :=
  Cache.mkWorld (metadata_file w) (metadata_write_error w) paths
    (remove_error w) (mkdir_error w) (run_error w) (events w).

(** [os.RemoveAll(path)]; of what lies below [path] the world keeps no
    track. *)
Definition RemoveAll (w : World) (path : str) : World * option error :=
  let w := log (EvRemoveAll path) w in
  match remove_error w path with
  | Some e => (w, Some e)
  | None => (set_existing (existing w ∖ {[path]}) w, None)
  end.

(** [os.MkdirAll(path, 0755)] *)
Definition MkdirAll (w : World) (path : str) : World * option error :=
  let w := log (EvMkdirAll path) w in
  match mkdir_error w path with
  | Some e => (w, Some e)
  | None => (set_existing (existing w ∪ {[path]}) w, None)
  end.

Definition git_clone (template : Template) (repoURL cachePath : str)
    : list str :=
  [lit "git"; lit "clone"; lit "--depth"; lit "1"; lit "--branch";
   Branch template; repoURL; cachePath].

(** [cmd.Run()] of the clone, which on success leaves the working tree
    and its [.git] directory at [cachePath]. *)
Definition Run_clone (w : World) (argv : list str) (cachePath : str)
    : World * option error :=
  let w := log (EvRun argv) w in
  match run_error w argv with
  | Some e => (w, Some e)
  | None =>
      (set_existing
         (existing w ∪ {[cachePath]}
          ∪ {[FilePath.Join cachePath (lit ".git")]}) w, None)
  end.

Definition cloneTemplate (w : World) (template : Template)
    (cachePath token : str) : World * option error :=
  let parentDir := FilePath.Dir cachePath in
  match MkdirAll w parentDir with
  | (w, Some err) =>
      (w, Some (lit "failed to create cache directory: " ++ err))
  | (w, None) =>
      let repoURL := buildAuthenticatedURL (Repository template) token in
      match Run_clone w (git_clone template repoURL cachePath) cachePath with
      | (w, Some err) =>
          (w, Some (lit "failed to clone repository: " ++ err))
      | (w, None) =>
          let gitDir := FilePath.Join cachePath (lit ".git") in
          match RemoveAll w gitDir with
          | (w, Some err) =>
              (log (EvPrint (lit "Warning: failed to remove .git directory: "
                             ++ err ++ [newline])) w, None)
          | (w, None) => (w, None)
          end
      end
  end.

Definition pullTemplate (cachePath token : str) : option error :=
  Some (lit "pull not supported, please re-clone").

(** [now1] and [now2] are the readings of the clock that
    [UpdateCacheTime] takes. *)
Definition UpdateTemplate (m : Manager) (w : World) (now1 now2 : Z)
    (archType token : str) : option (Manager * World * option error) :=
  match GetTemplate m archType with
  | inr err => Some (m, w, Some (lit "failed to get template: " ++ err))
  | inl template =>
      let cachePath := GetTemplateCachePath (cacheManager m) archType in
      let fetched : World * option error :=
        if bool_decide (cachePath ∈ existing w) then
          match pullTemplate cachePath token with
          | Some _ =>
              match RemoveAll w cachePath with
              | (w, Some err) =>
                  (w, Some (lit "failed to remove old cache: " ++ err))
              | (w, None) => cloneTemplate w template cachePath token
              end
          | None => (w, None)
          end
        else cloneTemplate w template cachePath token in
      match fetched with
      | (w, Some err) => Some (m, w, Some err)
      | (w, None) =>
          '(c, w, err) ← UpdateCacheTime (cacheManager m) w now1 now2
                           archType;
          Some (with_cache m c, w, err)
      end
  end.

(** [now] is the reading of the clock that [IsCached] takes. *)
Definition EnsureTemplateCached (m : Manager) (w : World)
    (now now1 now2 : Z) (archType token : str)
    : option (Manager * World * option error) :=
  let '(m, cached) := IsCached m w now archType in
  if cached then Some (m, w, None)
  else UpdateTemplate m w now1 now2 archType token.

(** *** The fetch as the specification words it *)

(** The world after the effects [evs], with [paths] the paths that
    exist then; the metadata file is as it was. *)
Definition after (w : World) (evs : list event) (paths : gset str)
    : World :=
  Cache.mkWorld (metadata_file w) (metadata_write_error w) paths
    (remove_error w) (mkdir_error w) (run_error w) (events w ++ evs).

(** A credential put into the authority of a URL:
    [scheme://<credential>@host/path]; [None] for a URL without
    [://]. *)
Definition inject_credential (repoURL credential : str) : option str :=
  let i := Index repoURL (lit "://") in
  if i =? -1 then None
  else Some (take (Z.to_nat i) repoURL ++ lit "://" ++ credential
             ++ lit "@" ++ drop (Z.to_nat i + 3) repoURL).

End Template.

(** ** Concrete inputs: the scenarios of the specification and of the
    tests of the repository *)
Module Scenario.
Import FS Generator.

Definition quoted (s : string) : str := dquote :: lit s ++ [dquote].
Definition nl : str := [newline].
Definition tab : str := ["009"%char].

Definition oldIdentity : str := lit "github.com/old/module".
Definition newIdentity : str := lit "github.com/new/module".

(** The source file of the end-to-end scenario. *)
Definition source : str :=
  lit "import (" ++ nl
  ++ tab ++ quoted "fmt" ++ nl
  ++ tab ++ quoted "github.com/old/module/internal/config" ++ nl
  ++ tab ++ quoted "github.com/gin-gonic/gin" ++ nl
  ++ lit ")".

Definition source_rewritten : str :=
  lit "import (" ++ nl
  ++ tab ++ quoted "fmt" ++ nl
  ++ tab ++ quoted "github.com/new/module/internal/config" ++ nl
  ++ tab ++ quoted "github.com/gin-gonic/gin" ++ nl
  ++ lit ")".

(** The manifest of [TestExtractOriginalModulePath]. *)
Definition manifest : str :=
  lit "module github.com/test/example" ++ nl ++ nl
  ++ lit "go 1.21" ++ nl ++ nl
  ++ lit "require (" ++ nl
  ++ tab ++ lit "github.com/stretchr/testify v1.8.0" ++ nl
  ++ lit ")" ++ nl.

(** A manifest without a module line. *)
Definition manifest_bare : str := lit "go 1.21" ++ nl.

Definition goModPath : str := lit "/tmp/project/go.mod".

Definition project (goMod : str) : World :=
  mkWorld
    (<[goModPath := File goMod None None]>
       (<[lit "/tmp/project/cmd/main.go" := File source None None]>
          (<[lit "/tmp/project/internal/a.go" :=
               File source (Some (lit "permission denied")) None]>
             (<[lit "/tmp/project/internal/b.go" := File source None None]>
                ∅))))
    [] [].

(** The project directory: two source files that can be rewritten, one
    that cannot be read, a hidden directory and two other files. *)
Definition tree : node :=
  Directory None
    [ (lit ".git", Directory None [(lit "hook.go", Regular)]);
      (lit "README.md", Regular);
      (lit "cmd", Directory None [(lit "main.go", Regular)]);
      (lit "go.mod", Regular);
      (lit "internal",
       Directory None [(lit "a.go", Regular); (lit "b.go", Regular)]) ].

Definition projectPath : str := lit "/tmp/project".
Definition unreadable : str := lit "/tmp/project/internal/a.go".

(** A cache whose directory for the layered template exists, with no
    metadata file. *)
Definition manager : Template.Manager :=
  Template.NewManager (lit "/home/user/.cache").

Definition layeredPath : str :=
  lit "/home/user/.cache/.pick-your-go/layered".

Definition cache : Cache.World :=
  Cache.mkWorld Cache.NoFile None {[layeredPath]}
    (λ _, None) (λ _, None) (λ _, None) [].

(** The same cache, with no network: the clone fails. *)
Definition offline_cache : Cache.World :=
  Cache.mkWorld Cache.NoFile None {[layeredPath]}
    (λ _, None) (λ _, None) (λ _, Some (lit "exit status 128")) [].

Definition layered_template : Template.Template :=
  Template.mkTemplate Template.LayeredArchitecture
    (lit "Layered Architecture Template")
    (lit "Traditional layered architecture with clear separation between presentation, business logic, and data layers")
    (lit "https://github.com/PickHD/go-layered-template.git")
    (lit "main").

Definition layered_clone : list str :=
  [lit "git"; lit "clone"; lit "--depth"; lit "1"; lit "--branch";
   lit "main"; lit "https://github.com/PickHD/go-layered-template.git";
   layeredPath].

(** A cache whose metadata file is not valid JSON. *)
Definition corrupt_cache : Cache.World :=
  Cache.mkWorld
    (Cache.Unparsable (lit "unexpected end of JSON input") Cache.Absent)
    None ∅ (λ _, None) (λ _, None) (λ _, None) [].

(** Noon of a day, in nanoseconds, and that time a day later. *)
Definition noon : Z := 12 * Cache.Hour.

Definition touched_info : Cache.TemplateCacheInfo :=
  Cache.mkInfo noon noon layeredPath [].

Definition touched_cache : Cache.World :=
  Cache.mkWorld
    (Cache.Parsed (Cache.Object {[lit "layered" := touched_info]}))
    None {[layeredPath]} (λ _, None) (λ _, None) (λ _, None)
    [Cache.EvWriteMetadata
       (Cache.Parsed (Cache.Object {[lit "layered" := touched_info]}))].

End Scenario.

(** ** Package [cache]: the information on an entry and the clearing *)
Module CacheAdmin.
Import Cache.

(** [GetCacheInfo] *)
Definition GetCacheInfo (m : Cache.Manager) (w : Cache.World)
    (archType : str) : Cache.Manager * (TemplateCacheInfo + error) :=
  match loadMetadata m w with
  | (m, Some err) => (m, inr (lit "failed to load metadata: " ++ err))
  | (m, None) =>
      match lookup_template m archType with
      | None => (m, inr (lit "template not cached"))
      | Some info => (m, inl info)
      end
  end.

(** [GetCacheAge]; [now] is the reading of the clock that [time.Since]
    takes. *)
Definition GetCacheAge (m : Cache.Manager) (w : Cache.World) (now : Z)
    (archType : str) : Cache.Manager * (Z + error) :=
  match GetCacheInfo m w archType with
  | (m, inr err) => (m, inr err)
  | (m, inl info) => (m, inl (Since now (CachedAt info)))
  end.

(** [delete(m.metadata.Templates, key)]; on the [nil] map it does
    nothing. *)
Definition delete_template (m : Cache.Manager) (key : str) : Cache.Manager :=
  Cache.mkManager (cacheDir m) (delete key <$> Templates m).

(** [ClearTemplateCache] *)
Definition ClearTemplateCache (m : Cache.Manager) (w : Cache.World)
    (archType : str) : Cache.Manager * Cache.World * option error :=
  let cachePath := GetTemplateCachePath m archType in
  let removed : Cache.World * option error :=
    if bool_decide (cachePath ∈ existing w) then
      match Template.RemoveAll w cachePath with
      | (w, Some err) =>
          (w, Some (lit "failed to remove template cache: " ++ err))
      | (w, None) => (w, None)
      end
    else (w, None) in
  match removed with
  | (w, Some err) => (m, w, Some err)
  | (w, None) =>
      match loadMetadata m w with
      | (m, Some err) =>
          (m, w, Some (lit "failed to load metadata: " ++ err))
      | (m, None) =>
          let m := delete_template m archType in
          match saveMetadata m w with
          | (w, Some err) =>
              (m, w, Some (lit "failed to save metadata: " ++ err))
          | (w, None) => (m, w, None)
          end
      end
  end.

(** The [for _, entry := range entries] loop of [ClearCache]; an entry is
    its name and whether it is a directory. *)
Fixpoint ClearCache_loop (m : Cache.Manager) (entries : list (str * bool))
    (w : Cache.World) : Cache.World * option error :=
  match entries with
  | [] => (w, None)
  | (name, isDir) :: rest =>
      if isDir then
        let path := FilePath.Join (cacheDir m) name in
        match Template.RemoveAll w path with
        | (w, Some err) =>
            (w, Some (lit "failed to remove " ++ path ++ lit ": " ++ err))
        | (w, None) => ClearCache_loop m rest w
        end
      else ClearCache_loop m rest w
  end.

(** [ClearCache]; [listing] is what [os.ReadDir(m.cacheDir)] returns. *)
Definition ClearCache (m : Cache.Manager) (w : Cache.World)
    (listing : list (str * bool) + error)
    : Cache.Manager * Cache.World * option error :=
  match listing with
  | inr err => (m, w, Some (lit "failed to read cache directory: " ++ err))
  | inl entries =>
      match ClearCache_loop m entries w with
      | (w, Some err) => (m, w, Some err)
      | (w, None) =>
          let m := Cache.mkManager (cacheDir m) (Some ∅) in
          match saveMetadata m w with
          | (w, Some err) =>
              (m, w, Some (lit "failed to save metadata: " ++ err))
          | (w, None) => (m, w, None)
          end
      end
  end.

(** The directories of a listing, as paths below the cache directory. *)
Definition listed_dirs (m : Cache.Manager) (entries : list (str * bool))
    : list str :=
  (λ e, FilePath.Join (cacheDir m) e.1) <$> filter (λ e, e.2 = true) entries.

End CacheAdmin.

(** ** Package [config]: the architecture types and the configuration *)
Module Config.

Definition LayeredArchitecture : str := lit "layered".
Definition ModularArchitecture : str := lit "modular".
Definition HexagonalArchitecture : str := lit "hexagonal".

(** The [switch] statements on an [ArchitectureType]. *)
Definition DisplayName (a : str) : str :=
  if bool_decide (a = LayeredArchitecture) then lit "Layered Architecture"
  else if bool_decide (a = ModularArchitecture)
  then lit "Modular Architecture"
  else if bool_decide (a = HexagonalArchitecture)
  then lit "Hexagonal Architecture"
  else lit "Unknown Architecture".

Definition IsValid (a : str) : bool :=
  if bool_decide (a = LayeredArchitecture) then true
  else if bool_decide (a = ModularArchitecture) then true
  else if bool_decide (a = HexagonalArchitecture) then true
  else false.

Record Config := mkConfig {
  ProjectName : str;
  ModulePath : str;
  Architecture : str;
  OutputDir : str;
  Author : str;
  Description : str
}.

(** [Validate] has a pointer receiver: it returns the configuration,
    with the output directory it may have set, and the error. *)
Definition Validate (c : Config) : Config * option error :=
  if bool_decide (ProjectName c = []) then
    (c, Some (lit "project name is required"))
  else if bool_decide (ModulePath c = []) then
    (c, Some (lit "module path is required"))
  else if bool_decide (Architecture c = []) then
    (c, Some (lit "architecture type is required"))
  else if bool_decide (OutputDir c = []) then
    (mkConfig (ProjectName c) (ModulePath c) (Architecture c) (lit ".")
       (Author c) (Description c), None)
  else (c, None).

End Config.

(** ** Package [generator]: the factory and the customizing of a project *)
Module Factory.
Import FS Generator.

(** The generators; the three hold a template manager each and differ
    in the architecture they ask it for. *)
Inductive generator :=
| LayeredGenerator
| ModularGenerator
| HexagonalGenerator.

Definition architecture_of (g : generator) : str :=
  match g with
  | LayeredGenerator => Config.LayeredArchitecture
  | ModularGenerator => Config.ModularArchitecture
  | HexagonalGenerator => Config.HexagonalArchitecture
  end.

Definition CreateGenerator (archType : str) : generator + error :=
  if bool_decide (archType = Config.LayeredArchitecture)
  then inl LayeredGenerator
  else if bool_decide (archType = Config.ModularArchitecture)
  then inl ModularGenerator
  else if bool_decide (archType = Config.HexagonalArchitecture)
  then inl HexagonalGenerator
  else inr (lit "unsupported architecture type: " ++ archType).

(** [ValidateConfig] of the base generator *)
Definition ValidateConfig (c : Config.Config)
    : Config.Config * option error :=
  match Config.Validate c with
  | (c, Some err) => (c, Some (lit "config validation failed: " ++ err))
  | (c, None) => (c, None)
  end.

(** [customizeProject], which the three generators have word for word;
    [modulePath] is [cfg.ModulePath], the one field of the configuration
    it reads, and [tree] is what the walk finds at [projectPath]. *)
Definition customizeProject (w : World) (tree : node)
    (modulePath projectPath : str) : option (World * option error) :=
  if negb (FilePath.IsAbs projectPath) then
    Some (w, Some (lit "BUG: projectPath is not absolute: " ++ projectPath))
  else
    let goModPath := FilePath.Join projectPath (lit "go.mod") in
    match extractOriginalModulePath w goModPath with
    | (w, inr err) =>
        Some (w, Some (lit "failed to extract original module path: "
                       ++ err))
    | (w, inl oldModule) =>
        let w :=
          match updateGoModule w goModPath modulePath with
          | (w, Some err) =>
              Print (lit "Warning: failed to update go.mod: " ++ err
                     ++ [newline]) w
          | (w, None) => w
          end in
        if bool_decide (oldModule ≠ modulePath) then
          let w :=
            Print (lit "Updating import paths in Go files..." ++ [newline])
              w in
          '(w, err) ← updateImportPaths w projectPath tree oldModule
                        modulePath;
          match err with
          | Some e =>
              Some (w, Some (lit "failed to update import paths: " ++ e))
          | None =>
              Some (Print (lit "Successfully updated import paths from '"
                           ++ oldModule ++ lit "' to '" ++ modulePath
                           ++ lit "'" ++ [newline]) w, None)
          end
        else Some (w, None)
    end.

End Factory.

(** ** Package [template]: the path of a cached template *)
Module TemplatePath.
Import Cache Template.

(** [GetTemplatePath]; [now] is the reading of the clock that [IsCached]
    takes. *)
Definition GetTemplatePath (m : Template.Manager) (w : Cache.World)
    (now : Z) (archType : str) : Template.Manager * (str + error) :=
  let '(m, cached) := Template.IsCached m w now archType in
  if negb cached then (m, inr (lit "template not cached: " ++ archType))
  else (m, inl (GetTemplateCachePath (cacheManager m) archType)).

End TemplatePath.

(** ** [filepath.Walk] for a function literal with a state of its own

    The walk of [Generator], with the state of the function literal left
    open: the list that [GetTemplateFiles] appends to, or the file
    systems that [CopyTemplateToDestination] writes to. *)
Module PathWalk.
Import Generator.

Section WithState.
Context {S : Type}.

Definition WalkFunc : Type :=
  str → option bool → option error → S → option (S * walk_error).

Fixpoint walk (fn : WalkFunc) (path : str) (n : node) (s : S)
    {struct n} : option (S * walk_error) :=
  match n with
  | Broken e => fn path None (Some e) s
  | Regular => fn path (Some false) None s
  | Directory readdir_error entries =>
      '(s, err1) ← fn path (Some true) readdir_error s;
      match readdir_error, err1 with
      | None, Nil =>
          (fix walk_entries (entries : list (str * node)) (s : S)
               : option (S * walk_error) :=
             match entries with
             | [] => Some (s, Nil)
             | (name, child) :: rest =>
                 let filename := FilePath.Join path name in
                 '(s, err) ← walk fn filename child s;
                 match err, child with
                 | Nil, _ => walk_entries rest s
                 | SkipDir, (Broken _ | Directory _ _) =>
                     walk_entries rest s
                 | _, _ => Some (s, err)
                 end
             end) entries s
      | _, _ => Some (s, err1)
      end
  end.

(** The [for _, name := range names] loop of [walk]. *)
Fixpoint walk_entries (fn : WalkFunc) (path : str)
    (entries : list (str * node)) (s : S) : option (S * walk_error) :=
  match entries with
  | [] => Some (s, Nil)
  | (name, child) :: rest =>
      '(s, err) ← walk fn (FilePath.Join path name) child s;
      match err, child with
      | Nil, _ => walk_entries fn path rest s
      | SkipDir, (Broken _ | Directory _ _) => walk_entries fn path rest s
      | _, _ => Some (s, err)
      end
  end.

Definition Walk (fn : WalkFunc) (root : str) (n : node) (s : S)
    : option (S * option error) :=
  '(s, err) ← walk fn root n s;
  match err with
  | Nil | SkipDir => Some (s, None)
  | Other e => Some (s, Some e)
  end.

End WithState.

End PathWalk.

(** ** Package [template]: the files of a cached template and the copy
    of a template *)
Module TemplateFiles.
Import Generator.

(** [filepath.Rel(basepath, targpath)] for clean paths with the target at
    or below the base, which is what a walk from the base gives; for
    the other targets [Rel] climbs with [..], which is left out here. *)
Definition Rel (basepath targpath : str) : str + error :=
  if bool_decide (targpath = basepath) then inl (lit ".")
  else if HasPrefix targpath (basepath ++ [FilePath.slash])
  then inl (drop (length basepath + 1) targpath)
  else inr (lit "Rel: can't make " ++ targpath ++ lit " relative to "
            ++ basepath).

(** The function literal that [GetTemplateFiles] hands to the walk; its
    state is the slice [files]. *)
Definition GetTemplateFiles_visit (cachePath : str)
    : PathWalk.WalkFunc (S := list str) :=
  λ path info err files,
    match err with
    | Some e => Some (files, Other e)
    | None =>
        if bool_decide (path = cachePath) then Some (files, Nil)
        else
          isDir ← info;
          if isDir : bool then
            if bool_decide (FilePath.Base path = lit ".git")
            then Some (files, SkipDir)
            else Some (files, Nil)
          else
            match Rel cachePath path with
            | inr e => Some (files, Other e)
            | inl relPath => Some (files ++ [relPath], Nil)
            end
    end.

(** [GetTemplateFiles]; [now] is the reading of the clock that
    [IsCached] takes and [tree] is what the walk finds at the cache
    path.  It returns the slice together with the error. *)
Definition GetTemplateFiles (m : Template.Manager) (w : Cache.World)
    (now : Z) (archType : str) (tree : node)
    : option (Template.Manager * list str * option error) :=
  match TemplatePath.GetTemplatePath m w now archType with
  | (m, inr err) => Some (m, [], Some err)
  | (m, inl cachePath) =>
      '(files, err) ← PathWalk.Walk (GetTemplateFiles_visit cachePath)
                        cachePath tree [];
      Some (m, files, err)
  end.

(** The two file systems that the copy works on: the directories, with
    [os.MkdirAll], and the files, with [os.ReadFile] and
    [os.WriteFile]. *)
Definition disks : Type := Cache.World * FS.World.

(** What the mode decides.  The copy makes a directory with the mode of
    the directory of the template, and whether a file can then be
    created in it depends on that mode, on the user and on the mask of
    the process; the file is created with the mode of the file of the
    template, on which its later reading and writing depend.  So the
    creation of a file at a path where none is has an outcome of its
    own: an error, or the errors that opening the new file for reading
    and for writing will meet. *)
Record created := Created {
  created_read_error : option error;
  created_write_error : option error
}.

Definition creation : Type := str → created + error.

(** [os.WriteFile(path, data, mode)] with a mode of the template: an
    existing file keeps its mode and gets the new content, as with
    [FS.WriteFile]; a missing one is created, or is not. *)
Definition WriteFileMode (create : creation) (w : FS.World)
    (path content : str) : FS.World * option error :=
  match FS.files w !! path with
  | Some _ => FS.WriteFile w path content
  | None =>
      let w := FS.record (FS.CallWriteFile path content) w in
      match create path with
      | inr e => (w, Some e)
      | inl c =>
          (FS.mkWorld
             (<[path := FS.File content (created_read_error c)
                          (created_write_error c)]> (FS.files w))
             (FS.calls w) (FS.stdout w), None)
      end
  end.

(** [copyFile(src, dst, mode)]; what the mode decides is in [create]. *)
Definition copyFile (create : creation) (d : disks) (src dst : str)
    : disks * option error :=
  let '(cw, fw) := d in
  match FS.ReadFile fw src with
  | (fw, inr err) =>
      ((cw, fw), Some (lit "failed to read source file " ++ src ++ lit ": "
                       ++ err))
  | (fw, inl data) =>
      let dstDir := FilePath.Dir dst in
      match Template.MkdirAll cw dstDir with
      | (cw, Some err) =>
          ((cw, fw),
           Some (lit "failed to create destination directory " ++ dstDir
                 ++ lit ": " ++ err))
      | (cw, None) =>
          match WriteFileMode create fw dst data with
          | (fw, Some err) =>
              ((cw, fw),
               Some (lit "failed to write destination file " ++ dst
                     ++ lit ": " ++ err))
          | (fw, None) => ((cw, fw), None)
          end
      end
  end.

(** The function literal that [CopyTemplateToDestination] hands to the
    walk.  [os.MkdirAll(targetPath, info.Mode())] makes the directory, or
    fails with the error that the world has for the path; what the mode
    of the directory means for the files created in it later is in
    [create]. *)
Definition CopyTemplateToDestination_visit (create : creation)
    (cachePath destPath : str) : PathWalk.WalkFunc (S := disks) :=
  λ path info err d,
    match err with
    | Some e => Some (d, Other e)
    | None =>
        if bool_decide (path = cachePath) then Some (d, Nil)
        else if bool_decide (FilePath.Base path = lit ".git")
        then Some (d, SkipDir)
        else
          match Rel cachePath path with
          | inr e => Some (d, Other e)
          | inl relPath =>
              let targetPath := FilePath.Join destPath relPath in
              isDir ← info;
              if isDir : bool then
                match Template.MkdirAll d.1 targetPath with
                | (cw, Some e) => Some ((cw, d.2), Other e)
                | (cw, None) => Some ((cw, d.2), Nil)
                end
              else
                match copyFile create d path targetPath with
                | (d, Some e) => Some (d, Other e)
                | (d, None) => Some (d, Nil)
                end
          end
    end.

(** [CopyTemplateToDestination]; [now] is the reading of the clock that
    [IsCached] takes, [tree] is what the walk finds at the cache path and
    [create] is the outcome of creating a file at a path. *)
Definition CopyTemplateToDestination (m : Template.Manager)
    (create : creation) (d : disks) (now : Z) (archType destPath : str)
    (tree : node) : option (Template.Manager * disks * option error) :=
  if negb (FilePath.IsAbs destPath) then
    Some (m, d, Some (lit "BUG: destPath is not absolute: " ++ destPath))
  else
    match TemplatePath.GetTemplatePath m d.1 now archType with
    | (m, inr err) =>
        Some (m, d, Some (lit "failed to get template path: " ++ err))
    | (m, inl cachePath) =>
        '(d, err) ← PathWalk.Walk
                      (CopyTemplateToDestination_visit create cachePath
                         destPath)
                      cachePath tree d;
        Some (m, d, err)
    end.

(** *** What the two walks reach *)

(** The regular files at and below [path], those below a directory
    named [.git] left out, in the order of the walk. *)
Fixpoint listed (path : str) (n : node) {struct n} : list str :=
  match n with
  | Regular => [path]
  | Broken _ => []
  | Directory _ entries =>
      if bool_decide (FilePath.Base path = lit ".git") then []
      else
        (fix of_entries (entries : list (str * node)) : list str :=
           match entries with
           | [] => []
           | (name, child) :: rest =>
               listed (FilePath.Join path name) child ++ of_entries rest
           end) entries
  end.

Fixpoint listed_entries (path : str) (entries : list (str * node))
    : list str :=
  match entries with
  | [] => []
  | (name, child) :: rest =>
      listed (FilePath.Join path name) child ++ listed_entries path rest
  end.

(** The walk meets no error at or below [path], the directories named
    [.git] not looked into. *)
Fixpoint sound (path : str) (n : node) {struct n} : bool :=
  match n with
  | Regular => true
  | Broken _ => false
  | Directory readdir_error entries =>
      bool_decide (readdir_error = None)
      && (bool_decide (FilePath.Base path = lit ".git")
          || (fix of_entries (entries : list (str * node)) : bool :=
                match entries with
                | [] => true
                | (name, child) :: rest =>
                    sound (FilePath.Join path name) child && of_entries rest
                end) entries)
  end.

Fixpoint sound_entries (path : str) (entries : list (str * node)) : bool :=
  match entries with
  | [] => true
  | (name, child) :: rest =>
      sound (FilePath.Join path name) child && sound_entries path rest
  end.

(** The names the walk reaches at and below [path], a directory before
    what it holds, each with whether it is a directory. *)
Fixpoint reached (path : str) (n : node) {struct n} : list (str * bool) :=
  match n with
  | Regular => [(path, false)]
  | Broken _ => []
  | Directory _ entries =>
      (path, true)
      :: (fix of_entries (entries : list (str * node)) : list (str * bool) :=
            match entries with
            | [] => []
            | (name, child) :: rest =>
                reached (FilePath.Join path name) child ++ of_entries rest
            end) entries
  end.

Fixpoint reached_entries (path : str) (entries : list (str * node))
    : list (str * bool) :=
  match entries with
  | [] => []
  | (name, child) :: rest =>
      reached (FilePath.Join path name) child ++ reached_entries path rest
  end.

(** The function literal of a walk called on the names in turn, up to
    the first call that does not return [nil]. *)
Fixpoint visit_all {S : Type} (fn : PathWalk.WalkFunc (S := S))
    (names : list (str * bool)) (s : S) : option (S * walk_error) :=
  match names with
  | [] => Some (s, Nil)
  | (path, isDir) :: rest =>
      '(s, err) ← fn path (Some isDir) None s;
      match err with
      | Nil => visit_all fn rest s
      | _ => Some (s, err)
      end
  end.

(** Where the copy puts what the walk finds at [path]. *)
Definition target (cachePath destPath path : str) : str :=
  FilePath.Join destPath (drop (length cachePath + 1) path).

(** What is left of a tree for the copy, at every depth: a directory
    named [.git] is left empty, and after a regular file named [.git] the
    entries of the directory the file is in are left out. *)
Fixpoint prune (path : str) (n : node) {struct n} : node :=
  match n with
  | Directory readdir_error entries =>
      Directory readdir_error
        ((fix of_entries (entries : list (str * node))
              : list (str * node) :=
            match entries with
            | [] => []
            | (name, child) :: rest =>
                let filename := FilePath.Join path name in
                if bool_decide (FilePath.Base filename = lit ".git") then
                  match child with
                  | Regular => [(name, Regular)]
                  | Directory r _ => (name, Directory r []) :: of_entries rest
                  | Broken _ => (name, child) :: of_entries rest
                  end
                else (name, prune filename child) :: of_entries rest
            end) entries)
  | _ => n
  end.

Fixpoint prune_entries (path : str) (entries : list (str * node))
    : list (str * node) :=
  match entries with
  | [] => []
  | (name, child) :: rest =>
      let filename := FilePath.Join path name in
      if bool_decide (FilePath.Base filename = lit ".git") then
        match child with
        | Regular => [(name, Regular)]
        | Directory r _ => (name, Directory r []) :: prune_entries path rest
        | Broken _ => (name, child) :: prune_entries path rest
        end
      else (name, prune filename child) :: prune_entries path rest
  end.

End TemplateFiles.

(** ** Package [cache]: the size of the cache *)
Module CacheSize.
Import Generator.

(** The sum of two [int64]; it wraps around. *)
Definition add64 (a b : Z) : Z := (a + b + 2 ^ 63) mod 2 ^ 64 - 2 ^ 63.

(** The function literal that [GetCacheSize] hands to the walk; its
    state is [size], and [size_of] is what [info.Size()] gives for the
    file at a path. *)
Definition GetCacheSize_visit (size_of : str → Z)
    : PathWalk.WalkFunc (S := Z) :=
  λ path info err size,
    match err with
    | Some e => Some (size, Other e)
    | None =>
        isDir ← info;
        if negb isDir then Some (add64 size (size_of path), Nil)
        else Some (size, Nil)
    end.

(** [GetCacheSize]; [tree] is what the walk finds at the cache
    directory.  It returns the size together with the error. *)
Definition GetCacheSize (m : Cache.Manager) (size_of : str → Z)
    (tree : node) : option (Z * option error) :=
  PathWalk.Walk (GetCacheSize_visit size_of) (Cache.cacheDir m) tree 0.

(** *** What the walk adds up *)

(** Every name of the tree can be examined and every directory can be
    listed. *)
Fixpoint readable (n : node) : bool :=
  match n with
  | Regular => true
  | Broken _ => false
  | Directory readdir_error entries =>
      bool_decide (readdir_error = None)
      && (fix of_entries (entries : list (str * node)) : bool :=
            match entries with
            | [] => true
            | (_, child) :: rest => readable child && of_entries rest
            end) entries
  end.

Fixpoint readable_entries (entries : list (str * node)) : bool :=
  match entries with
  | [] => true
  | (_, child) :: rest => readable child && readable_entries rest
  end.

(** The sizes of the files that are no directories, in the order of the
    walk. *)
Definition sizes (size_of : str → Z) (names : list (str * bool)) : list Z :=
  omap (λ pb : str * bool, if pb.2 then None else Some (size_of pb.1)) names.

End CacheSize.

(** ** The end of the walk over the project

    The function literal of [updateImportPaths] returns the error that
    the walk hands to it, and the walk ends there. *)
Module WalkEnd.
Import FS Generator.

(** The source files that the walk over the project rewrites before it
    ends, in its order, and the error it ends with, if any: that of the
    first name it reaches whose [Lstat] fails or of the first directory
    it reaches that cannot be listed. *)
Fixpoint walked (path : str) (n : node) {struct n}
    : list str * option error :=
  match n with
  | Regular => (if HasSuffix path (lit ".go") then [path] else [], None)
  | Broken e => ([], Some e)
  | Directory (Some e) _ => ([], Some e)
  | Directory None entries =>
      if skipped_dir path then ([], None)
      else
        (fix of_entries (entries : list (str * node))
             : list str * option error :=
           match entries with
           | [] => ([], None)
           | (name, child) :: rest =>
               let first := walked (FilePath.Join path name) child in
               match first.2 with
               | Some _ => first
               | None =>
                   (first.1 ++ (of_entries rest).1, (of_entries rest).2)
               end
           end) entries
  end.

End WalkEnd.

(** ** Strings that a JSON document keeps

    [json.MarshalIndent] writes a string that is valid UTF-8 so that
    [json.Unmarshal] reads the same string back; in any other string it
    puts U+FFFD in the place of every byte that is no part of an
    encoding.  [Cache.marshal] is the document that [json.MarshalIndent]
    writes for metadata whose strings are valid UTF-8. *)
Module Utf8.

Definition byte (c : ascii) : Z := Z.of_nat (nat_of_ascii c).

Definition between (lo hi : Z) (c : ascii) : bool :=
  (lo <=? byte c) && (byte c <=? hi).

(** [utf8.ValidString(s)]: a sequence of encodings of one byte (below
    128), of two bytes (C2..DF and a continuation byte), of three bytes
    (E0..EF and two continuation bytes, neither an overlong form nor a
    surrogate) and of four bytes (F0..F4 and three continuation bytes,
    neither an overlong form nor above U+10FFFF). *)
Fixpoint ValidString (s : str) : bool :=
  match s with
  | [] => true
  | a :: s1 =>
      if byte a <? 128 then ValidString s1
      else
        match s1 with
        | [] => false
        | b :: s2 =>
            if between 194 223 a then between 128 191 b && ValidString s2
            else
              match s2 with
              | [] => false
              | c :: s3 =>
                  if between 224 239 a then
                    between (if byte a =? 224 then 160 else 128)
                            (if byte a =? 237 then 159 else 191) b
                    && between 128 191 c && ValidString s3
                  else
                    match s3 with
                    | [] => false
                    | d :: s4 =>
                        between 240 244 a
                        && between (if byte a =? 240 then 144 else 128)
                                   (if byte a =? 244 then 143 else 191) b
                        && between 128 191 c && between 128 191 d
                        && ValidString s4
                    end
              end
        end
  end.

(** The strings of an entry of the metadata: its key, its path and its
    version. *)
Definition valid_entry (entry : str * Cache.TemplateCacheInfo) : bool :=
  ValidString entry.1 && ValidString (Cache.Path entry.2)
  && ValidString (Cache.Version entry.2).

(** The metadata that a manager holds is written to the document as it
    is: its strings are valid UTF-8. *)
Definition valid_metadata (m : Cache.Manager) : bool :=
  forallb valid_entry (map_to_list (default ∅ (Cache.Templates m))).

End Utf8.

(** ** Paths that [filepath.Join] only puts together

    [filepath.Join(dir, name)] is [filepath.Clean] of [dir], a separator
    and [name]; [FilePath.Join] is that path where [Clean] has nothing to
    do. *)
Module CleanPath.
Import Generator.

(** A name of an entry of a directory: not empty, neither [.] nor [..],
    and without a separator. *)
Definition entry_name (name : str) : bool :=
  negb (bool_decide (name = []))
  && negb (bool_decide (name = lit "."))
  && negb (bool_decide (name = lit ".."))
  && forallb (λ c, negb (bool_decide (c = FilePath.slash))) name.

(** A path that is made of names of entries, with one separator between
    them and with or without one before them.  [filepath.Clean] returns
    such a path as it is; the root directory, which is clean as well, is
    left out, since [Join] adds no separator to it. *)
Definition clean (path : str) : bool :=
  forallb entry_name
    (split_on FilePath.slash
       (if FilePath.IsAbs path then drop 1 path else path)).

(** [filepath.Join(dir, name)] is [FilePath.Join dir name]: [dir] is a
    clean path, and so is [dir], a separator and [name]. *)
Definition joins (dir name : str) : bool :=
  clean dir && clean (FilePath.Join dir name).

(** The names in a tree are names of entries, as those that
    [os.ReadDir] gives are. *)
Fixpoint proper (n : node) : bool :=
  match n with
  | Directory _ entries =>
      (fix of_entries (entries : list (str * node)) : bool :=
         match entries with
         | [] => true
         | (name, child) :: rest =>
             entry_name name && proper child && of_entries rest
         end) entries
  | _ => true
  end.

End CleanPath.

(** ** Concrete inputs for the further properties *)
Module Cases.
Import Generator.

(** A manifest that declares the identity the sources import. *)
Definition manifest : str :=
  lit "module github.com/old/module" ++ Scenario.nl ++ Scenario.nl
  ++ lit "go 1.21" ++ Scenario.nl.

Definition writable : FS.file := FS.File manifest None None.

Definition mainPath : str := lit "/tmp/project/cmd/main.go".

(** A project whose sources can be read and written; [goMod] is its
    manifest. *)
Definition project (goMod : FS.file) : FS.World :=
  FS.mkWorld
    (<[Scenario.goModPath := goMod]>
       (<[mainPath := FS.File Scenario.source None None]>
          (<[lit "/tmp/project/README.md" :=
               FS.File (lit "# project") None None]> ∅)))
    [] [].

Definition tree : node :=
  Directory None
    [ (lit "README.md", Regular);
      (lit "cmd", Directory None [(lit "main.go", Regular)]);
      (lit "go.mod", Regular) ].

(** An identity that no file of the project mentions. *)
Definition absent : str := lit "github.com/absent/module".

Definition key : str := lit "layered".
Definition manager : Cache.Manager := Template.cacheManager Scenario.manager.
Definition modularPath : str :=
  lit "/home/user/.cache/.pick-your-go/modular".

(** What [os.ReadDir] returns for the cache directory. *)
Definition listing : list (str * bool) :=
  [ (lit "cache-metadata.json", false); (lit "layered", true);
    (lit "modular", true) ].

(** A cache with a metadata file that is not valid JSON and the
    directory of the layered template. *)
Definition corrupt_with_directory : Cache.World :=
  Cache.mkWorld
    (Cache.Unparsable (lit "unexpected end of JSON input") Cache.Absent)
    None {[Scenario.layeredPath]} (λ _, None) (λ _, None) (λ _, None) [].

(** A cache whose directory of the modular template cannot be
    removed. *)
Definition stuck_cache : Cache.World :=
  Cache.mkWorld
    (Cache.Parsed (Cache.Object {[key := Scenario.touched_info]}))
    None {[Scenario.layeredPath; modularPath]}
    (λ p, if bool_decide (p = modularPath)
          then Some (lit "permission denied") else None)
    (λ _, None) (λ _, None) [].

Definition cleared : Cache.Manager * Cache.World * option error :=
  CacheAdmin.ClearTemplateCache manager Scenario.touched_cache key.

Definition fetched
    : option (Template.Manager * Cache.World * option error) :=
  Template.EnsureTemplateCached Scenario.manager Scenario.cache
    Scenario.noon Scenario.noon Scenario.noon key [].


(** What the walk finds in the directory of a cached template. *)
Definition template : list (str * node) :=
  [ (lit ".git", Directory None [(lit "HEAD", Regular)]);
    (lit ".gitignore", Regular);
    (lit "cmd", Directory None [(lit "main.go", Regular)]);
    (lit "go.mod", Regular) ].

(** The same without the [.git] directory, which [cloneTemplate]
    removes. *)
Definition plain_template : list (str * node) :=
  [ (lit ".gitignore", Regular);
    (lit "cmd", Directory None [(lit "main.go", Regular)]);
    (lit "go.mod", Regular) ].

(** The files of the cached template. *)
Definition cached_files : FS.World :=
  FS.mkWorld
    (<[lit "/home/user/.cache/.pick-your-go/layered/.gitignore" :=
         FS.File (lit "bin/") None None]>
       (<[lit "/home/user/.cache/.pick-your-go/layered/cmd/main.go" :=
            FS.File Scenario.source None None]>
          (<[lit "/home/user/.cache/.pick-your-go/layered/go.mod" :=
               FS.File manifest None None]> ∅)))
    [] [].

Definition disks : TemplateFiles.disks :=
  (Scenario.touched_cache, cached_files).

(** Every file can be created, and can be read and written then. *)
Definition create : TemplateFiles.creation :=
  λ _, inl (TemplateFiles.Created None None).

(** What [prune] leaves of the cached template. *)
Definition pruned_template : list (str * node) :=
  [ (lit ".git", Directory None []);
    (lit ".gitignore", Regular);
    (lit "cmd", Directory None [(lit "main.go", Regular)]);
    (lit "go.mod", Regular) ].

(** An hour after noon. *)
Definition later : Z := Scenario.noon + Cache.Hour.

(** What the walk finds in the cache directory, and the sizes of the
    files there. *)
Definition cache_tree : node :=
  Directory None
    [ (lit "cache-metadata.json", Regular);
      (lit "layered", Directory None template) ].

Definition size_of (path : str) : Z :=
  if bool_decide (path = lit "/home/user/.cache/.pick-your-go/cache-metadata.json")
  then 180
  else 1024.

(** A project in which [cmd/main.go] has gone between the listing of
    its directory and the [Lstat] of the walk; the other source file can
    be read and written. *)
Definition lstat_error : error :=
  lit "lstat /tmp/project/cmd/main.go: no such file or directory".

Definition otherPath : str := lit "/tmp/project/internal/b.go".

Definition tree_with_gone_file : node :=
  Directory None
    [ (lit "cmd", Directory None [(lit "main.go", Broken lstat_error)]);
      (lit "go.mod", Regular);
      (lit "internal", Directory None [(lit "b.go", Regular)]) ].

Definition project_with_gone_file : FS.World :=
  FS.mkWorld
    (<[Scenario.goModPath := writable]>
       (<[otherPath := FS.File Scenario.source None None]> ∅))
    [] [].

End Cases.

(** * Properties *)

(** ** Strings *)

Lemma len_app (a b : str) : len (a ++ b) = len a + len b.
Proof. unfold len. rewrite length_app. lia. Qed.

Lemma len_nonneg (a : str) : 0 ≤ len a.
Proof. unfold len. lia. Qed.

Lemma HasPrefix_true (s p : str) :
  HasPrefix s p = true ↔ ∃ r, s = p ++ r.
Proof.
  unfold HasPrefix. rewrite andb_true_iff, !bool_decide_eq_true. split.
  - intros [_ H]. exists (drop (length p) s).
    rewrite <- H at 1. symmetry. apply take_drop.
  - intros [r ->]. rewrite length_app. split; [lia|].
    by rewrite take_app_length.
Qed.

Lemma HasPrefix_app (p r : str) : HasPrefix (p ++ r) p = true.
Proof. apply HasPrefix_true. by exists r. Qed.

Lemma HasPrefix_take (s p : str) :
  HasPrefix s p = bool_decide (take (length p) s = p).
Proof.
  unfold HasPrefix. destruct (bool_decide_reflect (length p ≤ length s)%nat)
    as [|Hn]; [done|].
  simpl. symmetry. apply bool_decide_eq_false. intros H. apply Hn.
  rewrite <- H at 1. rewrite length_take. lia.
Qed.

Lemma HasSuffix_true (s p : str) :
  HasSuffix s p = true ↔ ∃ r, s = r ++ p.
Proof.
  unfold HasSuffix. rewrite andb_true_iff, !bool_decide_eq_true. split.
  - intros [_ H]. exists (take (length s - length p) s).
    rewrite <- (take_drop (length s - length p) s) at 1. by rewrite H.
  - intros [r ->]. rewrite length_app. split; [lia|].
    replace (length r + length p - length p)%nat with (length r) by lia.
    by rewrite drop_app_length.
Qed.

Lemma Index_single_notin (c : ascii) (s : str) :
  c ∉ s → Index s [c] = -1.
Proof.
  unfold Index. generalize 0. induction s as [|d s IH]; intros i Hc; simpl.
  - done.
  - rewrite HasPrefix_take. simpl. rewrite take_0.
    rewrite bool_decide_eq_false_2.
    + apply IH. intros ?. apply Hc. by right.
    + intros [= ->]. apply Hc. by left.
Qed.

Lemma Index_single_found (c : ascii) (a b : str) :
  c ∉ a → Index (a ++ c :: b) [c] = len a.
Proof.
  unfold Index, len. change 0 with (Z.of_nat 0) at 1.
  assert (∀ n : nat, c ∉ a →
    index_from (a ++ c :: b) [c] (Z.of_nat n) = Z.of_nat (n + length a))
    as H; [|intros; by apply (H 0%nat)].
  induction a as [|d a IH]; intros n Hc; simpl.
  - rewrite HasPrefix_take. simpl. rewrite take_0.
    rewrite bool_decide_eq_true_2 by done. f_equal. lia.
  - rewrite HasPrefix_take. simpl. rewrite take_0.
    rewrite bool_decide_eq_false_2.
    + replace (Z.of_nat n + 1) with (Z.of_nat (S n)) by lia.
      rewrite IH; [f_equal; lia|]. intros ?. apply Hc. by right.
    + intros [= ->]. apply Hc. by left.
Qed.

(** A string has no [c], or a first one. *)
Lemma first_occurrence (c : ascii) (s : str) :
  c ∉ s ∨ ∃ a b, s = a ++ c :: b ∧ c ∉ a.
Proof.
  induction s as [|d s IH].
  - left. by intros ?%elem_of_nil.
  - destruct (decide (d = c)) as [->|Hd].
    + right. exists [], s. split; [done|]. by intros ?%elem_of_nil.
    + destruct IH as [H|(a & b & -> & Ha)].
      * left. intros [?|?]%elem_of_cons; done.
      * right. exists (d :: a), b. split; [done|].
        intros [?|?]%elem_of_cons; done.
Qed.

Lemma split_on_nonempty (c : ascii) (s : str) : split_on c s ≠ [].
Proof.
  destruct s as [|d s]; simpl; [done|].
  case_bool_decide; [done|]. by destruct (split_on c s).
Qed.

Lemma split_on_notin (c : ascii) (s : str) : c ∉ s → split_on c s = [s].
Proof.
  induction s as [|d s IH]; intros Hc; simpl; [done|].
  rewrite bool_decide_eq_false_2.
  - rewrite IH; [done|]. intros ?. apply Hc. by right.
  - intros ->. apply Hc. by left.
Qed.

Lemma split_on_first (c : ascii) (a b : str) :
  c ∉ a → split_on c (a ++ c :: b) = a :: split_on c b.
Proof.
  induction a as [|d a IH]; intros Hc; simpl.
  - by rewrite bool_decide_eq_true_2.
  - rewrite bool_decide_eq_false_2.
    + rewrite IH; [done|]. intros ?. apply Hc. by right.
    + intros ->. apply Hc. by left.
Qed.

Lemma Join_cons (e : str) (rest : list str) (sep : str) :
  rest ≠ [] → Join (e :: rest) sep = e ++ sep ++ Join rest sep.
Proof. by destruct rest. Qed.

(** Splitting at a byte and joining with it gives the string back. *)
Lemma Join_split_on (c : ascii) (s : str) : Join (split_on c s) [c] = s.
Proof.
  induction s as [|d s IH]; [done|]. simpl split_on.
  case_bool_decide as Hd.
  - subst d. rewrite Join_cons by apply split_on_nonempty. by rewrite IH.
  - pose proof (split_on_nonempty c s) as Hne.
    destruct (split_on c s) as [|f fs]; [done|].
    rewrite <- IH. by destruct fs.
Qed.

(** Joining strings that have no [c] and splitting at [c] gives them back. *)
Lemma split_on_Join (c : ascii) (l : list str) :
  l ≠ [] → Forall (λ e, c ∉ e) l → split_on c (Join l [c]) = l.
Proof.
  induction l as [|e l IH]; [done|]. intros _ Hall.
  apply Forall_cons in Hall as [He Hl].
  destruct l as [|e' l].
  - simpl. by apply split_on_notin.
  - rewrite Join_cons by done.
    change (e ++ [c] ++ Join (e' :: l) [c])
      with (e ++ c :: Join (e' :: l) [c]).
    rewrite split_on_first by done. f_equal. by apply IH.
Qed.

Lemma split_on_Forall (c : ascii) (s : str) :
  Forall (λ e, c ∉ e) (split_on c s).
Proof.
  induction s as [|d s IH]; simpl.
  - constructor; [by intros ?%elem_of_nil | constructor].
  - case_bool_decide as Hd.
    + constructor; [by intros ?%elem_of_nil | done].
    + destruct (split_on c s) as [|f fs]; [repeat constructor|].
      * intros [?|?%elem_of_nil]%elem_of_cons; done.
      * apply Forall_cons in IH as [Hf Hfs]. constructor; [|done].
        intros [?|?]%elem_of_cons; done.
Qed.

Lemma find_all_false {A} (f : A → bool) (l : list A) :
  (∀ x, x ∈ l → f x = false) → List.find f l = None.
Proof.
  induction l as [|x l IH]; intros H; [done|]. simpl.
  rewrite H by by left. apply IH. intros y Hy. apply H. by right.
Qed.

(** ** Slices *)

Lemma slice_app_l (a b : str) : slice (a ++ b) 0 (len a) = Some a.
Proof.
  unfold slice. pose proof (len_nonneg a). pose proof (len_nonneg b).
  rewrite bool_decide_eq_true_2 by (rewrite len_app; lia).
  rewrite drop_0, Z.sub_0_r. unfold len. rewrite Nat2Z.id.
  by rewrite take_app_length.
Qed.

Lemma slice_app_r (a b : str) : slice (a ++ b) (len a) (len (a ++ b)) = Some b.
Proof.
  unfold slice. pose proof (len_nonneg a). pose proof (len_nonneg b).
  rewrite bool_decide_eq_true_2 by (rewrite len_app; lia).
  rewrite len_app. replace (len a + len b - len a) with (len b) by lia.
  unfold len. rewrite !Nat2Z.id. rewrite drop_app_length.
  by rewrite firstn_all.
Qed.

Lemma slice_app_m (a b c : str) :
  slice (a ++ b ++ c) (len a) (len a + len b) = Some b.
Proof.
  unfold slice. pose proof (len_nonneg a). pose proof (len_nonneg b).
  pose proof (len_nonneg c).
  rewrite bool_decide_eq_true_2 by (rewrite !len_app; lia).
  replace (len a + len b - len a) with (len b) by lia.
  unfold len. rewrite !Nat2Z.id. rewrite drop_app_length.
  by rewrite take_app_length.
Qed.

(** ** The rewrite of one line *)

Lemma refers_to_code (old quotedPath : str) :
  bool_decide (quotedPath = old) || HasPrefix quotedPath (old ++ lit "/")
  = refers_to old quotedPath.
Proof.
  unfold refers_to. f_equal. rewrite HasPrefix_take, length_app.
  done.
Qed.

Lemma refers_to_prefix (old quotedPath : str) :
  refers_to old quotedPath = true → HasPrefix quotedPath old = true.
Proof.
  unfold refers_to. rewrite orb_true_iff, !bool_decide_eq_true.
  intros [->|H]; apply HasPrefix_true.
  - exists []. by rewrite app_nil_r.
  - exists (lit "/" ++ drop (length old + 1) quotedPath).
    rewrite app_assoc, <- H. symmetry. apply take_drop.
Qed.

(** On a value that refers to the old identity, [strings.Replace] with a
    count of one replaces the prefix. *)
Lemma Replace_prefix (old new quotedPath : str) :
  HasPrefix quotedPath old = true →
  Replace quotedPath old new 1 = new ++ drop (length old) quotedPath.
Proof.
  intros H. unfold Replace, Index.
  destruct quotedPath as [|c s]; simpl index_from; rewrite H; simpl.
  - case_bool_decide as Ho; [by subst|]. by rewrite drop_nil.
  - case_bool_decide as Ho; [by subst|]. done.
Qed.

Lemma rewrite_fields_nonempty (old new : str) (fs : list str) :
  fs ≠ [] → rewrite_fields old new fs ≠ [].
Proof. destruct fs as [|? [|? [|? ?]]]; done. Qed.

Lemma rewrite_line_plain (old new s : str) :
  dquote ∉ s → rewrite_line old new s = s.
Proof. intros H. unfold rewrite_line. by rewrite split_on_notin. Qed.

Lemma rewrite_line_unpaired (old new a b : str) :
  dquote ∉ a → dquote ∉ b →
  rewrite_line old new (a ++ dquote :: b) = a ++ dquote :: b.
Proof.
  intros Ha Hb. unfold rewrite_line.
  rewrite split_on_first, split_on_notin by done. done.
Qed.

Lemma rewrite_line_pair (old new a v r : str) :
  dquote ∉ a → dquote ∉ v →
  rewrite_line old new (a ++ dquote :: v ++ dquote :: r)
  = a ++ dquote :: rewrite_value old new v ++ dquote :: rewrite_line old new r.
Proof.
  intros Ha Hv. unfold rewrite_line.
  rewrite !split_on_first by done.
  pose proof (split_on_nonempty dquote r) as Hne.
  destruct (split_on dquote r) as [|f fs] eqn:E; [done|].
  cbn [rewrite_fields]. rewrite <- E.
  assert (rewrite_fields old new (f :: fs) ≠ []) as Hne'
    by by apply rewrite_fields_nonempty.
  rewrite E. rewrite !Join_cons by done. done.
Qed.

(** The loop, started at the end of [scanned], rewrites the text after it. *)
Lemma replaceModulePathInLine_loop_spec (old new : str) (fuel : nat) :
  ∀ scanned rest : str, (length rest < fuel)%nat →
  replaceModulePathInLine_loop fuel (scanned ++ rest) old new (len scanned)
  = Some (scanned ++ rewrite_line old new rest).
Proof.
  induction fuel as [|fuel IH]; intros scanned rest Hfuel; [lia|].
  cbn [replaceModulePathInLine_loop].
  rewrite slice_app_r. cbn [mbind option_bind].
  destruct (first_occurrence dquote rest) as [Hno|(a & rest1 & -> & Ha)].
  { rewrite Index_single_notin by done. cbn.
    by rewrite rewrite_line_plain. }
  rewrite Index_single_found by done.
  pose proof (len_nonneg a) as Hla.
  destruct (len a =? -1) eqn:E; [lia|]. clear E.
  assert (len a + len scanned + 1 = len (scanned ++ a ++ [dquote])) as Hpos.
  { rewrite !len_app. change (len [dquote]) with 1. lia. }
  rewrite Hpos.
  replace (scanned ++ a ++ dquote :: rest1)
    with ((scanned ++ a ++ [dquote]) ++ rest1)
    by (by rewrite <- !app_assoc).
  rewrite slice_app_r. cbn [mbind option_bind].
  destruct (first_occurrence dquote rest1) as [Hno|(v & rest2 & -> & Hv)].
  { rewrite Index_single_notin by done. cbn.
    rewrite rewrite_line_unpaired by done. by rewrite <- !app_assoc. }
  rewrite Index_single_found by done.
  pose proof (len_nonneg v) as Hlv.
  destruct (len v =? -1) eqn:E; [lia|]. clear E.
  set (pre := scanned ++ a ++ [dquote]).
  rewrite (Z.add_comm (len v)).
  replace (pre ++ v ++ dquote :: rest2)
    with (pre ++ v ++ ([dquote] ++ rest2)) by done.
  rewrite slice_app_m. cbn [mbind option_bind].
  rewrite refers_to_code, rewrite_line_pair by done.
  assert (length rest2 < fuel)%nat as Hfuel'.
  { rewrite !length_app in Hfuel. simpl in Hfuel.
    rewrite !length_app in Hfuel. simpl in Hfuel. lia. }
  unfold rewrite_value.
  destruct (refers_to old v) eqn:Hr.
  - rewrite Replace_prefix by by apply refers_to_prefix.
    rewrite slice_app_l. cbn [mbind option_bind].
    replace (pre ++ v ++ [dquote] ++ rest2)
      with ((pre ++ v) ++ ([dquote] ++ rest2)) by (by rewrite <- !app_assoc).
    replace (len pre + len v) with (len (pre ++ v)) by apply len_app.
    rewrite slice_app_r. cbn [mbind option_bind].
    set (newPath := new ++ drop (length old) v).
    replace (pre ++ newPath ++ [dquote] ++ rest2)
      with ((pre ++ newPath ++ [dquote]) ++ rest2)
      by (by rewrite <- !app_assoc).
    replace (len pre + len newPath + 1) with (len (pre ++ newPath ++ [dquote]))
      by (rewrite !len_app; change (len [dquote]) with 1; lia).
    rewrite IH by done. unfold pre. by rewrite <- !app_assoc.
  - replace (pre ++ v ++ [dquote] ++ rest2)
      with ((pre ++ v ++ [dquote]) ++ rest2) by (by rewrite <- !app_assoc).
    replace (len pre + len v + 1) with (len (pre ++ v ++ [dquote]))
      by (rewrite !len_app; change (len [dquote]) with 1; lia).
    rewrite IH by done. unfold pre. by rewrite <- !app_assoc.
Qed.

(** [replaceModulePathInLine] returns, and returns the line with its
    quoted values rewritten. *)
Lemma replaceModulePathInLine_spec (line old new : str) :
  replaceModulePathInLine line old new = Some (rewrite_line old new line).
Proof.
  unfold replaceModulePathInLine.
  apply (replaceModulePathInLine_loop_spec old new (S (length line)) [] line).
  lia.
Qed.

(** ** White space *)

(** No white space encoding holds a double quote. *)
Lemma space_encodings_no_dquote :
  Forall (λ e : str, dquote ∉ e) space_encodings.
Proof.
  unfold space_encodings.
  repeat (apply Forall_cons; split;
          [apply (bool_decide_unpack _); by vm_compute|]).
  apply Forall_nil_2.
Qed.

Lemma leading_space_Some (s e : str) :
  leading_space s = Some e → e ∈ space_encodings ∧ ∃ r, s = e ++ r ∧ drop (length e) s = r.
Proof.
  intros [Hin Hp]%find_some. split; [by apply list_elem_of_In|].
  apply HasPrefix_true in Hp as [r ->]. exists r.
  by rewrite drop_app_length.
Qed.

Lemma trailing_space_Some (s e : str) :
  trailing_space s = Some e →
  e ∈ space_encodings ∧ ∃ r, s = r ++ e ∧ take (length s - length e) s = r.
Proof.
  intros [Hin Hp]%find_some. split; [by apply list_elem_of_In|].
  apply HasSuffix_true in Hp as [r ->]. exists r. split; [done|].
  rewrite length_app.
  replace (length r + length e - length e)%nat with (length r) by lia.
  by rewrite take_app_length.
Qed.

Lemma trim_left_dquote (fuel : nat) (s : str) :
  dquote ∈ s → dquote ∈ trim_left fuel s.
Proof.
  revert s. induction fuel as [|fuel IH]; intros s Hs; simpl; [done|].
  destruct (leading_space s) as [e|] eqn:E; [|done].
  apply leading_space_Some in E as (He & r & -> & ->).
  apply IH. apply elem_of_app in Hs as [Hs|Hs]; [|done].
  pose proof space_encodings_no_dquote as Hall.
  rewrite Forall_forall in Hall. by destruct (Hall e He).
Qed.

Lemma trim_right_dquote (fuel : nat) (s : str) :
  dquote ∈ s → dquote ∈ trim_right fuel s.
Proof.
  revert s. induction fuel as [|fuel IH]; intros s Hs; simpl; [done|].
  destruct (trailing_space s) as [e|] eqn:E; [|done].
  apply trailing_space_Some in E as (He & r & Hr & ->).
  apply IH. subst s. apply elem_of_app in Hs as [Hs|Hs]; [done|].
  pose proof space_encodings_no_dquote as Hall.
  rewrite Forall_forall in Hall. by destruct (Hall e He).
Qed.

Lemma space_encodings_nonempty :
  Forall (λ e : str, (1 ≤ length e)%nat) space_encodings.
Proof.
  unfold space_encodings.
  repeat (apply Forall_cons; split; [cbn; lia|]). apply Forall_nil_2.
Qed.

Lemma space_encoding_length (e : str) :
  e ∈ space_encodings → (1 ≤ length e)%nat.
Proof.
  pose proof space_encodings_nonempty as H. rewrite Forall_forall in H.
  apply H.
Qed.

(** The rounds of [TrimSpace] are enough: what it returns neither
    starts nor ends with white space. *)
Lemma trim_left_done (fuel : nat) (s : str) :
  (length s ≤ fuel)%nat → leading_space (trim_left fuel s) = None.
Proof.
  revert s. induction fuel as [|fuel IH]; intros s Hs.
  - destruct s; [by vm_compute|simpl in Hs; lia].
  - simpl. destruct (leading_space s) as [e|] eqn:E; [|done].
    apply leading_space_Some in E as (He & r & -> & ->).
    apply IH. apply space_encoding_length in He.
    rewrite length_app in Hs. lia.
Qed.

Lemma trim_right_done (fuel : nat) (s : str) :
  (length s ≤ fuel)%nat → trailing_space (trim_right fuel s) = None.
Proof.
  revert s. induction fuel as [|fuel IH]; intros s Hs.
  - destruct s; [by vm_compute|simpl in Hs; lia].
  - simpl. destruct (trailing_space s) as [e|] eqn:E; [|done].
    apply trailing_space_Some in E as (He & r & Hr & ->).
    apply IH. apply space_encoding_length in He. subst s.
    rewrite length_app in Hs. lia.
Qed.

Lemma trim_right_prefix (fuel : nat) (s : str) :
  ∃ r, s = trim_right fuel s ++ r.
Proof.
  revert s. induction fuel as [|fuel IH]; intros s.
  - exists []. by rewrite app_nil_r.
  - simpl. destruct (trailing_space s) as [e|] eqn:E.
    + apply trailing_space_Some in E as (He & r & Hr & ->).
      destruct (IH r) as [r' Hr']. exists (r' ++ e).
      by rewrite app_assoc, <- Hr'.
    + exists []. by rewrite app_nil_r.
Qed.

Lemma leading_space_prefix (s r : str) :
  leading_space (s ++ r) = None → leading_space s = None.
Proof.
  intros H. apply find_all_false. intros e He.
  destruct (HasPrefix s e) eqn:Hp; [|done].
  apply HasPrefix_true in Hp as [t ->].
  pose proof (find_none _ _ H e (proj1 (list_elem_of_In _ _) He)) as Hn.
  cbn in Hn. by rewrite <- app_assoc, HasPrefix_app in Hn.
Qed.

Lemma TrimSpace_trimmed (s : str) :
  leading_space (TrimSpace s) = None ∧ trailing_space (TrimSpace s) = None.
Proof.
  unfold TrimSpace. split; [|by apply trim_right_done].
  destruct (trim_right_prefix (length (trim_left (length s) s))
              (trim_left (length s) s)) as [r Hr].
  apply (leading_space_prefix _ r). rewrite <- Hr.
  by apply trim_left_done.
Qed.

(** [TrimSpace] removes no double quote. *)
Lemma TrimSpace_dquote (s : str) : dquote ∈ s → dquote ∈ TrimSpace s.
Proof. intros H. unfold TrimSpace. by apply trim_right_dquote, trim_left_dquote. Qed.

(** ** The lines of a file *)

(** The lines that open and close a block hold no quoted value. *)
Lemma is_opener_plain (old new l : str) :
  is_opener l = true → rewrite_line old new l = l.
Proof.
  unfold is_opener. rewrite bool_decide_eq_true. intros H.
  apply rewrite_line_plain. intros Hq%TrimSpace_dquote.
  rewrite H in Hq. revert Hq. apply (bool_decide_unpack _). by vm_compute.
Qed.

Lemma is_closer_plain (old new l : str) :
  is_closer l = true → rewrite_line old new l = l.
Proof.
  unfold is_closer. rewrite bool_decide_eq_true. intros H.
  apply rewrite_line_plain. intros Hq%TrimSpace_dquote.
  rewrite H in Hq. revert Hq. apply (bool_decide_unpack _). by vm_compute.
Qed.

(** The block flag of the loop, one line further. *)
Lemma inside_block_snoc (before : list str) (l : str) :
  inside_block (before ++ [l])
  = if is_opener l then true
    else if is_closer l then false else inside_block before.
Proof.
  induction before as [|x b IH]; simpl.
  - rewrite andb_true_r, orb_false_r.
    destruct (is_opener l); [done|]. by destruct (is_closer l).
  - rewrite IH, forallb_app. simpl. rewrite andb_true_r.
    destruct (is_opener l); [by rewrite orb_true_r|].
    destruct (is_closer l); simpl.
    + by rewrite !andb_false_r.
    + by rewrite andb_true_r.
Qed.

Lemma is_single_import_code (l : str) :
  HasPrefix (TrimSpace l) (lit "import ") = is_single_import l.
Proof. by rewrite HasPrefix_take. Qed.

Lemma rewrite_lines_length (old new : str) (lines : list str) :
  length (rewrite_lines old new lines) = length lines.
Proof. unfold rewrite_lines. by rewrite length_imap. Qed.

Lemma rewrite_lines_lookup (old new : str) (lines : list str) (i : nat) (l : str) :
  lines !! i = Some l →
  rewrite_lines old new lines !! i
  = Some (if candidate_line (take i lines) l
          then rewrite_line old new l else l).
Proof. intros H. unfold rewrite_lines. by rewrite list_lookup_imap, H. Qed.

(** With [n] lines left, the loop holds the rewritten lines up to [i], the
    lines of the file from [i] on, and the block flag of the lines before
    [i]; it ends with all lines rewritten. *)
Lemma replaceImportPaths_loop_spec (old new : str) (L : list str) (n : nat) :
  ∀ i : nat, (i + n)%nat = length L →
  replaceImportPaths_loop n i (inside_block (take i L))
    (take i (rewrite_lines old new L) ++ drop i L) old new
  = Some (rewrite_lines old new L).
Proof.
  set (R := rewrite_lines old new L).
  assert (length R = length L) as HR by apply rewrite_lines_length.
  induction n as [|n IH]; intros i Hi; cbn [replaceImportPaths_loop].
  { rewrite drop_ge, take_ge, app_nil_r by lia. done. }
  destruct (lookup_lt_is_Some_2 L i) as [line Hline]; [lia|].
  assert ((take i R ++ drop i L) !! i = Some line) as Hcur.
  { rewrite lookup_app_r by (rewrite length_take; lia).
    rewrite length_take, lookup_drop.
    replace (i + (i - i `min` length R))%nat with i by lia. done. }
  rewrite Hcur. cbn [mbind option_bind].
  pose proof (rewrite_lines_lookup old new L i line Hline) as HRi.
  fold R in HRi.
  assert (take (S i) L = take i L ++ [line]) as Htake
    by by apply take_S_r.
  assert (∀ x, R !! i = Some x →
            take (S i) R ++ drop (S i) L
            = <[i := x]> (take i R ++ drop i L)) as Hstep.
  { intros x Hx. rewrite (take_S_r R i x Hx), <- app_assoc.
    rewrite insert_app_r_alt by (rewrite length_take; lia).
    rewrite length_take.
    replace (i - i `min` length R)%nat with 0%nat by lia.
    rewrite (drop_S L line i Hline). done. }
  assert (∀ b, R !! i = Some line →
            replaceImportPaths_loop n (S i) b (take i R ++ drop i L) old new
            = replaceImportPaths_loop n (S i) b
                (take (S i) R ++ drop (S i) L) old new) as Hkeep.
  { intros b Hx. rewrite (Hstep line Hx).
    by rewrite list_insert_id. }
  pose proof (inside_block_snoc (take i L) line) as Hflag.
  rewrite <- Htake in Hflag.
  fold (is_opener line). fold (is_closer line).
  rewrite is_single_import_code.
  unfold candidate_line in HRi.
  destruct (is_opener line) eqn:Hop.
  { rewrite Hkeep.
    - rewrite <- Hflag. apply IH. lia.
    - rewrite HRi. rewrite is_opener_plain by done. by destruct (_ || _). }
  destruct (inside_block (take i L)) eqn:Hin.
  - destruct (is_closer line) eqn:Hcl; cbn [andb].
    { rewrite Hkeep.
      - rewrite <- Hflag. apply IH. lia.
      - rewrite HRi. rewrite is_closer_plain by done. by destruct (_ || _). }
    rewrite orb_true_r in *.
    rewrite replaceModulePathInLine_spec. cbn [mbind option_bind].
    case_bool_decide as Hne.
    + rewrite <- (Hstep _ HRi). rewrite <- Hflag. apply IH. lia.
    + rewrite Hne in HRi.
      rewrite Hkeep by done. rewrite <- Hflag. apply IH. lia.
  - cbn [andb]. rewrite orb_false_r in *.
    assert (inside_block (take (S i) L) = false) as Hflag'
      by (rewrite Hflag; by destruct (is_closer line)).
    destruct (is_single_import line) eqn:Hsi.
    + rewrite replaceModulePathInLine_spec. cbn [mbind option_bind].
      case_bool_decide as Hne.
      * rewrite <- (Hstep _ HRi). rewrite <- Hflag'. apply IH. lia.
      * rewrite Hne in HRi.
        rewrite Hkeep by done. rewrite <- Hflag'. apply IH. lia.
    + rewrite Hkeep by done. rewrite <- Hflag'. apply IH. lia.
Qed.

(** [replaceImportPaths] returns, and returns the content the
    specification describes. *)
Lemma replaceImportPaths_spec (content old new : str) :
  replaceImportPaths content old new = Some (rewrite_content old new content).
Proof.
  unfold replaceImportPaths, rewrite_content.
  pose proof (replaceImportPaths_loop_spec old new (splitLines content)
                (length (splitLines content)) 0%nat eq_refl) as H.
  rewrite take_0, drop_0 in H. simpl in H. by rewrite H.
Qed.


(** ** The manifest *)

Import FS Generator.

Lemma declares_module_code (line : str) :
  HasPrefix line (lit "module ") = declares_module line.
Proof. by rewrite HasPrefix_take. Qed.

(** The loop rewrites the first declaring line and stops. *)
Lemma updateGoModule_loop_first (before after lines : list str)
    (l modulePath : str) (i : nat) :
  Forall (λ x, declares_module x = false) before →
  declares_module l = true →
  updateGoModule_loop (before ++ l :: after) i lines modulePath
  = <[(i + length before)%nat := lit "module " ++ modulePath]> lines.
Proof.
  intros Hb Hl. revert i. induction Hb as [|x before Hx Hb IH]; intros i.
  - cbn [app updateGoModule_loop]. rewrite declares_module_code, Hl.
    by rewrite Nat.add_0_r.
  - cbn [app updateGoModule_loop]. rewrite declares_module_code, Hx, IH.
    cbn [length]. by replace (S i + length before)%nat
      with (i + S (length before))%nat by lia.
Qed.

(** Without a declaring line the loop changes nothing. *)
Lemma updateGoModule_loop_none (rest lines : list str) (modulePath : str)
    (i : nat) :
  Forall (λ x, declares_module x = false) rest →
  updateGoModule_loop rest i lines modulePath = lines.
Proof.
  intros H. revert i. induction H as [|x rest Hx _ IH]; intros i; [done|].
  cbn [updateGoModule_loop]. by rewrite declares_module_code, Hx, IH.
Qed.

Lemma extractOriginalModulePath_loop_first (before after : list str) (l : str) :
  Forall (λ x, declares_module x = false) before →
  declares_module l = true →
  extractOriginalModulePath_loop (before ++ l :: after)
  = inl (TrimSpace (TrimPrefix l (lit "module "))).
Proof.
  intros Hb Hl. induction Hb as [|x before Hx Hb IH].
  - cbn [app extractOriginalModulePath_loop].
    by rewrite declares_module_code, Hl.
  - cbn [app extractOriginalModulePath_loop].
    by rewrite declares_module_code, Hx, IH.
Qed.

Lemma extractOriginalModulePath_loop_none (lines : list str) :
  Forall (λ x, declares_module x = false) lines →
  extractOriginalModulePath_loop lines
  = inr (lit "no module declaration found in go.mod").
Proof.
  induction 1 as [|x rest Hx _ IH]; [done|].
  cbn [extractOriginalModulePath_loop]. by rewrite declares_module_code, Hx.
Qed.

(** A list of lines has no declaring line, or a first one. *)
Lemma first_declaring_line (lines : list str) :
  Forall (λ x, declares_module x = false) lines
  ∨ ∃ before l after,
      lines = before ++ l :: after
      ∧ Forall (λ x, declares_module x = false) before
      ∧ declares_module l = true.
Proof.
  induction lines as [|x lines IH]; [by left|].
  destruct (declares_module x) eqn:Hx.
  - right. by exists [], x, lines.
  - destruct IH as [H|(before & l & after & -> & Hb & Hl)].
    + left. by constructor.
    + right. exists (x :: before), l, after. split; [done|].
      split; [by constructor|done].
Qed.

(** What [updateGoModule] does to a manifest that can be read and
    written. *)
Lemma updateGoModule_run (w : World) (path modulePath : str) (f : file) :
  FilePath.IsAbs path = true →
  files w !! path = Some f →
  read_error f = None →
  write_error f = None →
  let lines := splitLines (data f) in
  let content :=
    GoStrings.Join (updateGoModule_loop lines 0 lines modulePath) [newline] in
  updateGoModule w path modulePath
  = (mkWorld (<[path := File content None None]> (files w))
       (calls w ++ [CallStat path; CallReadFile path;
                    CallWriteFile path content])
       (stdout w), None).
Proof.
  intros Habs Hf Hr Hw. unfold updateGoModule. rewrite Habs.
  cbn [negb StatNotExist]. rewrite Hf.
  rewrite bool_decide_eq_false_2 by done.
  unfold ReadFile, record. cbn [files calls stdout]. rewrite Hf, Hr.
  unfold WriteFile, record. cbn [files calls stdout]. rewrite Hf, Hw, Hr.
  by rewrite <- !app_assoc.
Qed.

(** What [extractOriginalModulePath] does on a manifest that can be
    read. *)
Lemma extractOriginalModulePath_run (w : World) (path : str) (f : file) :
  FilePath.IsAbs path = true →
  files w !! path = Some f →
  read_error f = None →
  extractOriginalModulePath w path
  = (mkWorld (files w) (calls w ++ [CallStat path; CallReadFile path])
       (stdout w),
     extractOriginalModulePath_loop (splitLines (data f))).
Proof.
  intros Habs Hf Hr. unfold extractOriginalModulePath. rewrite Habs.
  cbn [negb StatNotExist]. rewrite Hf.
  rewrite bool_decide_eq_false_2 by done.
  unfold ReadFile, record. cbn [files calls stdout]. rewrite Hf, Hr.
  by rewrite <- !app_assoc.
Qed.

(** ** Identities without white space *)

Lemma index_from_occurs (a e b : str) (i : Z) :
  0 ≤ i → index_from (a ++ e ++ b) e i ≠ -1.
Proof.
  revert i. induction a as [|c a IH]; intros i Hi.
  - cbn [app]. destruct (e ++ b) as [|c r] eqn:E; cbn [index_from];
      rewrite <- E, HasPrefix_app; lia.
  - cbn [app index_from].
    destruct (HasPrefix (c :: a ++ e ++ b) e); [lia|]. apply IH. lia.
Qed.

Lemma Index_occurs (a e b : str) : Index (a ++ e ++ b) e ≠ -1.
Proof. by apply index_from_occurs. Qed.

Lemma whitespace_free_encoding (s e : str) :
  whitespace_free s = true → e ∈ space_encodings → Index s e = -1.
Proof.
  unfold whitespace_free. rewrite forallb_forall. intros H He.
  apply Z.eqb_eq, H. by apply list_elem_of_In.
Qed.

Lemma whitespace_free_newline (s : str) :
  whitespace_free s = true → newline ∉ s.
Proof.
  intros H Hin. apply list_elem_of_split in Hin as (a & b & ->).
  apply (Index_occurs a [newline] b).
  apply whitespace_free_encoding; [done|].
  apply (bool_decide_unpack _). by vm_compute.
Qed.

Lemma whitespace_free_leading (s : str) :
  whitespace_free s = true → leading_space s = None.
Proof.
  intros H. apply find_all_false. intros e He.
  destruct (HasPrefix s e) eqn:Hp; [|done].
  apply HasPrefix_true in Hp as [r ->].
  destruct (Index_occurs [] e r). by apply whitespace_free_encoding.
Qed.

Lemma whitespace_free_trailing (s : str) :
  whitespace_free s = true → trailing_space s = None.
Proof.
  intros H. apply find_all_false. intros e He.
  destruct (HasSuffix s e) eqn:Hp; [|done].
  apply HasSuffix_true in Hp as [r ->].
  destruct (Index_occurs r e []). rewrite app_nil_r.
  by apply whitespace_free_encoding.
Qed.

(** [TrimSpace] keeps an identity without white space as it is. *)
Lemma TrimSpace_whitespace_free (s : str) :
  whitespace_free s = true → TrimSpace s = s.
Proof.
  intros H. unfold TrimSpace.
  assert (∀ n, trim_left n s = s) as Hl.
  { intros [|n]; [done|]. simpl. by rewrite whitespace_free_leading. }
  rewrite Hl. destruct (length s); [done|]. simpl.
  by rewrite whitespace_free_trailing.
Qed.

(** ** The manifest: what the specification states *)

Section Manifest.
Variables (w : World) (path : str) (f : file).
Hypothesis Habs : FilePath.IsAbs path = true.
Hypothesis Hfile : files w !! path = Some f.
Hypothesis Hread : read_error f = None.
Hypothesis Hwrite : write_error f = None.

Lemma updateGoModule_first_line
    (newIdentity : str) (before after : list str) (l : str) :
  splitLines (data f) = before ++ l :: after →
  Forall (λ x, declares_module x = false) before →
  declares_module l = true →
  let content :=
    GoStrings.Join (before ++ (lit "module " ++ newIdentity) :: after)
      [newline] in
  ∃ w',
    updateGoModule w path newIdentity = (w', None)
    ∧ files w' = <[path := File content None None]> (files w)
    ∧ stdout w' = stdout w
    ∧ (newline ∉ newIdentity →
       splitLines content
       = before ++ (lit "module " ++ newIdentity) :: after).
Proof.
  intros Hsplit Hb Hl content. eexists. split; [|split; [|split]].
  - by apply updateGoModule_run.
  - cbn [files]. rewrite Hsplit.
    rewrite (updateGoModule_loop_first before after) by done.
    rewrite insert_app_r_alt by (cbn; lia). cbn [length].
    by replace (0 + length before - length before)%nat with 0%nat by lia.
  - done.
  - intros Hnl. apply split_on_Join; [by destruct before|].
    pose proof (split_on_Forall newline (data f)) as Hall.
    fold (splitLines (data f)) in Hall. rewrite Hsplit in Hall.
    apply Forall_app in Hall as [Hall1 Hall2].
    apply Forall_cons in Hall2 as [_ Hall2].
    apply Forall_app. split; [done|]. constructor; [|done].
    intros [Hin|Hin]%elem_of_app; [|done].
    revert Hin. apply (bool_decide_unpack _). by vm_compute.
Qed.

(** C8.  On a manifest with a line that begins with [module ],
    [updateGoModule] succeeds and writes the file with the first such
    line replaced by [module <newIdentity>]: the lines before it and the
    lines after it, later [module ] lines among them, are the lines of
    the file in their order, and no other file changes.  When the
    identity has no newline these are the lines of the new file. *)
Theorem C8_updateGoModule_first_line_only
    (newIdentity : str) (before after : list str) (l : str) :
  splitLines (data f) = before ++ l :: after →
  Forall (λ x, declares_module x = false) before →
  declares_module l = true →
  let content :=
    GoStrings.Join (before ++ (lit "module " ++ newIdentity) :: after)
      [newline] in
  ∃ w',
    updateGoModule w path newIdentity = (w', None)
    ∧ files w' = <[path := File content None None]> (files w)
    ∧ stdout w' = stdout w
    ∧ (newline ∉ newIdentity →
       splitLines content
       = before ++ (lit "module " ++ newIdentity) :: after).
Proof. apply updateGoModule_first_line. Qed.

(** C5.  After [updateGoModule] has set an identity that is not empty
    and holds no white space, [extractOriginalModulePath] returns that
    identity. *)
Theorem C5_extract_after_update (newIdentity : str) :
  Exists (λ x, declares_module x = true) (splitLines (data f)) →
  newIdentity ≠ [] →
  whitespace_free newIdentity = true →
  ∃ w' w'',
    updateGoModule w path newIdentity = (w', None)
    ∧ extractOriginalModulePath w' path = (w'', inl newIdentity).
Proof.
  intros Hex _ Hws.
  destruct (first_declaring_line (splitLines (data f)))
    as [Hnone|(before & l & after & Hsplit & Hb & Hl)].
  { apply Exists_exists in Hex as (x & Hx & Hd).
    rewrite Forall_forall in Hnone. rewrite (Hnone x Hx) in Hd. done. }
  destruct (updateGoModule_first_line newIdentity before after l
              Hsplit Hb Hl) as (w' & Hrun & Hfiles & _ & Hlines).
  exists w'. eexists. split; [done|].
  rewrite (extractOriginalModulePath_run w' path
             (File (GoStrings.Join
                      (before ++ (lit "module " ++ newIdentity) :: after)
                      [newline]) None None)); [|done| |done].
  - f_equal. cbn [data]. fold (splitLines).
    unfold splitLines at 1.
    change (split_on newline ?c) with (splitLines c).
    rewrite Hlines by by apply whitespace_free_newline.
    rewrite (extractOriginalModulePath_loop_first before after); [|done|].
    + unfold TrimPrefix. rewrite HasPrefix_app, drop_app_length.
      by rewrite TrimSpace_whitespace_free.
    + unfold declares_module. by rewrite bool_decide_eq_true_2.
  - rewrite Hfiles. apply lookup_insert_eq.
Qed.

(** C10.  On a manifest without a line that begins with [module ],
    [updateGoModule] reports no error and writes the file back with the
    content it has, while [extractOriginalModulePath] fails on that
    content with [no module declaration found in go.mod]. *)
Theorem C10_update_without_declaration (newIdentity : str) :
  Forall (λ x, declares_module x = false) (splitLines (data f)) →
  ∃ w' w'',
    updateGoModule w path newIdentity = (w', None)
    ∧ calls w' = calls w ++ [CallStat path; CallReadFile path;
                             CallWriteFile path (data f)]
    ∧ files w' = files w
    ∧ stdout w' = stdout w
    ∧ extractOriginalModulePath w path
      = (w'', inr (lit "no module declaration found in go.mod")).
Proof.
  intros Hnone. eexists. eexists. split; [|split; [|split; [|split]]].
  - by apply updateGoModule_run.
  - cbn [calls]. rewrite updateGoModule_loop_none by done.
    unfold splitLines. by rewrite Join_split_on.
  - cbn [files]. rewrite updateGoModule_loop_none by done.
    unfold splitLines. rewrite Join_split_on. apply insert_id.
    rewrite Hfile. destruct f as [d r wr]. cbn in *. by subst.
  - done.
  - rewrite (extractOriginalModulePath_run w path f) by done.
    by rewrite extractOriginalModulePath_loop_none.
Qed.

End Manifest.

(** ** The walk over the project *)

Lemma node_ind' (P : node → Prop) :
  P Regular →
  (∀ e, P (Broken e)) →
  (∀ r entries, Forall (λ ne, P ne.2) entries → P (Directory r entries)) →
  ∀ n, P n.
Proof.
  intros HR HB HD. fix IH 1. intros [|r entries|e]; [done| |done].
  apply HD. induction entries as [|[name child] rest IHr]; constructor.
  - apply IH.
  - apply IHr.
Qed.

Lemma Base_go_file (path : str) :
  HasSuffix path (lit ".go") = true → FilePath.Base path ≠ lit "go.mod".
Proof.
  intros [r ->]%HasSuffix_true. unfold FilePath.Base.
  case_bool_decide as He; [by destruct r|].
  rewrite rev_app_distr.
  change (rev (lit ".go") ++ rev r)
    with ("o"%char :: "g"%char :: "."%char :: rev r).
  cbn [FilePath.strip_slashes]. unfold FilePath.slash.
  rewrite (bool_decide_eq_false_2 ("o"%char = "/"%char)) by done.
  cbn [FilePath.until_slash]. unfold FilePath.slash.
  rewrite (bool_decide_eq_false_2 ("o"%char = "/"%char)) by done.
  cbn [rev]. case_bool_decide as Hl; [done|].
  intros H. apply (f_equal (@rev ascii)) in H. rewrite rev_app_distr in H.
  cbn in H. done.
Qed.

(** At a source file the function of the walk does what [rewrite_file]
    says, and lets the walk go on. *)
Lemma updateImportPaths_visit_file (old new path : str) (w : World) :
  HasSuffix path (lit ".go") = true →
  updateImportPaths_visit old new path (Some false) None w
  = Some (rewrite_file old new w path, Nil).
Proof.
  intros Hgo. unfold updateImportPaths_visit. cbn [mbind option_bind].
  rewrite Hgo. cbn [negb].
  rewrite bool_decide_eq_false_2 by by apply Base_go_file.
  unfold updateImportPathsInFile, rewrite_file, ReadFile, record.
  cbn [files calls stdout].
  destruct (files w !! path) as [f|] eqn:Hf; [|done].
  destruct (read_error f) as [e|] eqn:Hr; [done|].
  rewrite replaceImportPaths_spec. cbn [mbind option_bind].
  case_bool_decide as Hc; [|done].
  unfold WriteFile, record. cbn [files calls stdout]. rewrite Hf, Hr.
  destruct (write_error f) as [e|] eqn:Hw; cbn [mbind option_bind];
    unfold Print; cbn [files calls stdout]; by rewrite <- !app_assoc.
Qed.

Lemma updateImportPaths_visit_dir (old new path : str) (w : World) :
  updateImportPaths_visit old new path (Some true) None w
  = Some (w, if skipped_dir path then SkipDir else Nil).
Proof.
  unfold updateImportPaths_visit, skipped_dir. cbn [mbind option_bind].
  rewrite HasPrefix_take. by destruct (_ || _ || _).
Qed.

(** On a tree it can walk, the walk rewrites the source files one after
    the other and ends without an error. *)
Lemma walk_walkable (old new : str) (n : node) :
  ∀ (path : str) (w : World),
  walkable path n = true →
  ∃ err,
    walk (updateImportPaths_visit old new) path n w
    = Some (foldl (rewrite_file old new) w (source_files path n), err)
    ∧ (err = Nil ∨ (err = SkipDir ∧ ∃ r entries, n = Directory r entries)).
Proof.
  induction n as [| |r entries IH] using node_ind'; intros path w Hw.
  - cbn [walk source_files].
    destruct (HasSuffix path (lit ".go")) eqn:Hgo.
    + exists Nil. rewrite updateImportPaths_visit_file by done.
      split; [done|by left].
    + exists Nil. split; [|by left].
      unfold updateImportPaths_visit. cbn [mbind option_bind].
      by rewrite Hgo.
  - done.
  - cbn [walkable] in Hw. apply andb_true_iff in Hw as [Hr Hw].
    apply bool_decide_eq_true in Hr. subst r.
    cbn [walk source_files]. rewrite updateImportPaths_visit_dir.
    cbn [mbind option_bind].
    destruct (skipped_dir path) eqn:Hskip.
    { exists SkipDir. split; [done|]. right. eauto. }
    cbn [orb] in Hw. exists Nil. split; [|by left].
    revert w Hw. induction IH as [|[name child] rest Hchild _ IHrest];
      intros w Hw; [done|].
    apply andb_true_iff in Hw as [Hw1 Hw2]. cbn [snd] in Hchild.
    destruct (Hchild (FilePath.Join path name) w Hw1)
      as (err & Hwalk & Herr).
    rewrite Hwalk. cbn [mbind option_bind]. rewrite foldl_app.
    destruct Herr as [->|[-> (r' & entries' & ->)]]; by apply IHrest.
Qed.

(** With identities it accepts, [updateImportPaths] returns [nil] on a
    tree it can walk. *)
Lemma updateImportPaths_walkable (w : World) (root : str) (tree : node)
    (old new : str) :
  old ≠ [] → new ≠ [] → old ≠ new →
  walkable root tree = true →
  updateImportPaths w root tree old new
  = Some (foldl (rewrite_file old new) w (source_files root tree), None).
Proof.
  intros Ho Hn Hne Hw. unfold updateImportPaths, Walk.
  rewrite !bool_decide_eq_false_2 by done. cbn [orb].
  destruct (walk_walkable old new tree root w Hw) as (err & -> & Herr).
  cbn [mbind option_bind]. by destruct Herr as [->|[-> _]].
Qed.

(** ** One file after the other *)

Lemma file_failure_ext (w w' : World) (old new p : str) :
  files w !! p = files w' !! p →
  file_failure w old new p = file_failure w' old new p.
Proof. unfold file_failure. by intros ->. Qed.

Lemma rewrite_file_other (old new : str) (w : World) (p p' : str) :
  p ≠ p' → files (rewrite_file old new w p) !! p' = files w !! p'.
Proof.
  intros Hne. unfold rewrite_file.
  destruct (files w !! p) as [f|]; [|done].
  destruct (read_error f); [done|].
  case_bool_decide; [|done].
  destruct (write_error f); [done|]. cbn [files].
  by rewrite lookup_insert_ne.
Qed.

Lemma rewrite_file_same (old new : str) (w : World) (p : str) :
  files (rewrite_file old new w p) !! p
  = match file_failure w old new p with
    | None => rewritten old new <$> files w !! p
    | Some _ => files w !! p
    end.
Proof.
  unfold rewrite_file, file_failure, rewritten.
  destruct (files w !! p) as [[d r wr]|] eqn:Hf; [|done]. cbn [data read_error write_error].
  destruct r; [done|].
  case_bool_decide as Hc.
  - destruct wr; [done|]. cbn [files]. by rewrite lookup_insert_eq.
  - cbn [files]. rewrite Hf.
    destruct wr; cbn [fmap option_fmap option_map data read_error write_error];
      by rewrite Hc.
Qed.

Lemma rewrite_file_stdout (old new : str) (w : World) (p : str) :
  stdout (rewrite_file old new w p) = stdout w ++ warnings_of w old new p.
Proof.
  unfold rewrite_file, warnings_of, file_failure.
  destruct (files w !! p) as [[d r wr]|]; [|done].
  cbn [data read_error write_error].
  destruct r; [done|].
  case_bool_decide; destruct wr; cbn [stdout]; by rewrite ?app_nil_r.
Qed.

Lemma flat_map_agree {A B} (f g : A → list B) (l : list A) :
  (∀ x, x ∈ l → f x = g x) → flat_map f l = flat_map g l.
Proof.
  induction l as [|x l IH]; intros H; [done|]. simpl.
  rewrite H by by left. f_equal. apply IH. intros y Hy. apply H. by right.
Qed.

(** The files are rewritten one by one, each as if it were the only one,
    and the warnings come in the order of the walk. *)
Lemma foldl_rewrite_file (old new : str) (paths : list str) :
  ∀ w : World,
  NoDup paths →
  let w' := foldl (rewrite_file old new) w paths in
  (∀ p, p ∉ paths → files w' !! p = files w !! p)
  ∧ (∀ p, p ∈ paths →
       files w' !! p
       = match file_failure w old new p with
         | None => rewritten old new <$> files w !! p
         | Some _ => files w !! p
         end)
  ∧ stdout w' = stdout w ++ flat_map (warnings_of w old new) paths.
Proof.
  induction paths as [|p0 rest IH]; intros w Hnd; cbn [foldl].
  { split; [done|]. split; [by intros p ?%elem_of_nil|].
    by rewrite app_nil_r. }
  apply NoDup_cons in Hnd as [Hp0 Hnd].
  destruct (IH (rewrite_file old new w p0) Hnd) as (Hout & Hin & Hstd).
  assert (∀ p, p ∈ rest →
            file_failure (rewrite_file old new w p0) old new p
            = file_failure w old new p) as Hsame.
  { intros p Hp. apply file_failure_ext, rewrite_file_other.
    intros ->. done. }
  split; [|split].
  - intros p Hp. apply not_elem_of_cons in Hp as [Hne Hp].
    rewrite Hout by done. by apply rewrite_file_other.
  - intros p [->|Hp]%elem_of_cons.
    + rewrite Hout by done. apply rewrite_file_same.
    + rewrite Hin, Hsame by done.
      rewrite rewrite_file_other; [done|]. by intros ->.
  - rewrite Hstd, rewrite_file_stdout, <- app_assoc. cbn [flat_map].
    do 2 f_equal. apply flat_map_agree. intros p Hp.
    unfold warnings_of. by rewrite Hsame.
Qed.

Lemma flat_map_single {A B} (g : A → list B) (l : list A) (bad : A) :
  bad ∈ l → (∀ x, x ∈ l → x ≠ bad → g x = []) → NoDup l →
  flat_map g l = g bad.
Proof.
  induction l as [|x l IH]; intros Hbad Hrest Hnd; [by apply elem_of_nil in Hbad|].
  apply NoDup_cons in Hnd as [Hx Hnd]. cbn [flat_map].
  apply elem_of_cons in Hbad as [->|Hbad].
  - rewrite (flat_map_agree g (λ _, [])).
    + clear. induction l; [by rewrite app_nil_r|done].
    + intros y Hy. apply Hrest; [by right|]. by intros ->.
  - rewrite Hrest; [|by left|by intros ->]. cbn [app]. apply IH; [done| |done].
    intros y Hy. apply Hrest. by right.
Qed.

(** ** The walk: what the specification states *)

(** C6.  When the two identities are equal, or one of them is empty,
    [updateImportPaths] returns an error that names them, and returns it
    at once: no call to the file system is made, no file changes and
    nothing is printed. *)
Theorem C6_updateImportPaths_rejects_identities
    (w : World) (projectPath : str) (tree : node) (old new : str) :
  old = new ∨ old = [] ∨ new = [] →
  ∃ msg,
    updateImportPaths w projectPath tree old new = Some (w, Some msg)
    ∧ (old = new →
       msg = lit "oldModule and newModule are the same: " ++ old)
    ∧ (old ≠ new →
       msg = lit "oldModule and newModule must not be empty (old: '"
             ++ old ++ lit "', new: '" ++ new ++ lit "')").
Proof.
  intros H. unfold updateImportPaths.
  case_bool_decide as Heq.
  - eexists. split; [done|]. split; [done|]. intros Hne. by destruct Hne.
  - destruct H as [H|H]; [done|].
    assert (bool_decide (old = []) || bool_decide (new = []) = true) as ->.
    { apply orb_true_iff. rewrite !bool_decide_eq_true.
      destruct H; [by left|by right]. }
    eexists. split; [done|]. split; [intros Heq'; by destruct Heq|done].
Qed.

(** ** The walk that meets an error *)

Import WalkEnd.

(** On every tree the walk rewrites the source files up to its end, one
    after the other, and ends with the error it has met, if any. *)
Lemma walk_walked (old new : str) (n : node) :
  ∀ (path : str) (w : World),
  ∃ err,
    walk (updateImportPaths_visit old new) path n w
    = Some (foldl (rewrite_file old new) w (walked path n).1, err)
    ∧ match (walked path n).2 with
      | Some e => err = Other e
      | None =>
          err = Nil ∨ (err = SkipDir ∧ ∃ r entries, n = Directory r entries)
      end.
Proof.
  induction n as [|e|r entries IH] using node_ind'; intros path w.
  - cbn [walk walked].
    destruct (HasSuffix path (lit ".go")) eqn:Hgo; cbn [fst snd].
    + exists Nil. rewrite updateImportPaths_visit_file by done.
      split; [done|by left].
    + exists Nil. split; [|by left].
      unfold updateImportPaths_visit. cbn [mbind option_bind].
      by rewrite Hgo.
  - by exists (Other e).
  - destruct r as [e|]; [by exists (Other e)|].
    cbn [walk walked]. rewrite updateImportPaths_visit_dir.
    cbn [mbind option_bind].
    destruct (skipped_dir path) eqn:Hskip.
    { exists SkipDir. split; [done|]. right. eauto. }
    generalize (Directory None entries). intros n0. revert w.
    induction IH as [|[name child] rest Hchild _ IHrest]; intros w.
    { exists Nil. split; [done|by left]. }
    cbn [snd] in Hchild.
    destruct (Hchild (FilePath.Join path name) w) as (err & Hwalk & Herr).
    rewrite Hwalk. cbn [mbind option_bind].
    destruct (walked (FilePath.Join path name) child).2 as [e|] eqn:Hend.
    + subst err. exists (Other e). by rewrite Hend.
    + cbn [fst snd]. rewrite foldl_app.
      destruct Herr as [->|[-> (r' & entries' & ->)]]; apply IHrest.
Qed.

(** With identities it accepts, [updateImportPaths] returns the error of
    the walk, if there is one, with the files rewritten that the walk has
    reached before. *)
Lemma updateImportPaths_walked (w : World) (root : str) (tree : node)
    (old new : str) :
  old ≠ [] → new ≠ [] → old ≠ new →
  updateImportPaths w root tree old new
  = Some (foldl (rewrite_file old new) w (walked root tree).1,
          (λ e, lit "error walking project directory: " ++ e)
          <$> (walked root tree).2).
Proof.
  intros Ho Hn Hne. unfold updateImportPaths, Walk.
  rewrite !bool_decide_eq_false_2 by done. cbn [orb].
  destruct (walk_walked old new tree root w) as (err & -> & Herr).
  cbn [mbind option_bind].
  destruct (walked root tree).2 as [e|]; [by subst err|].
  by destruct Herr as [->|[-> _]].
Qed.

(** The files rewritten before the end of the walk are the first of the
    source files; they are all of them exactly when the tree can be
    walked, and otherwise the walk ends with an error. *)
Lemma walked_source_files (n : node) :
  ∀ path : str,
  ∃ later,
    source_files path n = (walked path n).1 ++ later
    ∧ if walkable path n
      then (walked path n).2 = None ∧ later = []
      else ∃ e, (walked path n).2 = Some e.
Proof.
  induction n as [|e|r entries IH] using node_ind'; intros path.
  - exists []. cbn [source_files walked walkable fst snd].
    by rewrite app_nil_r.
  - exists []. cbn [source_files walked walkable fst snd]. eauto.
  - destruct r as [e|].
    { eexists. cbn [walked walkable fst snd app]. split; [done|].
      rewrite bool_decide_eq_false_2 by done. cbn [andb]. eauto. }
    cbn [source_files walked walkable].
    rewrite bool_decide_eq_true_2 by done. cbn [andb].
    destruct (skipped_dir path) eqn:Hskip; [by exists []|]. cbn [orb].
    induction IH as [|[name child] rest Hchild _ IHrest]; [by exists []|].
    cbn [snd] in Hchild.
    destruct (Hchild (FilePath.Join path name)) as (later1 & -> & Hfirst).
    destruct IHrest as (later & -> & Hrest).
    destruct (walkable (FilePath.Join path name) child).
    + destruct Hfirst as [-> ->]. exists later. cbn [fst snd andb].
      split; [|done]. by rewrite app_nil_r, app_assoc.
    + destruct Hfirst as [e He]. rewrite He. eexists. cbn [andb].
      rewrite ?He. split; [by rewrite <- app_assoc|eauto].
Qed.

Lemma foldl_rewrite_file_other (old new : str) (paths : list str) (p : str) :
  ∀ w : World,
  p ∉ paths →
  files (foldl (rewrite_file old new) w paths) !! p = files w !! p.
Proof.
  induction paths as [|p0 rest IH]; intros w Hp; [done|].
  apply not_elem_of_cons in Hp as [Hne Hp]. cbn [foldl].
  rewrite IH by done. by apply rewrite_file_other.
Qed.

(** C4.  With identities that [updateImportPaths] accepts, a failure at
    one file is set apart when it is a failure of the rewrite of the
    file, and not when it is a failure of the walk.

    On a tree that can be walked and in which the rewrite of exactly one
    source file [bad] fails, on reading or on writing,
    [updateImportPaths] returns [nil], prints one warning, for [bad], and
    leaves every other source file rewritten; [bad] and the files that
    are no source files of the tree stay as they are.

    On a tree that cannot be walked, because the [Lstat] of a name that
    the walk reaches fails, be it that of a source file, or because a
    directory that it reaches cannot be listed, [updateImportPaths]
    returns the error of the walk after [error walking project
    directory: ]; the source files that the walk has reached before are
    rewritten as they would be otherwise, and the source files after them
    stay as they are. *)
Theorem C4_one_failing_file_is_isolated
    (w : World) (projectPath : str) (tree : node) (old new : str) :
  old ≠ [] → new ≠ [] → old ≠ new →
  NoDup (source_files projectPath tree) →
  (walkable projectPath tree = true →
   ∀ (bad : str) (e : error),
     bad ∈ source_files projectPath tree →
     file_failure w old new bad = Some e →
     (∀ p, p ∈ source_files projectPath tree → p ≠ bad →
           file_failure w old new p = None) →
     ∃ w',
       updateImportPaths w projectPath tree old new = Some (w', None)
       ∧ stdout w' = stdout w ++ [warning bad e]
       ∧ (∀ p, p ∈ source_files projectPath tree → p ≠ bad →
               files w' !! p = rewritten old new <$> files w !! p)
       ∧ files w' !! bad = files w !! bad
       ∧ (∀ p, p ∉ source_files projectPath tree →
               files w' !! p = files w !! p))
  ∧ (walkable projectPath tree = false →
     ∃ (e : error) (later : list str) (w' : World),
       (walked projectPath tree).2 = Some e
       ∧ source_files projectPath tree
         = (walked projectPath tree).1 ++ later
       ∧ updateImportPaths w projectPath tree old new
         = Some (w', Some (lit "error walking project directory: " ++ e))
       ∧ w' = foldl (rewrite_file old new) w (walked projectPath tree).1
       ∧ (∀ p, p ∈ later ∨ p ∉ source_files projectPath tree →
               files w' !! p = files w !! p)).
Proof.
  intros Ho Hn Hne Hnd. split.
  - intros Hwalk bad e Hbad He Hgood.
    exists (foldl (rewrite_file old new) w (source_files projectPath tree)).
    destruct (foldl_rewrite_file old new (source_files projectPath tree) w
                Hnd) as (Hout & Hin & Hstd).
    split; [by apply updateImportPaths_walkable|].
    split; [|split; [|split]].
    + rewrite Hstd. f_equal.
      rewrite (flat_map_single _ _ bad); [|done| |done].
      * unfold warnings_of. by rewrite He.
      * intros p Hp Hpb. unfold warnings_of. by rewrite Hgood.
    + intros p Hp Hpb. by rewrite Hin, Hgood.
    + by rewrite Hin, He.
    + done.
  - intros Hwalk.
    destruct (walked_source_files tree projectPath) as (later & Hsrc & Hend).
    rewrite Hwalk in Hend. destruct Hend as [e He].
    exists e, later, (foldl (rewrite_file old new) w (walked projectPath tree).1).
    split; [done|]. split; [done|].
    split; [by rewrite updateImportPaths_walked, He|].
    split; [done|].
    intros p Hp. apply foldl_rewrite_file_other.
    rewrite Hsrc in Hnd, Hp. apply NoDup_app in Hnd as (_ & Hdisj & _).
    intros Hin. destruct Hp as [Hp|Hp].
    + by apply (Hdisj p).
    + apply Hp, elem_of_app. by left.
Qed.

(** ** The rewrite of a file: what the specification states *)

Lemma rewrite_value_exact (old new : str) : rewrite_value old new old = new.
Proof.
  unfold rewrite_value, refers_to. rewrite bool_decide_eq_true_2 by done.
  cbn [orb]. by rewrite drop_all, app_nil_r.
Qed.

Lemma rewrite_value_below (old new r : str) :
  rewrite_value old new (old ++ lit "/" ++ r) = new ++ lit "/" ++ r.
Proof.
  unfold rewrite_value.
  assert (refers_to old (old ++ lit "/" ++ r) = true) as ->.
  { unfold refers_to. apply orb_true_iff. right. apply bool_decide_eq_true.
    rewrite app_assoc.
    replace (length old + 1)%nat with (length (old ++ lit "/"))
      by (by rewrite length_app).
    by rewrite take_app_length. }
  by rewrite drop_app_length.
Qed.

Lemma rewrite_value_other (old new v : str) :
  v ≠ old → (∀ r, v ≠ old ++ lit "/" ++ r) → rewrite_value old new v = v.
Proof.
  intros Hne Hsub. unfold rewrite_value.
  destruct (refers_to old v) eqn:Hr; [|done]. exfalso.
  unfold refers_to in Hr. apply orb_true_iff in Hr.
  rewrite !bool_decide_eq_true in Hr. destruct Hr as [Hr|Hr]; [done|].
  apply (Hsub (drop (length old + 1) v)).
  rewrite app_assoc, <- Hr. symmetry. apply take_drop.
Qed.

(** C1.  For identities that are not empty and differ,
    [replaceImportPaths] returns, and returns the content rewritten as
    follows and not changed otherwise.  The lines, joined by newlines, are
    the content.  A line is rewritten when it is a candidate: its trimmed
    form begins with [import ], or the cursor is inside a block, which it
    enters at a line whose trimmed form is [import (] and leaves at one
    whose trimmed form is [)].  On a candidate line the quoted values are
    found by pairing the quotes from left to right: the text before the
    first quote is kept, the value up to the next quote is rewritten, and
    the scan goes on after that quote, so that every quoted value of the
    line is reached; text after a quote without a partner is kept.  A
    quoted value that is the old identity, or begins with it and a [/],
    has that prefix replaced by the new identity; any other value is kept
    as it is. *)
Theorem C1_replaceImportPaths_rewrites_import_paths
    (content oldIdentity newIdentity : str) :
  oldIdentity ≠ [] → newIdentity ≠ [] → oldIdentity ≠ newIdentity →
  replaceImportPaths content oldIdentity newIdentity
  = Some (GoStrings.Join
            (rewrite_lines oldIdentity newIdentity (splitLines content))
            [newline])
  ∧ GoStrings.Join (splitLines content) [newline] = content
  ∧ (∀ i line,
       splitLines content !! i = Some line →
       rewrite_lines oldIdentity newIdentity (splitLines content) !! i
       = Some (if is_single_import line
                  || inside_block (take i (splitLines content))
               then rewrite_line oldIdentity newIdentity line
               else line))
  ∧ inside_block [] = false
  ∧ (∀ before l,
       inside_block (before ++ [l])
       = if is_opener l then true
         else if is_closer l then false else inside_block before)
  ∧ (∀ s, dquote ∉ s → rewrite_line oldIdentity newIdentity s = s)
  ∧ (∀ a b, dquote ∉ a → dquote ∉ b →
       rewrite_line oldIdentity newIdentity (a ++ dquote :: b)
       = a ++ dquote :: b)
  ∧ (∀ a v r, dquote ∉ a → dquote ∉ v →
       rewrite_line oldIdentity newIdentity (a ++ dquote :: v ++ dquote :: r)
       = a ++ dquote :: rewrite_value oldIdentity newIdentity v
         ++ dquote :: rewrite_line oldIdentity newIdentity r)
  ∧ rewrite_value oldIdentity newIdentity oldIdentity = newIdentity
  ∧ (∀ r, rewrite_value oldIdentity newIdentity (oldIdentity ++ lit "/" ++ r)
          = newIdentity ++ lit "/" ++ r)
  ∧ (∀ v, v ≠ oldIdentity → (∀ r, v ≠ oldIdentity ++ lit "/" ++ r) →
          rewrite_value oldIdentity newIdentity v = v).
Proof.
  intros _ _ _. split; [apply replaceImportPaths_spec|].
  split; [apply Join_split_on|].
  split; [intros i line; apply rewrite_lines_lookup|].
  split; [done|].
  split; [apply inside_block_snoc|].
  split; [apply rewrite_line_plain|].
  split; [apply rewrite_line_unpaired|].
  split; [apply rewrite_line_pair|].
  split; [apply rewrite_value_exact|].
  split; [apply rewrite_value_below|apply rewrite_value_other].
Qed.

(** ** The cache: what the specification states *)

Import Cache.

(** Against the time to live, a saturated difference of times compares
    as the difference itself. *)
Lemma Since_lt_CacheTTL (now t : Z) :
  Since now t < CacheTTL ↔ now < t + CacheTTL.
Proof.
  unfold Since, Sub, CacheTTL, Hour, minDuration, maxDuration.
  destruct (Z.ltb_spec (now - t) (- 2 ^ 63));
    [|destruct (Z.ltb_spec (2 ^ 63 - 1) (now - t))]; lia.
Qed.

Lemma IsCached_true (m : Cache.Manager) (w : Cache.World) (now : Z)
    (key : str) :
  (Cache.IsCached m w now key).2 = true
  ↔ ∃ info,
      (loadMetadata m w).2 = None
      ∧ lookup_template (loadMetadata m w).1 key = Some info
      ∧ now - CachedAt info < CacheTTL.
Proof.
  unfold Cache.IsCached. destruct (loadMetadata m w) as [m' [err|]]; cbn [fst snd].
  { split; [done|]. by intros (info & ? & _). }
  destruct (lookup_template m' key) as [info|]; cbn [snd].
  - rewrite bool_decide_eq_true, Since_lt_CacheTTL. split.
    + intros H. exists info. split; [done|]. split; [done|]. lia.
    + intros (info' & _ & [= <-] & H). lia.
  - split; [done|]. by intros (info & _ & ? & _).
Qed.

(** After a successful [UpdateCacheTime] the document has the entry of
    the key, with the first reading of the clock. *)
Lemma UpdateCacheTime_success (m m' : Cache.Manager) (w w' : Cache.World)
    (now1 now2 : Z) (key : str) :
  UpdateCacheTime m w now1 now2 key = Some (m', w', None) →
  ∃ entries info,
    metadata_file w' = Parsed (Object entries)
    ∧ entries !! key = Some info
    ∧ CachedAt info = now1.
Proof.
  unfold UpdateCacheTime.
  destruct (loadMetadata m w) as [m1 [err|]]; [done|].
  destruct (Templates m1) as [entries|]; [|done]. cbn [mbind option_bind].
  unfold saveMetadata. cbn [Templates marshal].
  destruct (metadata_write_error w); [done|]. intros [= <- <-].
  eexists _, _. cbn [metadata_file]. split; [done|].
  rewrite lookup_insert_eq. done.
Qed.

(** C2.  [IsCached] is true exactly when the metadata loads and holds an
    entry for the key with [now - cachedAt < 24h]; for a manager as
    [NewManager] makes it, the entry is that of the metadata document.
    After [UpdateCacheTime] has touched the key at time [T], and has
    written metadata whose strings are valid UTF-8, which the document
    keeps as they are, a query is answered fresh exactly when its time is
    before [T + 24h]: fresh at [T + 23h59m59s], stale at [T + 24h]. *)
Theorem C2_IsCached_within_ttl (m : Cache.Manager) (w : Cache.World)
    (key : str) :
  (∀ now,
     (Cache.IsCached m w now key).2 = true
     ↔ ∃ info,
         (loadMetadata m w).2 = None
         ∧ lookup_template (loadMetadata m w).1 key = Some info
         ∧ now - CachedAt info < CacheTTL)
  ∧ (∀ now userCacheDir,
       (Cache.IsCached (Cache.NewManager userCacheDir) w now key).2 = true
       ↔ ∃ info,
           document_entries (metadata_file w) !! key = Some info
           ∧ now - CachedAt info < CacheTTL)
  ∧ (∀ T T' m' w',
       UpdateCacheTime m w T T' key = Some (m', w', None) →
       Utf8.valid_metadata m' = true →
       ∀ (reader : Cache.Manager) (now : Z),
         ((Cache.IsCached reader w' now key).2 = true ↔ now < T + 24 * Hour)
         ∧ (Cache.IsCached reader w' (T + 24 * Hour - 1000000000) key).2
           = true
         ∧ (Cache.IsCached reader w' (T + 24 * Hour) key).2 = false).
Proof.
  split; [intros now; apply IsCached_true|]. split.
  - intros now dir. rewrite IsCached_true.
    unfold loadMetadata, Cache.NewManager, lookup_template.
    destruct (metadata_file w) as [|e|e p|[| |entries]];
      cbn [fst snd Templates default document_entries].
    + split; intros (info & H); [by destruct H as (_ & ? & _)|by destruct H].
    + split; intros (info & H); [by destruct H as (? & _)|by destruct H].
    + split; intros (info & H); [by destruct H as (? & _)|by destruct H].
    + split; intros (info & H); [by destruct H as (_ & ? & _)|by destruct H].
    + split; intros (info & H); [by destruct H as (_ & ? & _)|by destruct H].
    + unfold unmarshal_templates, default. cbn [from_option id].
      rewrite (right_id_L ∅ (∪)).
      split; intros (info & H); exists info; tauto.
  - intros T T' m' w' Hupd _ reader.
    apply UpdateCacheTime_success in Hupd as (entries & info & Hdoc & Hk & Ht).
    assert (∀ now, (Cache.IsCached reader w' now key).2 = true
                   ↔ now < T + 24 * Hour) as Hiff.
    { intros now. rewrite IsCached_true.
      unfold loadMetadata, lookup_template. rewrite Hdoc.
      cbn [fst snd Templates]. unfold unmarshal_templates, default.
      cbn [from_option id].
      rewrite (lookup_union_l' _ _ _ (mk_is_Some _ _ Hk)), Hk.
      unfold CacheTTL. split.
      - intros (info' & _ & [= <-] & H). lia.
      - intros H. exists info. split; [done|]. split; [done|]. lia. }
    intros now. split; [apply Hiff|]. split.
    + apply Hiff. lia.
    + apply not_true_is_false. rewrite Hiff. lia.
Qed.


(** ** The template manager: what the specification states *)

Import Template.

Lemma TrimPrefix_app (p r : str) : TrimPrefix (p ++ r) p = r.
Proof. unfold TrimPrefix. by rewrite HasPrefix_app, drop_app_length. Qed.

Lemma TrimPrefix_none (s p : str) :
  HasPrefix s p = false → TrimPrefix s p = s.
Proof. unfold TrimPrefix. by intros ->. Qed.

(** C9, as the code has it.  Without a credential the URL is returned as
    it is.  With one, the result is [https://<credential>@] followed by
    the URL without its leading [https://] or [http://]: an https URL
    keeps its scheme, host and path and gets the credential into its
    authority, as the specification words it, while an http URL gets the
    scheme https. *)
Theorem C9_buildAuthenticatedURL_puts_https (repoURL token : str) :
  (token = [] → buildAuthenticatedURL repoURL token = repoURL)
  ∧ (token ≠ [] →
     buildAuthenticatedURL repoURL token
     = lit "https://" ++ token ++ lit "@"
       ++ TrimPrefix (TrimPrefix repoURL (lit "https://")) (lit "http://"))
  ∧ (token ≠ [] → ∀ hostpath,
     repoURL = lit "https://" ++ hostpath →
     HasPrefix hostpath (lit "http://") = false →
     buildAuthenticatedURL repoURL token
     = lit "https://" ++ token ++ lit "@" ++ hostpath
     ∧ inject_credential repoURL token
       = Some (buildAuthenticatedURL repoURL token))
  ∧ (token ≠ [] → ∀ hostpath,
     repoURL = lit "http://" ++ hostpath →
     buildAuthenticatedURL repoURL token
     = lit "https://" ++ token ++ lit "@" ++ hostpath).
Proof.
  unfold buildAuthenticatedURL.
  split; [intros ->; by rewrite bool_decide_eq_true_2|].
  split; [intros H; by rewrite bool_decide_eq_false_2|].
  split.
  - intros H hostpath -> Hh. rewrite bool_decide_eq_false_2 by done.
    rewrite TrimPrefix_app, (TrimPrefix_none _ _ Hh).
    split; [done|]. unfold inject_credential, Index.
    cbn [lit list_ascii_of_string app index_from].
    rewrite !HasPrefix_take. cbn [lit list_ascii_of_string length take].
    rewrite !bool_decide_eq_false_2 by done.
    rewrite bool_decide_eq_true_2 by done. done.
  - intros H hostpath ->. rewrite bool_decide_eq_false_2 by done.
    rewrite (TrimPrefix_none (lit "http://" ++ hostpath) (lit "https://")).
    + by rewrite TrimPrefix_app.
    + rewrite HasPrefix_take.
      cbn [lit list_ascii_of_string length take app].
      by rewrite bool_decide_eq_false_2.
Qed.

Section Fetch.
Variables (m : Template.Manager) (w : Cache.World).
Variables (now now1 now2 : Z) (archType token : str).
Variable template : Template.
Hypothesis Hregistered : GetTemplate m archType = inl template.

Let cachePath := GetTemplateCachePath (cacheManager m) archType.
Let parentDir := FilePath.Dir cachePath.
Let gitDir := FilePath.Join cachePath (lit ".git").
Let argv :=
  git_clone template (buildAuthenticatedURL (Repository template) token)
    cachePath.
Let m0 := (Template.IsCached m w now archType).1.
Let cached := (Template.IsCached m w now archType).2.
Let removal : list event :=
  if bool_decide (cachePath ∈ existing w) then [EvRemoveAll cachePath]
  else [].
Let result := EnsureTemplateCached m w now now1 now2 archType token.

(** C3.  For a registered template: when [IsCached] holds,
    [EnsureTemplateCached] returns [nil] and the world is as it was, with
    no effect made.  Otherwise it fetches.  When the cache directory
    exists it is removed first, and an error of the removal is returned.
    Then the parent directory is made and [git clone --depth 1] is run;
    when either fails the error is returned and the metadata file is
    as it was, with no write made.  Only when the clone has succeeded
    is [UpdateCacheTime] called, after the [.git] directory has been
    removed. *)
Theorem C3_EnsureTemplateCached_fetches_when_stale :
  (cached = true → result = Some (m0, w, None))
  ∧ (cached = false → cachePath ∈ existing w →
     ∀ e, remove_error w cachePath = Some e →
     result
     = Some (m0, after w [EvRemoveAll cachePath] (existing w),
             Some (lit "failed to remove old cache: " ++ e)))
  ∧ (cached = false →
     (cachePath ∈ existing w → remove_error w cachePath = None) →
     let paths := existing w ∖ {[cachePath]} in
     (∀ e, mkdir_error w parentDir = Some e →
        result
        = Some (m0, after w (removal ++ [EvMkdirAll parentDir]) paths,
                Some (lit "failed to create cache directory: " ++ e)))
     ∧ (∀ e, mkdir_error w parentDir = None →
        run_error w argv = Some e →
        result
        = Some (m0,
                after w (removal ++ [EvMkdirAll parentDir; EvRun argv])
                  (paths ∪ {[parentDir]}),
                Some (lit "failed to clone repository: " ++ e)))
     ∧ (mkdir_error w parentDir = None →
        run_error w argv = None →
        ∃ w2 printed,
          events w2
          = events w ++ removal
            ++ [EvMkdirAll parentDir; EvRun argv; EvRemoveAll gitDir]
            ++ printed
          ∧ Forall (λ ev, ∃ msg, ev = EvPrint msg) printed
          ∧ metadata_file w2 = metadata_file w
          ∧ metadata_write_error w2 = metadata_write_error w
          ∧ result
            = '(c, w3, err) ← UpdateCacheTime (cacheManager m0) w2
                                now1 now2 archType;
              Some (with_cache m0 c, w3, err))).
Proof.
  subst result m0 cached. unfold EnsureTemplateCached.
  destruct (Template.IsCached m w now archType) as [m1 c] eqn:Hc.
  cbn [fst snd].
  assert (GetTemplate m1 archType = inl template) as Hreg1.
  { unfold Template.IsCached in Hc.
    destruct (Cache.IsCached (cacheManager m) w now archType).
    injection Hc as <- <-. done. }
  assert (GetTemplateCachePath (cacheManager m1) archType = cachePath)
    as Hpath.
  { unfold Template.IsCached in Hc. subst cachePath.
    unfold Cache.IsCached, loadMetadata in Hc.
    destruct (metadata_file w) as [|?|? ?|?];
      repeat (first [ injection Hc as <- <- | done
                    | destruct (lookup_template _ _) in Hc ]). }
  split; [by intros ->|].
  split.
  - intros -> Hex e Hrm. unfold UpdateTemplate.
    rewrite Hreg1, Hpath. rewrite bool_decide_eq_true_2 by done.
    unfold pullTemplate, RemoveAll, log. cbn [remove_error].
    by rewrite Hrm.
  - intros -> Hrm. set (paths := existing w ∖ {[cachePath]}).
    assert ((if bool_decide (cachePath ∈ existing w)
               then
                 match RemoveAll w cachePath with
                 | (w', Some err) =>
                     (w', Some (lit "failed to remove old cache: " ++ err))
                 | (w', None) => cloneTemplate w' template cachePath token
                 end
               else cloneTemplate w template cachePath token)
              = cloneTemplate (after w removal paths) template cachePath
                  token) as Hfetch.
    { subst removal paths. case_bool_decide as Hex.
      - unfold RemoveAll, log. cbn [remove_error]. by rewrite Hrm.
      - unfold after. rewrite app_nil_r.
        replace (existing w ∖ {[cachePath]}) with (existing w)
          by (symmetry; by apply difference_disjoint_L, disjoint_singleton_r).
        by destruct w. }
    unfold UpdateTemplate. rewrite Hreg1, Hpath.
    unfold pullTemplate. rewrite Hfetch. clear Hfetch.
    unfold cloneTemplate, MkdirAll, log, after.
    cbn [mkdir_error existing events metadata_file metadata_write_error
         remove_error run_error set_existing].
    fold parentDir.
    split; [|split].
    + intros e ->. by rewrite <- app_assoc.
    + intros e -> Hrun. unfold Run_clone, log, set_existing.
      cbn [mkdir_error existing events metadata_file metadata_write_error
           remove_error run_error].
      fold argv. rewrite Hrun. by rewrite <- !app_assoc.
    + intros -> Hrun. unfold Run_clone, log, set_existing.
      cbn [mkdir_error existing events metadata_file metadata_write_error
           remove_error run_error].
      fold argv. rewrite Hrun. unfold RemoveAll, log, set_existing.
      cbn [mkdir_error existing events metadata_file metadata_write_error
           remove_error run_error].
      fold gitDir.
      destruct (remove_error w gitDir) as [e|].
      * eexists _, [EvPrint _].
        split; [|split; [|split; [|split; [|reflexivity]]]];
          cbn [events metadata_file metadata_write_error]; try done.
        -- by rewrite <- !app_assoc.
        -- repeat constructor. eauto.
      * eexists _, [].
        split; [|split; [|split; [|split; [|reflexivity]]]];
          cbn [events metadata_file metadata_write_error]; try done.
        by rewrite <- !app_assoc.
Qed.

End Fetch.

(** ** The properties at the scenarios *)

Ltac by_computation := apply (bool_decide_unpack _); vm_compute; exact I.

Lemma C1_scenario :
  Scenario.oldIdentity ≠ []
  ∧ Scenario.newIdentity ≠ []
  ∧ Scenario.oldIdentity ≠ Scenario.newIdentity
  ∧ GoStrings.Join
      (rewrite_lines Scenario.oldIdentity Scenario.newIdentity
         (splitLines Scenario.source)) [newline]
    = Scenario.source_rewritten
  ∧ replaceImportPaths Scenario.source Scenario.oldIdentity
      Scenario.newIdentity
    = Some (GoStrings.Join
              (rewrite_lines Scenario.oldIdentity Scenario.newIdentity
                 (splitLines Scenario.source)) [newline]).
Proof.
  split; [by_computation|]. split; [by_computation|].
  split; [by_computation|]. split; [by vm_compute|].
  apply (C1_replaceImportPaths_rewrites_import_paths Scenario.source
           Scenario.oldIdentity Scenario.newIdentity); by_computation.
Defined.

Lemma C5_scenario :
  let w := Scenario.project Scenario.manifest in
  let f := File Scenario.manifest None None in
  FilePath.IsAbs Scenario.goModPath = true
  ∧ files w !! Scenario.goModPath = Some f
  ∧ read_error f = None
  ∧ write_error f = None
  ∧ Exists (λ x, declares_module x = true) (splitLines (data f))
  ∧ Scenario.newIdentity ≠ []
  ∧ whitespace_free Scenario.newIdentity = true
  ∧ ∃ w' w'',
      updateGoModule w Scenario.goModPath Scenario.newIdentity = (w', None)
      ∧ extractOriginalModulePath w' Scenario.goModPath
        = (w'', inl Scenario.newIdentity).
Proof.
  intros w f. repeat (split; [first [by vm_compute | by_computation]|]).
  apply (C5_extract_after_update w Scenario.goModPath f);
    first [by vm_compute | by_computation].
Defined.

Lemma C8_scenario :
  let w := Scenario.project Scenario.manifest in
  let f := File Scenario.manifest None None in
  let before : list str := [] in
  let l := lit "module github.com/test/example" in
  let after :=
    [[]; lit "go 1.21"; []; lit "require (";
     Scenario.tab ++ lit "github.com/stretchr/testify v1.8.0"; lit ")"; []] in
  FilePath.IsAbs Scenario.goModPath = true
  ∧ files w !! Scenario.goModPath = Some f
  ∧ read_error f = None
  ∧ write_error f = None
  ∧ splitLines (data f) = before ++ l :: after
  ∧ Forall (λ x, declares_module x = false) before
  ∧ declares_module l = true
  ∧ ∃ w',
      updateGoModule w Scenario.goModPath Scenario.newIdentity = (w', None)
      ∧ files w'
        = <[Scenario.goModPath :=
              File (GoStrings.Join
                      (before ++ (lit "module " ++ Scenario.newIdentity)
                              :: after) [newline]) None None]> (files w)
      ∧ stdout w' = stdout w
      ∧ (newline ∉ Scenario.newIdentity →
         splitLines
           (GoStrings.Join
              (before ++ (lit "module " ++ Scenario.newIdentity) :: after)
              [newline])
         = before ++ (lit "module " ++ Scenario.newIdentity) :: after).
Proof.
  intros w f before l after.
  repeat (split; [first [by vm_compute | by_computation]|]).
  apply (C8_updateGoModule_first_line_only w Scenario.goModPath f)
    with (l := l);
    first [by vm_compute | by_computation].
Defined.

Lemma C10_scenario :
  let w := Scenario.project Scenario.manifest_bare in
  let f := File Scenario.manifest_bare None None in
  FilePath.IsAbs Scenario.goModPath = true
  ∧ files w !! Scenario.goModPath = Some f
  ∧ read_error f = None
  ∧ write_error f = None
  ∧ Forall (λ x, declares_module x = false) (splitLines (data f))
  ∧ ∃ w' w'',
      updateGoModule w Scenario.goModPath Scenario.newIdentity = (w', None)
      ∧ calls w'
        = calls w ++ [CallStat Scenario.goModPath;
                      CallReadFile Scenario.goModPath;
                      CallWriteFile Scenario.goModPath (data f)]
      ∧ files w' = files w
      ∧ stdout w' = stdout w
      ∧ extractOriginalModulePath w Scenario.goModPath
        = (w'', inr (lit "no module declaration found in go.mod")).
Proof.
  intros w f. repeat (split; [first [by vm_compute | by_computation]|]).
  apply (C10_update_without_declaration w Scenario.goModPath f);
    first [by vm_compute | by_computation].
Defined.

Lemma C6_scenario :
  let w := Scenario.project Scenario.manifest in
  (Scenario.oldIdentity = Scenario.oldIdentity
   ∨ Scenario.oldIdentity = [] ∨ Scenario.oldIdentity = [])
  ∧ ∃ msg,
      updateImportPaths w Scenario.projectPath Scenario.tree
        Scenario.oldIdentity Scenario.oldIdentity
      = Some (w, Some msg)
      ∧ (Scenario.oldIdentity = Scenario.oldIdentity →
         msg = lit "oldModule and newModule are the same: "
               ++ Scenario.oldIdentity)
      ∧ (Scenario.oldIdentity ≠ Scenario.oldIdentity →
         msg = lit "oldModule and newModule must not be empty (old: '"
               ++ Scenario.oldIdentity ++ lit "', new: '"
               ++ Scenario.oldIdentity ++ lit "')").
Proof.
  intros w. split; [by left|].
  apply (C6_updateImportPaths_rejects_identities w Scenario.projectPath
           Scenario.tree Scenario.oldIdentity Scenario.oldIdentity).
  by left.
Defined.

Lemma C4_scenario :
  let w := Scenario.project Scenario.manifest in
  let old := Scenario.oldIdentity in
  let new := Scenario.newIdentity in
  let sources := source_files Scenario.projectPath Scenario.tree in
  let e := lit "failed to read file: permission denied" in
  old ≠ [] ∧ new ≠ [] ∧ old ≠ new
  ∧ NoDup sources
  ∧ walkable Scenario.projectPath Scenario.tree = true
  ∧ Scenario.unreadable ∈ sources
  ∧ file_failure w old new Scenario.unreadable = Some e
  ∧ (∀ p, p ∈ sources → p ≠ Scenario.unreadable →
          file_failure w old new p = None)
  ∧ ∃ w',
      updateImportPaths w Scenario.projectPath Scenario.tree old new
      = Some (w', None)
      ∧ stdout w' = stdout w ++ [warning Scenario.unreadable e]
      ∧ (∀ p, p ∈ sources → p ≠ Scenario.unreadable →
              files w' !! p = rewritten old new <$> files w !! p)
      ∧ files w' !! Scenario.unreadable = files w !! Scenario.unreadable
      ∧ (∀ p, p ∉ sources → files w' !! p = files w !! p)
      ∧ let w2 := Cases.project_with_gone_file in
        let tree2 := Cases.tree_with_gone_file in
        NoDup (source_files Scenario.projectPath tree2)
        ∧ walkable Scenario.projectPath tree2 = false
        ∧ ∃ (e2 : error) (later : list str) (w2' : FS.World),
            (walked Scenario.projectPath tree2).2 = Some e2
            ∧ source_files Scenario.projectPath tree2
              = (walked Scenario.projectPath tree2).1 ++ later
            ∧ updateImportPaths w2 Scenario.projectPath tree2 old new
              = Some (w2', Some (lit "error walking project directory: "
                                 ++ e2))
            ∧ w2' = foldl (rewrite_file old new) w2
                      (walked Scenario.projectPath tree2).1
            ∧ (∀ p, p ∈ later
                    ∨ p ∉ source_files Scenario.projectPath tree2 →
                    files w2' !! p = files w2 !! p).
Proof.
  intros w old new sources e.
  assert (∀ p, p ∈ sources → p ≠ Scenario.unreadable →
               file_failure w old new p = None) as Hgood.
  { refine (proj1 (Forall_forall
                     (λ p, p ≠ Scenario.unreadable →
                           file_failure w old new p = None) sources) _).
    by_computation. }
  assert (old ≠ []) as Ho by by vm_compute.
  assert (new ≠ []) as Hn by by vm_compute.
  assert (old ≠ new) as Hne by by vm_compute.
  assert (NoDup sources) as Hnd by by_computation.
  assert (walkable Scenario.projectPath Scenario.tree = true) as Hwalk
    by by vm_compute.
  assert (Scenario.unreadable ∈ sources) as Hbad by by_computation.
  assert (file_failure w old new Scenario.unreadable = Some e) as He
    by by vm_compute.
  do 7 (split; [done|]). split; [exact Hgood|].
  destruct (proj1 (C4_one_failing_file_is_isolated w Scenario.projectPath
                     Scenario.tree old new Ho Hn Hne Hnd)
              Hwalk Scenario.unreadable e Hbad He Hgood)
    as (w' & Hrun & Hout & Hothers & Hsame & Hrest).
  exists w'. do 4 (split; [done|]). split; [exact Hrest|].
  intros w2 tree2.
  assert (NoDup (source_files Scenario.projectPath tree2)) as Hnd2
    by by_computation.
  assert (walkable Scenario.projectPath tree2 = false) as Hwalk2
    by by vm_compute.
  do 2 (split; [done|]).
  exact (proj2 (C4_one_failing_file_is_isolated w2 Scenario.projectPath
                  tree2 old new Ho Hn Hne Hnd2) Hwalk2).
Defined.

(** C4, as the specification has it, fails: a source file whose [Lstat]
    fails is a file that cannot be read, and the only one here, yet the
    walk ends at it.  [updateImportPaths] returns an error, and not
    [nil]; the source file that comes after it in the walk, which can be
    read and written and imports the old identity, is not rewritten, and
    no warning is printed. *)
Lemma C4_failing_lstat_ends_the_walk :
  let w := Cases.project_with_gone_file in
  let old := Scenario.oldIdentity in
  let new := Scenario.newIdentity in
  let tree := Cases.tree_with_gone_file in
  source_files Scenario.projectPath tree = [Cases.otherPath]
  ∧ walkable Scenario.projectPath tree = false
  ∧ file_failure w old new Cases.otherPath = None
  ∧ files w !! Cases.otherPath = Some (File Scenario.source None None)
  ∧ rewritten old new (File Scenario.source None None)
    = File Scenario.source_rewritten None None
  ∧ updateImportPaths w Scenario.projectPath tree old new
    = Some (w, Some (lit "error walking project directory: "
                     ++ Cases.lstat_error))
  ∧ ¬ (∃ w', updateImportPaths w Scenario.projectPath tree old new
             = Some (w', None)).
Proof.
  intros w old new tree.
  assert (updateImportPaths w Scenario.projectPath tree old new
          = Some (w, Some (lit "error walking project directory: "
                           ++ Cases.lstat_error))) as Hrun
    by by vm_compute.
  do 5 (split; [by vm_compute|]).
  split; [exact Hrun|]. intros [w' H]. rewrite Hrun in H. discriminate H.
Qed.

Lemma C2_scenario :
  let c := cacheManager Scenario.manager in
  let key := lit "layered" in
  UpdateCacheTime c Scenario.cache Scenario.noon Scenario.noon key
  = Some (Cache.mkManager (cacheDir c)
            (Some {[key := Scenario.touched_info]}),
          Scenario.touched_cache, None)
  ∧ Utf8.valid_metadata
      (Cache.mkManager (cacheDir c) (Some {[key := Scenario.touched_info]}))
    = true
  ∧ ∀ now,
      ((Cache.IsCached c Scenario.touched_cache now key).2 = true
       ↔ now < Scenario.noon + 24 * Hour)
      ∧ (Cache.IsCached c Scenario.touched_cache
           (Scenario.noon + 24 * Hour - 1000000000) key).2 = true
      ∧ (Cache.IsCached c Scenario.touched_cache
           (Scenario.noon + 24 * Hour) key).2 = false.
Proof.
  intros c key.
  assert (UpdateCacheTime c Scenario.cache Scenario.noon Scenario.noon key
          = Some (Cache.mkManager (cacheDir c)
                    (Some {[key := Scenario.touched_info]}),
                  Scenario.touched_cache, None)) as Htouch
    by reflexivity.
  assert (Utf8.valid_metadata
            (Cache.mkManager (cacheDir c)
               (Some {[key := Scenario.touched_info]})) = true) as Hvalid
    by by vm_compute.
  split; [exact Htouch|]. split; [exact Hvalid|].
  exact (proj2 (proj2 (C2_IsCached_within_ttl c Scenario.cache key))
           Scenario.noon Scenario.noon _ _ Htouch Hvalid c).
Defined.



(** C9, as the specification has it, fails: the credential does not go
    into an http URL with the scheme kept, the result has the scheme
    https. *)
Lemma C9_http_scheme_is_not_kept :
  let repoURL := lit "http://example.com/repo.git" in
  let token := lit "secret" in
  token ≠ []
  ∧ inject_credential repoURL token
    = Some (lit "http://secret@example.com/repo.git")
  ∧ buildAuthenticatedURL repoURL token
    = lit "https://secret@example.com/repo.git"
  ∧ Some (buildAuthenticatedURL repoURL token)
    ≠ inject_credential repoURL token.
Proof.
  intros repoURL token. split; [by_computation|].
  split; [by vm_compute|]. split; [by vm_compute|]. by vm_compute.
Qed.

Lemma C9_scenario :
  let repoURL := lit "https://github.com/PickHD/go-layered-template.git" in
  let token := lit "secret" in
  token ≠ []
  ∧ buildAuthenticatedURL repoURL [] = repoURL
  ∧ buildAuthenticatedURL repoURL token
    = lit "https://" ++ token ++ lit "@"
      ++ lit "github.com/PickHD/go-layered-template.git"
  ∧ inject_credential repoURL token
    = Some (buildAuthenticatedURL repoURL token).
Proof.
  intros repoURL token.
  assert (token ≠ []) as Htoken by by_computation.
  split; [exact Htoken|].
  split; [by apply (C9_buildAuthenticatedURL_puts_https repoURL [])|].
  apply (proj1 (proj2 (proj2 (C9_buildAuthenticatedURL_puts_https
                                repoURL token))) Htoken
           (lit "github.com/PickHD/go-layered-template.git"));
    first [by vm_compute | by_computation].
Defined.

Lemma C3_scenario :
  let m := Scenario.manager in
  let w := Scenario.offline_cache in
  let key := lit "layered" in
  let parentDir := lit "/home/user/.cache/.pick-your-go" in
  GetTemplate m key = inl Scenario.layered_template
  ∧ (Template.IsCached m w Scenario.noon key).2 = false
  ∧ EnsureTemplateCached m w Scenario.noon Scenario.noon Scenario.noon key []
    = Some ((Template.IsCached m w Scenario.noon key).1,
            after w
              ([EvRemoveAll Scenario.layeredPath]
               ++ [EvMkdirAll parentDir; EvRun Scenario.layered_clone])
              (existing w ∖ {[Scenario.layeredPath]} ∪ {[parentDir]}),
            Some (lit "failed to clone repository: "
                  ++ lit "exit status 128")).
Proof.
  intros m w key parentDir.
  assert (GetTemplate m key = inl Scenario.layered_template) as Hreg
    by reflexivity.
  assert ((Template.IsCached m w Scenario.noon key).2 = false) as Hstale
    by reflexivity.
  split; [exact Hreg|]. split; [exact Hstale|].
  destruct (C3_EnsureTemplateCached_fetches_when_stale m w Scenario.noon
              Scenario.noon Scenario.noon key [] Scenario.layered_template
              Hreg) as (_ & _ & Hfetch).
  destruct (Hfetch Hstale (λ _, eq_refl)) as (_ & Hclone & _).
  exact (Hclone (lit "exit status 128") eq_refl eq_refl).
Defined.

(** ** The tests of the repository and of the specification, run on the
    model *)

Example test_simple_import :
  replaceModulePathInLine
    (lit "import " ++ Scenario.quoted "github.com/old/module/internal/config")
    Scenario.oldIdentity Scenario.newIdentity
  = Some (lit "import "
          ++ Scenario.quoted "github.com/new/module/internal/config").
Proof. by vm_compute. Qed.

Example test_aliased_import :
  replaceModulePathInLine
    (lit "oldconfig "
     ++ Scenario.quoted "github.com/old/module/internal/config")
    Scenario.oldIdentity Scenario.newIdentity
  = Some (lit "oldconfig "
          ++ Scenario.quoted "github.com/new/module/internal/config").
Proof. by vm_compute. Qed.

Example test_external_package :
  replaceModulePathInLine
    (lit "import " ++ Scenario.quoted "github.com/gin-gonic/gin")
    Scenario.oldIdentity Scenario.newIdentity
  = Some (lit "import " ++ Scenario.quoted "github.com/gin-gonic/gin").
Proof. by vm_compute. Qed.

Example test_root_module_path :
  replaceModulePathInLine
    (lit "import " ++ Scenario.quoted "github.com/old/module")
    Scenario.oldIdentity Scenario.newIdentity
  = Some (lit "import " ++ Scenario.quoted "github.com/new/module").
Proof. by vm_compute. Qed.

Example test_prefix_exact :
  replaceModulePathInLine (Scenario.quoted "a/bc") (lit "a/b") (lit "x/y")
  = Some (Scenario.quoted "a/bc")
  ∧ replaceModulePathInLine (Scenario.quoted "a/b/sub") (lit "a/b")
      (lit "x/y")
    = Some (Scenario.quoted "x/y/sub").
Proof. by vm_compute. Qed.

Example test_two_paths_on_a_line :
  replaceModulePathInLine
    (lit "import " ++ Scenario.quoted "a/b" ++ lit "; import "
     ++ Scenario.quoted "a/b/sub")
    (lit "a/b") (lit "x/y/z")
  = Some (lit "import " ++ Scenario.quoted "x/y/z" ++ lit "; import "
          ++ Scenario.quoted "x/y/z/sub").
Proof. by vm_compute. Qed.

Example test_extract_module_path :
  (extractOriginalModulePath (Scenario.project Scenario.manifest)
     Scenario.goModPath).2
  = inl (lit "github.com/test/example").
Proof. by vm_compute. Qed.

Example test_end_to_end :
  replaceImportPaths Scenario.source Scenario.oldIdentity Scenario.newIdentity
  = Some Scenario.source_rewritten.
Proof. by vm_compute. Qed.

Example test_TrimSpace_ascii :
  TrimSpace (Scenario.tab ++ lit "  import (  " ++ ["013"%char])
  = lit "import (".
Proof. by vm_compute. Qed.

Example test_TrimSpace_no_break_space :
  TrimSpace (["194"%char; "160"%char] ++ lit ")"
             ++ ["226"%char; "128"%char; "168"%char])
  = lit ")".
Proof. by vm_compute. Qed.

Example test_walk_order :
  source_files Scenario.projectPath Scenario.tree
  = [lit "/tmp/project/cmd/main.go"; lit "/tmp/project/internal/a.go";
     lit "/tmp/project/internal/b.go"].
Proof. by vm_compute. Qed.

(** * Further properties of the code *)

(** ** The cache: entries, ages and clearing *)

Import CacheAdmin.

(** X1.  In every state of the manager and of the metadata file, and at
    every time, [IsCacheExpired] answers the opposite of [IsCached] and
    leaves the manager in the same state. *)
Theorem X1_IsCacheExpired_is_not_IsCached (m : Cache.Manager)
    (w : Cache.World) (now : Z) (key : str) :
  IsCacheExpired m w now key
  = ((Cache.IsCached m w now key).1, negb (Cache.IsCached m w now key).2).
Proof.
  unfold IsCacheExpired, Cache.IsCached.
  destruct (loadMetadata m w) as [m' [err|]]; [done|].
  destruct (lookup_template m' key) as [info|]; [|done].
  cbn [fst snd]. f_equal.
  destruct (bool_decide_reflect (Since now (CachedAt info) < CacheTTL));
    cbn [negb]; [apply bool_decide_eq_false|apply bool_decide_eq_true]; lia.
Qed.

(** What a successful [UpdateCacheTime] leaves: the entries that the
    load gave, with the entry of the key replaced, in memory and in the
    document. *)
Lemma UpdateCacheTime_document (m m' : Cache.Manager) (w w' : Cache.World)
    (now1 now2 : Z) (key : str) :
  UpdateCacheTime m w now1 now2 key = Some (m', w', None) →
  ∃ loaded,
    (loadMetadata m w).2 = None
    ∧ Templates (loadMetadata m w).1 = Some loaded
    ∧ let info := mkInfo now1 now2 (GetTemplateCachePath m key) [] in
      Templates m' = Some (<[key := info]> loaded)
      ∧ cacheDir m' = cacheDir m
      ∧ metadata_file w' = Parsed (Object (<[key := info]> loaded))
      ∧ metadata_write_error w' = None
      ∧ existing w' = existing w
      ∧ events w' = events w ++ [EvWriteMetadata (metadata_file w')].
Proof.
  unfold UpdateCacheTime.
  destruct (loadMetadata m w) as [m1 [err|]] eqn:Hload; [done|].
  assert (cacheDir m1 = cacheDir m) as Hdir.
  { unfold loadMetadata in Hload.
    destruct (metadata_file w); by injection Hload as <-. }
  destruct (Templates m1) as [loaded|] eqn:Hl; [|done].
  cbn [mbind option_bind]. unfold saveMetadata. cbn [Templates marshal].
  destruct (metadata_write_error w); [done|]. intros [= <- <-].
  exists loaded. cbn [fst snd]. unfold GetTemplateCachePath.
  rewrite Hdir. done.
Qed.

(** What the entries of a document are to a reader: the entries of the
    document come before those the reader holds in memory. *)
Lemma load_parsed_lookup (reader : Cache.Manager) (w : Cache.World)
    (entries : gmap str TemplateCacheInfo) (key : str) :
  metadata_file w = Parsed (Object entries) →
  (loadMetadata reader w).2 = None
  ∧ lookup_template (loadMetadata reader w).1 key
    = match entries !! key with
      | Some info => Some info
      | None => lookup_template reader key
      end.
Proof.
  intros Hdoc. unfold loadMetadata, lookup_template. rewrite Hdoc.
  cbn [fst snd Templates]. split; [done|].
  unfold unmarshal_templates, default. cbn [from_option id].
  destruct (entries !! key) as [info|] eqn:E.
  - by rewrite (lookup_union_l' _ _ _ (mk_is_Some _ _ E)).
  - by rewrite lookup_union_r.
Qed.

(** X2.  The entry that a successful [UpdateCacheTime] writes is what
    [GetCacheInfo] returns afterwards, to every manager that reads the
    document: cached and checked at the two readings of the clock, with
    the cache path of the key as its path, and [GetCacheAge] is the time
    since the first reading.  This is so when the strings of the metadata
    written are valid UTF-8, which the document keeps as they are, and
    when the cache directory is a clean path and so is the cache
    directory, a separator and the key, which [filepath.Join] then
    returns. *)
Theorem X2_GetCacheInfo_after_UpdateCacheTime
    (m m' : Cache.Manager) (w w' : Cache.World) (now1 now2 : Z) (key : str) :
  UpdateCacheTime m w now1 now2 key = Some (m', w', None) →
  Utf8.valid_metadata m' = true →
  CleanPath.joins (cacheDir m) key = true →
  ∀ reader : Cache.Manager,
    (GetCacheInfo reader w' key).2
    = inl (mkInfo now1 now2 (GetTemplateCachePath m key) [])
    ∧ ∀ now, (GetCacheAge reader w' now key).2 = inl (Since now now1).
Proof.
  intros Hupd _ _ reader.
  apply UpdateCacheTime_document in Hupd
    as (loaded & _ & _ & _ & _ & Hdoc & _).
  destruct (load_parsed_lookup reader w' _ key Hdoc) as [Herr Hlook].
  rewrite lookup_insert_eq in Hlook.
  assert ((GetCacheInfo reader w' key).2
          = inl (mkInfo now1 now2 (GetTemplateCachePath m key) []))
    as Hinfo.
  { unfold GetCacheInfo. destruct (loadMetadata reader w') as [r [e|]];
      cbn [fst snd] in *; [done|]. by rewrite Hlook. }
  split; [done|]. intros now. unfold GetCacheAge.
  destruct (GetCacheInfo reader w' key) as [r [info|e]]; cbn [snd] in *;
    [|done]. by injection Hinfo as ->.
Qed.


(** X4.  A template is cached exactly when its age can be told and is
    below the time to live. *)
Theorem X4_IsCached_iff_age_below_ttl (m : Cache.Manager) (w : Cache.World)
    (now : Z) (key : str) :
  (Cache.IsCached m w now key).2 = true
  ↔ ∃ age, (GetCacheAge m w now key).2 = inl age ∧ age < CacheTTL.
Proof.
  unfold Cache.IsCached, GetCacheAge, GetCacheInfo.
  destruct (loadMetadata m w) as [m' [err|]]; cbn [snd].
  { split; [done|]. by intros (age & ? & _). }
  destruct (lookup_template m' key) as [info|]; cbn [snd].
  - rewrite bool_decide_eq_true. split.
    + intros H. by exists (Since now (CachedAt info)).
    + by intros (age & [= <-] & H).
  - split; [done|]. by intros (age & ? & _).
Qed.

Lemma RemoveAll_ok (w : Cache.World) (path : str) :
  remove_error w path = None →
  Template.RemoveAll w path
  = (after w [EvRemoveAll path] (existing w ∖ {[path]}), None).
Proof. intros H. unfold Template.RemoveAll, log. cbn. by rewrite H. Qed.

Lemma RemoveAll_fails (w : Cache.World) (path : str) (e : error) :
  remove_error w path = Some e →
  Template.RemoveAll w path
  = (after w [EvRemoveAll path] (existing w), Some e).
Proof. intros H. unfold Template.RemoveAll, log. cbn. by rewrite H. Qed.

Lemma after_after (w : Cache.World) (evs evs' : list event)
    (paths paths' : gset str) :
  after (after w evs paths) evs' paths' = after w (evs ++ evs') paths'.
Proof. unfold after. cbn. by rewrite app_assoc. Qed.

Lemma after_nil (w : Cache.World) : after w [] (existing w) = w.
Proof. destruct w. unfold after. cbn. by rewrite app_nil_r. Qed.

(** Without a directory of that path, or after the directory has been
    removed, [ClearTemplateCache] goes on to the metadata with the same
    metadata file. *)
Lemma ClearTemplateCache_success (m m' : Cache.Manager) (w w' : Cache.World)
    (key : str) :
  ClearTemplateCache m w key = (m', w', None) →
  (loadMetadata m w).2 = None
  ∧ m' = delete_template (loadMetadata m w).1 key
  ∧ metadata_file w' = marshal m'
  ∧ metadata_write_error w' = None
  ∧ existing w' = existing w ∖ {[GetTemplateCachePath m key]}
  ∧ events w'
    = events w
      ++ (if bool_decide (GetTemplateCachePath m key ∈ existing w)
          then [EvRemoveAll (GetTemplateCachePath m key)] else [])
      ++ [EvWriteMetadata (marshal m')].
Proof.
  unfold ClearTemplateCache.
  set (cachePath := GetTemplateCachePath m key).
  assert (∀ w1 : Cache.World,
            metadata_file w1 = metadata_file w →
            loadMetadata m w1 = loadMetadata m w) as Hload.
  { intros w1 H. unfold loadMetadata. by rewrite H. }
  case_bool_decide as Hex.
  - destruct (remove_error w cachePath) as [e|] eqn:Hrm.
    { by rewrite (RemoveAll_fails _ _ e). }
    rewrite RemoveAll_ok by done. rewrite Hload by done.
    destruct (loadMetadata m w) as [m1 [e|]]; [done|].
    unfold saveMetadata. cbn [after metadata_write_error].
    destruct (metadata_write_error w); [done|]. intros [= <- <-].
    cbn. by rewrite <- app_assoc.
  - destruct (loadMetadata m w) as [m1 [e|]]; [done|].
    unfold saveMetadata.
    destruct (metadata_write_error w); [done|]. intros [= <- <-].
    cbn. repeat (split; [done|]). split; [|done].
    symmetry. apply difference_disjoint_L, disjoint_singleton_r. done.
Qed.

Lemma load_parsed_null (reader : Cache.Manager) (w : Cache.World)
    (key : str) :
  metadata_file w = Parsed Null →
  (loadMetadata reader w).2 = None
  ∧ lookup_template (loadMetadata reader w).1 key = None.
Proof.
  intros Hdoc. unfold loadMetadata, lookup_template. rewrite Hdoc.
  cbn [fst snd Templates unmarshal_templates default from_option id].
  by rewrite lookup_empty.
Qed.

Lemma GetCacheInfo_lookup (m : Cache.Manager) (w : Cache.World) (key : str) :
  (loadMetadata m w).2 = None →
  (GetCacheInfo m w key).2
  = match lookup_template (loadMetadata m w).1 key with
    | Some info => inl info
    | None => inr (lit "template not cached")
    end.
Proof.
  unfold GetCacheInfo. destruct (loadMetadata m w) as [m1 [e|]]; [done|].
  intros _. cbn [fst snd]. by destruct (lookup_template m1 key).
Qed.

Lemma IsCached_no_entry (m : Cache.Manager) (w : Cache.World) (now : Z)
    (key : str) :
  lookup_template (loadMetadata m w).1 key = None →
  (Cache.IsCached m w now key).2 = false.
Proof.
  unfold Cache.IsCached. destruct (loadMetadata m w) as [m1 [e|]]; [done|].
  cbn [fst]. by intros ->.
Qed.

(** X5.  After a successful [ClearTemplateCache] that has written
    metadata whose strings are valid UTF-8, which the document keeps as
    they are, the directory of the template is gone and the template is
    not cached, at any time, for the clearing manager and for a new one;
    [GetCacheInfo] answers [template not cached].  The entries of the
    other keys are kept. *)
Theorem X5_ClearTemplateCache_forgets_the_key
    (m m' : Cache.Manager) (w w' : Cache.World) (key : str) :
  ClearTemplateCache m w key = (m', w', None) →
  Utf8.valid_metadata m' = true →
  (GetTemplateCachePath m key ∉ existing w')
  ∧ (∀ now, (Cache.IsCached m' w' now key).2 = false)
  ∧ (∀ now userCacheDir,
       (Cache.IsCached (Cache.NewManager userCacheDir) w' now key).2 = false)
  ∧ (GetCacheInfo m' w' key).2 = inr (lit "template not cached")
  ∧ (∀ other userCacheDir,
       other ≠ key →
       (GetCacheInfo (Cache.NewManager userCacheDir) w' other).2
       = (GetCacheInfo m w other).2).
Proof.
  intros H _. apply ClearTemplateCache_success in H
    as (Hok & -> & Hdoc & _ & Hex & _).
  split.
  { rewrite Hex. apply not_elem_of_difference. right.
    by apply elem_of_singleton. }
  assert (∀ other, (GetCacheInfo m w other).2
                   = match lookup_template (loadMetadata m w).1 other with
                     | Some info => inl info
                     | None => inr (lit "template not cached")
                     end) as Hinfo
    by (intros; by apply GetCacheInfo_lookup).
  destruct (loadMetadata m w) as [m1 [e|]] eqn:Hload; [done|].
  cbn [fst snd] in *. unfold marshal, delete_template in Hdoc.
  cbn [Templates] in Hdoc.
  assert (∀ reader : Cache.Manager,
            lookup_template reader key = None →
            (loadMetadata reader w').2 = None
            ∧ lookup_template (loadMetadata reader w').1 key = None
            ∧ ∀ other, other ≠ key →
                lookup_template reader other = None →
                lookup_template (loadMetadata reader w').1 other
                = lookup_template m1 other) as Hreader.
  { intros reader Hr. unfold lookup_template at 4.
    destruct (Templates m1) as [loaded|];
      cbn [fmap option_fmap option_map default from_option id] in *.
    - split; [apply (load_parsed_lookup reader w' _ key Hdoc)|]. split.
      + rewrite (proj2 (load_parsed_lookup reader w' _ key Hdoc)).
        by rewrite lookup_delete_eq.
      + intros other Hne Ho.
        rewrite (proj2 (load_parsed_lookup reader w' _ other Hdoc)).
        rewrite lookup_delete_ne, Ho by done. by destruct (loaded !! other).
    - split; [apply (load_parsed_null reader w' key Hdoc)|]. split.
      + apply (load_parsed_null reader w' key Hdoc).
      + intros other _ _. rewrite lookup_empty.
        apply (load_parsed_null reader w' other Hdoc). }
  assert (lookup_template (delete_template m1 key) key = None) as Hself.
  { unfold lookup_template, delete_template. cbn [Templates].
    destruct (Templates m1) as [loaded|];
      cbn [fmap option_fmap option_map default from_option id].
    - apply lookup_delete_eq.
    - apply lookup_empty. }
  assert (∀ dir k, lookup_template (Cache.NewManager dir) k = None) as Hnew.
  { intros dir k. unfold lookup_template, Cache.NewManager.
    cbn [Templates default from_option id]. by rewrite lookup_empty. }
  destruct (Hreader _ Hself) as (Hok1 & Hk1 & _).
  split; [intros now; by apply IsCached_no_entry|].
  split.
  { intros now dir. apply IsCached_no_entry.
    apply (Hreader _ (Hnew dir key)). }
  split; [by rewrite GetCacheInfo_lookup, Hk1|].
  intros other dir Hne.
  destruct (Hreader _ (Hnew dir key)) as (Hok2 & _ & Hother).
  by rewrite GetCacheInfo_lookup, Hother, Hinfo.
Qed.

(** X6.  [ClearTemplateCache] removes the directory before it loads the
    metadata: with a metadata file that is not parsable it returns the
    error of the load although the directory is gone, and it writes no
    metadata. *)
Theorem X6_ClearTemplateCache_removes_before_it_loads
    (m : Cache.Manager) (w : Cache.World) (key : str) (e : error)
    (partial : templates_member) :
  metadata_file w = Unparsable e partial →
  GetTemplateCachePath m key ∈ existing w →
  remove_error w (GetTemplateCachePath m key) = None →
  ∃ m',
    ClearTemplateCache m w key
    = (m',
       after w [EvRemoveAll (GetTemplateCachePath m key)]
         (existing w ∖ {[GetTemplateCachePath m key]}),
       Some (lit "failed to load metadata: "
             ++ lit "failed to parse metadata: " ++ e)).
Proof.
  intros Hdoc Hex Hrm. unfold ClearTemplateCache.
  rewrite bool_decide_eq_true_2 by done. rewrite RemoveAll_ok by done.
  unfold loadMetadata. cbn [after metadata_file]. rewrite Hdoc.
  by eexists.
Qed.

Lemma listed_dirs_cons_dir (m : Cache.Manager) (name : str)
    (rest : list (str * bool)) :
  listed_dirs m ((name, true) :: rest)
  = FilePath.Join (cacheDir m) name :: listed_dirs m rest.
Proof. done. Qed.

Lemma listed_dirs_cons_file (m : Cache.Manager) (name : str)
    (rest : list (str * bool)) :
  listed_dirs m ((name, false) :: rest) = listed_dirs m rest.
Proof. done. Qed.

Lemma listed_dirs_app (m : Cache.Manager) (l1 l2 : list (str * bool)) :
  listed_dirs m (l1 ++ l2) = listed_dirs m l1 ++ listed_dirs m l2.
Proof. unfold listed_dirs. by rewrite filter_app, fmap_app. Qed.

(** The loop removes the listed directories one after the other. *)
Lemma ClearCache_loop_ok (m : Cache.Manager) (entries : list (str * bool)) :
  ∀ w : Cache.World,
  (∀ p, p ∈ listed_dirs m entries → remove_error w p = None) →
  ClearCache_loop m entries w
  = (after w (EvRemoveAll <$> listed_dirs m entries)
       (existing w ∖ list_to_set (listed_dirs m entries)), None).
Proof.
  induction entries as [|[name [|]] rest IH]; intros w Hrm.
  - cbn. rewrite difference_empty_L.
    by rewrite after_nil.
  - rewrite listed_dirs_cons_dir in *. cbn [ClearCache_loop].
    rewrite RemoveAll_ok by (apply Hrm; by left).
    rewrite IH by (intros p Hp; apply Hrm; by right).
    rewrite after_after. cbn [after existing fmap list_fmap app list_to_set].
    do 2 f_equal. apply leibniz_equiv. rewrite difference_difference_l.
    done.
  - rewrite listed_dirs_cons_file in *. cbn [ClearCache_loop]. by apply IH.
Qed.

(** The loop stops at the first directory that cannot be removed. *)
Lemma ClearCache_loop_fails (m : Cache.Manager)
    (before rest : list (str * bool)) (name : str) (e : error)
    (w : Cache.World) :
  (∀ p, p ∈ listed_dirs m before → remove_error w p = None) →
  remove_error w (FilePath.Join (cacheDir m) name) = Some e →
  ClearCache_loop m (before ++ (name, true) :: rest) w
  = (after w
       (EvRemoveAll
          <$> listed_dirs m before ++ [FilePath.Join (cacheDir m) name])
       (existing w ∖ list_to_set (listed_dirs m before)),
     Some (lit "failed to remove " ++ FilePath.Join (cacheDir m) name
           ++ lit ": " ++ e)).
Proof.
  revert w. induction before as [|[n [|]] before IH]; intros w Hrm He.
  - cbn [app ClearCache_loop]. rewrite (RemoveAll_fails _ _ e) by done.
    cbn. rewrite difference_empty_L. done.
  - cbn [app]. rewrite listed_dirs_cons_dir in *. cbn [ClearCache_loop].
    rewrite RemoveAll_ok by (apply Hrm; by left).
    rewrite IH; [|intros p Hp; apply Hrm; by right|done].
    rewrite after_after. cbn [after existing fmap list_fmap app list_to_set].
    do 2 f_equal. apply leibniz_equiv. rewrite difference_difference_l.
    done.
  - cbn [app]. rewrite listed_dirs_cons_file in *. cbn [ClearCache_loop].
    by apply IH.
Qed.

Section ClearCache.
Variables (m : Cache.Manager) (w : Cache.World).
Variable entries : list (str * bool).
Hypothesis Hremovable :
  ∀ p, p ∈ listed_dirs m entries → remove_error w p = None.
Hypothesis Hwritable : metadata_write_error w = None.

Let emptied : document := Parsed (Object ∅).
Let w' : Cache.World :=
  Cache.mkWorld emptied None
    (existing w ∖ list_to_set (listed_dirs m entries))
    (remove_error w) (mkdir_error w) (run_error w)
    (events w ++ (EvRemoveAll <$> listed_dirs m entries)
     ++ [EvWriteMetadata emptied]).

Lemma ClearCache_run :
  ClearCache m w (inl entries)
  = (Cache.mkManager (cacheDir m) (Some ∅), w', None).
Proof.
  unfold ClearCache. rewrite ClearCache_loop_ok by done.
  unfold saveMetadata, after. cbn. rewrite Hwritable.
  subst w'. by rewrite <- app_assoc.
Qed.

(** X7.  When the directories of the listing can be removed and the
    metadata file can be written, [ClearCache] removes the directories in
    the order of the listing and no other entry, and writes a document
    without entries, whatever the metadata file was and whatever the
    manager held; afterwards no template is cached, at any time, for the
    clearing manager and for a new one.  Another manager, made before, is
    answered by the entries that it still holds in memory, since the
    document without entries takes none of them away. *)
Theorem X7_ClearCache_empties_the_cache :
  ∃ m1 w1,
    ClearCache m w (inl entries) = (m1, w1, None)
    ∧ events w1
      = events w ++ (EvRemoveAll <$> listed_dirs m entries)
        ++ [EvWriteMetadata (Parsed (Object ∅))]
    ∧ existing w1 = existing w ∖ list_to_set (listed_dirs m entries)
    ∧ metadata_file w1 = Parsed (Object ∅)
    ∧ (∀ now key, (Cache.IsCached m1 w1 now key).2 = false)
    ∧ (∀ now key userCacheDir,
         (Cache.IsCached (Cache.NewManager userCacheDir) w1 now key).2
         = false)
    ∧ (∀ (reader : Cache.Manager) now key,
         (Cache.IsCached reader w1 now key).2
         = match lookup_template reader key with
           | Some info => bool_decide (Since now (CachedAt info) < CacheTTL)
           | None => false
           end).
Proof.
  eexists _, _. split; [apply ClearCache_run|].
  do 3 (split; [done|]).
  assert (∀ (reader : Cache.Manager) now key,
            (Cache.IsCached reader w' now key).2
            = match lookup_template reader key with
              | Some info =>
                  bool_decide (Since now (CachedAt info) < CacheTTL)
              | None => false
              end) as Hreader; [|by repeat split].
  intros reader now key.
  destruct (load_parsed_lookup reader w' ∅ key eq_refl) as [Hok Hlook].
  rewrite lookup_empty in Hlook. unfold Cache.IsCached.
  destruct (loadMetadata reader w') as [r [e|]]; cbn [fst snd] in *;
    [done|].
  rewrite Hlook. by destruct (lookup_template reader key).
Qed.

(** X8.  [ClearCache] does not read the metadata file, so that it also
    succeeds on one that is not parsable; after it [UpdateCacheTime]
    succeeds again, for every manager. *)
Theorem X8_ClearCache_repairs_the_metadata :
  ∃ m1 w1,
    ClearCache m w (inl entries) = (m1, w1, None)
    ∧ ∀ (reader : Cache.Manager) (now1 now2 : Z) (key : str),
        ∃ reader' w2,
          UpdateCacheTime reader w1 now1 now2 key = Some (reader', w2, None).
Proof.
  eexists _, _. split; [apply ClearCache_run|].
  intros reader now1 now2 key. unfold UpdateCacheTime, loadMetadata.
  cbn [metadata_file w' emptied unmarshal_templates Templates mbind
       option_bind]. unfold saveMetadata. cbn. by eexists _, _.
Qed.

End ClearCache.

(** X9.  [ClearCache] stops at the first directory that it cannot
    remove: it returns the error with the path, the directories before
    it in the listing are gone, and the metadata, in memory and in the
    file, is as it was. *)
Theorem X9_ClearCache_stops_at_the_first_failure
    (m : Cache.Manager) (w : Cache.World)
    (before rest : list (str * bool)) (name : str) (e : error) :
  (∀ p, p ∈ listed_dirs m before → remove_error w p = None) →
  remove_error w (FilePath.Join (cacheDir m) name) = Some e →
  let path := FilePath.Join (cacheDir m) name in
  ClearCache m w (inl (before ++ (name, true) :: rest))
  = (m,
     after w (EvRemoveAll <$> listed_dirs m before ++ [path])
       (existing w ∖ list_to_set (listed_dirs m before)),
     Some (lit "failed to remove " ++ path ++ lit ": " ++ e)).
Proof.
  intros Hrm He path. unfold ClearCache.
  by rewrite (ClearCache_loop_fails m before rest name e).
Qed.

(** ** The architectures, the generators and the templates *)

Import Factory.

(** X10.  The architecture types that [IsValid] accepts are those the
    factory has a generator for and those the template manager has a
    template for, and the generator and the template are those of the
    type asked for; for every other type [DisplayName] is
    [Unknown Architecture], the factory answers
    [unsupported architecture type] and the manager
    [template not found]. *)
Theorem X10_architectures_generators_templates_agree
    (archType userCacheDir : str) :
  (Config.IsValid archType = true
   ↔ ∃ g, CreateGenerator archType = inl g ∧ architecture_of g = archType)
  ∧ (Config.IsValid archType = true
     ↔ ∃ t, GetTemplate (Template.NewManager userCacheDir) archType = inl t
            ∧ Type_ t = archType)
  ∧ (Config.IsValid archType = false
     ↔ Config.DisplayName archType = lit "Unknown Architecture")
  ∧ (Config.IsValid archType = false →
     CreateGenerator archType
     = inr (lit "unsupported architecture type: " ++ archType)
     ∧ GetTemplate (Template.NewManager userCacheDir) archType
       = inr (lit "template not found for architecture type: " ++ archType)).
Proof.
  unfold Config.IsValid, Config.DisplayName, CreateGenerator, GetTemplate.
  cbn [Template.NewManager templates getDefaultTemplates GetTemplate_loop
       Type_].
  change Template.LayeredArchitecture with Config.LayeredArchitecture.
  change Template.ModularArchitecture with Config.ModularArchitecture.
  change Template.HexagonalArchitecture with Config.HexagonalArchitecture.
  destruct (decide (archType = Config.LayeredArchitecture)) as [->|H1].
  { repeat split; try done; try (by eexists); by vm_compute. }
  destruct (decide (archType = Config.ModularArchitecture)) as [->|H2].
  { repeat split; try done; try (by eexists); by vm_compute. }
  destruct (decide (archType = Config.HexagonalArchitecture)) as [->|H3].
  { repeat split; try done; try (by eexists); by vm_compute. }
  rewrite !(bool_decide_eq_false_2 (archType = _)) by done.
  rewrite !(bool_decide_eq_false_2 (_ = archType)) by done.
  repeat split; try done; by intros (? & ? & _).
Qed.

(** ** The customizing of a project *)




Lemma IsAbs_Join (dir name : str) :
  FilePath.IsAbs dir = true → FilePath.IsAbs (FilePath.Join dir name) = true.
Proof.
  unfold FilePath.IsAbs, FilePath.Join. intros [r ->]%HasPrefix_true.
  apply HasPrefix_true. eexists. by rewrite <- app_assoc.
Qed.

(** What [updateGoModule] does when the manifest cannot be written. *)
Lemma updateGoModule_write_fails (w : FS.World) (path modulePath : str)
    (f : file) (e : error) :
  FilePath.IsAbs path = true →
  files w !! path = Some f →
  read_error f = None →
  write_error f = Some e →
  ∃ content,
    updateGoModule w path modulePath
    = (FS.mkWorld (files w)
         (calls w ++ [CallStat path; CallReadFile path;
                      CallWriteFile path content])
         (stdout w),
       Some (lit "failed to write go.mod file " ++ path ++ lit ": " ++ e)).
Proof.
  intros Habs Hf Hr Hw. unfold updateGoModule. rewrite Habs.
  cbn [negb StatNotExist]. rewrite Hf.
  rewrite bool_decide_eq_false_2 by done.
  unfold ReadFile, record. cbn [files calls stdout]. rewrite Hf, Hr.
  unfold WriteFile, record. cbn [files calls stdout]. rewrite Hf, Hw.
  eexists. by rewrite <- !app_assoc.
Qed.

(** [extractOriginalModulePath] changes no file and prints nothing, and
    the calls it adds are no writes. *)
Lemma extractOriginalModulePath_frame (w : FS.World) (path : str) :
  let w' := (extractOriginalModulePath w path).1 in
  files w' = files w ∧ stdout w' = stdout w
  ∧ ∃ added, calls w' = calls w ++ added
             ∧ Forall (λ c, ∀ p content, c ≠ CallWriteFile p content) added.
Proof.
  assert (∀ added : list call,
            Forall (λ c, ∀ p content, c ≠ CallWriteFile p content) added →
            ∀ w' : FS.World,
              files w' = files w → stdout w' = stdout w →
              calls w' = calls w ++ added →
              files w' = files w ∧ stdout w' = stdout w
              ∧ ∃ added, calls w' = calls w ++ added
                  ∧ Forall (λ c, ∀ p content, c ≠ CallWriteFile p content)
                      added) as Hframe by eauto.
  unfold extractOriginalModulePath, StatNotExist, ReadFile, record.
  cbn [files calls stdout].
  destruct (FilePath.IsAbs path); cbn [negb].
  - case_bool_decide.
    + apply (Hframe [CallStat path]); try done.
      repeat (apply Forall_cons; split; [done|]). apply Forall_nil_2.
    + destruct (files w !! path) as [f|]; [|done].
      destruct (read_error f);
        apply (Hframe [CallStat path; CallReadFile path]);
        cbn [fst calls files stdout];
        first [ done | by rewrite <- app_assoc
              | repeat (apply Forall_cons; split; [done|]);
                apply Forall_nil_2 ].
  - apply (Hframe []); cbn [fst]; try done. by rewrite app_nil_r.
Qed.


Section Customize.
Variables (w : FS.World) (tree : node) (modulePath projectPath : str).
Variable f : file.
Variable declared : str.

Let goModPath := FilePath.Join projectPath (lit "go.mod").
Let sources := source_files projectPath tree.
Let lines := splitLines (data f).
Let updated :=
  GoStrings.Join (updateGoModule_loop lines 0 lines modulePath) [newline].
Let manifest_calls :=
  [CallStat goModPath; CallReadFile goModPath;
   CallStat goModPath; CallReadFile goModPath;
   CallWriteFile goModPath updated].
Let manifest_warning (e : error) : str :=
  lit "Warning: failed to update go.mod: "
  ++ (lit "failed to write go.mod file " ++ goModPath ++ lit ": " ++ e)
  ++ [newline].

Hypothesis Habs : FilePath.IsAbs projectPath = true.
Hypothesis Hfile : files w !! goModPath = Some f.
Hypothesis Hread : read_error f = None.
Hypothesis Hdeclared :
  extractOriginalModulePath_loop (splitLines (data f)) = inl declared.

Lemma customize_extract :
  extractOriginalModulePath w goModPath
  = (FS.mkWorld (files w) (calls w ++ [CallStat goModPath; CallReadFile goModPath])
       (stdout w), inl declared).
Proof.
  rewrite (extractOriginalModulePath_run w goModPath f);
    [|by apply IsAbs_Join|done|done]. by rewrite Hdeclared.
Qed.


(** What [customizeProject] has done when it is through with the
    manifest: the manifest is written, or the warning is printed. *)
Lemma customize_manifest :
  match
    updateGoModule
      (FS.mkWorld (files w)
         (calls w ++ [CallStat goModPath; CallReadFile goModPath]) (stdout w))
      goModPath modulePath
  with
  | (w2, Some err) =>
      Print (lit "Warning: failed to update go.mod: " ++ err ++ [newline]) w2
  | (w2, None) => w2
  end
  = match write_error f with
    | None =>
        FS.mkWorld (<[goModPath := File updated None None]> (files w))
          (calls w ++ manifest_calls) (stdout w)
    | Some e =>
        FS.mkWorld (files w) (calls w ++ manifest_calls)
          (stdout w ++ [manifest_warning e])
    end.
Proof.
  destruct (write_error f) as [e|] eqn:Hwrite.
  - unfold updateGoModule.
    rewrite (IsAbs_Join _ _ Habs : FilePath.IsAbs goModPath = true).
    cbn [negb StatNotExist files]. rewrite Hfile.
    rewrite bool_decide_eq_false_2 by done.
    unfold ReadFile, record. cbn [files calls stdout]. rewrite Hfile, Hread.
    unfold WriteFile, record. cbn [files calls stdout].
    rewrite Hfile, Hwrite. unfold Print. cbn [files calls stdout].
    f_equal. by rewrite <- !app_assoc.
  - rewrite (updateGoModule_run _ goModPath modulePath f);
      [|by apply IsAbs_Join|done|done|done].
    cbn [files calls stdout]. f_equal. by rewrite <- !app_assoc.
Qed.

(** X14.  When the manifest declares the identity asked for already,
    [customizeProject] deals with the manifest only: it returns [nil], it
    looks at no other file, whatever the walk would find, and it prints
    nothing but the warning of a manifest that cannot be written. *)
Theorem X14_customizeProject_same_identity :
  declared = modulePath →
  ∃ w',
    customizeProject w tree modulePath projectPath = Some (w', None)
    ∧ calls w' = calls w ++ manifest_calls
    ∧ (∀ p, p ≠ goModPath → files w' !! p = files w !! p)
    ∧ stdout w'
      = stdout w
        ++ match write_error f with
           | None => []
           | Some e => [manifest_warning e]
           end.
Proof.
  intros Hsame. unfold customizeProject. rewrite Habs. cbn [negb].
  fold goModPath. rewrite customize_extract, customize_manifest.
  rewrite bool_decide_eq_false_2 by (intros H; by apply H).
  eexists. split; [done|].
  destruct (write_error f); cbn [files calls stdout];
    (split; [done|]); (split; [|by rewrite ?app_nil_r]); [done|].
  intros p Hp. by rewrite lookup_insert_ne.
Qed.

Section Rewritten.
Hypothesis Hold : declared ≠ [].
Hypothesis Hnew : modulePath ≠ [].
Hypothesis Hdiffer : declared ≠ modulePath.
Hypothesis Hwalk : walkable projectPath tree = true.
Hypothesis Hnodup : NoDup sources.
Hypothesis Hgood :
  ∀ p, p ∈ sources → file_failure w declared modulePath p = None.





End Rewritten.
End Customize.

(** X13.  When the identity of the manifest cannot be told, because the
    manifest is missing, cannot be read or has no module line,
    [customizeProject] returns the error and has changed no file, made no
    call that writes, and printed nothing. *)
Theorem X13_customizeProject_without_identity
    (w : FS.World) (tree : node) (modulePath projectPath : str)
    (err : error) :
  FilePath.IsAbs projectPath = true →
  (extractOriginalModulePath w (FilePath.Join projectPath (lit "go.mod"))).2
  = inr err →
  ∃ w' added,
    customizeProject w tree modulePath projectPath
    = Some (w', Some (lit "failed to extract original module path: " ++ err))
    ∧ files w' = files w
    ∧ stdout w' = stdout w
    ∧ calls w' = calls w ++ added
    ∧ Forall (λ c, ∀ p content, c ≠ CallWriteFile p content) added.
Proof.
  intros Habs Herr. unfold customizeProject. rewrite Habs. cbn [negb].
  destruct (extractOriginalModulePath_frame w
              (FilePath.Join projectPath (lit "go.mod")))
    as (Hfiles & Hout & added & Hcalls & Hadded).
  destruct (extractOriginalModulePath w _) as [w' [old|e]];
    cbn [fst snd] in *; [done|].
  injection Herr as ->. by exists w', added.
Qed.


(** ** The rewrite of a content in which the old identity does not occur *)

Lemma split_on_head (c : ascii) (s : str) :
  ∃ f fs b, split_on c s = f :: fs ∧ s = f ++ b.
Proof.
  induction s as [|ch s (f & fs & b & IH & Hs)].
  - by exists [], [], [].
  - cbn [split_on]. case_bool_decide.
    + by exists [], (split_on c s), (ch :: s).
    + rewrite IH. exists (ch :: f), fs, b. by rewrite Hs at 1.
Qed.

(** A field of [Split] is a part of the string that was split. *)
Lemma split_on_substring (c : ascii) (s x : str) :
  x ∈ split_on c s → ∃ a b, s = a ++ x ++ b.
Proof.
  revert x. induction s as [|ch s IH]; intros x Hx.
  - apply list_elem_of_singleton in Hx as ->. by exists [], [].
  - cbn [split_on] in Hx. case_bool_decide.
    + apply elem_of_cons in Hx as [->|Hx].
      * by exists [], (ch :: s).
      * destruct (IH x Hx) as (a & b & ->). by exists (ch :: a), b.
    + destruct (split_on_head c s) as (f & fs & b & Hs & Hf).
      rewrite Hs in Hx, IH.
      apply elem_of_cons in Hx as [->|Hx].
      * exists [], b. cbn [app]. by rewrite Hf at 1.
      * destruct (IH x) as (a & b' & Hx'); [by right|].
        exists (ch :: a), b'. by rewrite Hx' at 1.
Qed.

Lemma Index_none (s e : str) :
  Index s e = -1 → ∀ a b, s ≠ a ++ e ++ b.
Proof. intros H a b ->. by apply Index_occurs in H. Qed.

Lemma rewrite_fields_same (old new : str) (fields : list str) :
  Forall (λ q, refers_to old q = false) fields →
  rewrite_fields old new fields = fields.
Proof.
  enough ((Forall (λ q, refers_to old q = false) fields →
           rewrite_fields old new fields = fields)
          ∧ ∀ x, Forall (λ q, refers_to old q = false) (x :: fields) →
                 rewrite_fields old new (x :: fields) = x :: fields)
    as [H _] by done.
  induction fields as [|y fs [IH1 IH2]]; [done|].
  split; [apply IH2|]. intros x Hall.
  destruct fs as [|z fs]; [done|]. cbn [rewrite_fields].
  apply Forall_cons in Hall as [_ Hall].
  apply Forall_cons in Hall as [Hy Hall].
  unfold rewrite_value. rewrite Hy. do 2 f_equal. by apply IH1.
Qed.

(** A line in which the old identity does not occur is kept. *)
Lemma rewrite_line_same (old new line : str) :
  (∀ a b, line ≠ a ++ old ++ b) → rewrite_line old new line = line.
Proof.
  intros Hno. unfold rewrite_line. rewrite rewrite_fields_same.
  { apply Join_split_on. }
  apply Forall_forall. intros q (a & b & ->)%split_on_substring.
  apply not_true_is_false.
  intros (r & ->)%refers_to_prefix%HasPrefix_true.
  apply (Hno a (r ++ b)). by rewrite <- !app_assoc.
Qed.

Lemma rewrite_lines_same (old new : str) (lines : list str) :
  Forall (λ l, rewrite_line old new l = l) lines →
  rewrite_lines old new lines = lines.
Proof.
  intros Hall. apply list_eq. intros i.
  destruct (lines !! i) as [l|] eqn:Hl.
  - rewrite (rewrite_lines_lookup old new lines i l Hl).
    rewrite Forall_forall in Hall.
    rewrite (Hall l) by by eapply list_elem_of_lookup_2.
    by destruct (candidate_line _ _).
  - apply lookup_ge_None. rewrite rewrite_lines_length.
    by apply lookup_ge_None.
Qed.

Lemma rewrite_content_same (old new content : str) :
  Index content old = -1 → rewrite_content old new content = content.
Proof.
  intros Hno. unfold rewrite_content. rewrite rewrite_lines_same.
  { apply Join_split_on. }
  apply Forall_forall. intros l (a & b & ->)%split_on_substring.
  apply rewrite_line_same. intros a' b' ->.
  apply (Index_none _ _ Hno (a ++ a') (b' ++ b)). by rewrite <- !app_assoc.
Qed.

(** X16.  A file in whose content the old identity does not occur is
    read and not written: [replaceImportPaths] returns its content as it
    is, and [updateImportPathsInFile] returns [nil] after the one call
    that reads the file, also for a file that cannot be written. *)
Theorem X16_file_without_the_identity_is_not_written
    (w : FS.World) (path old new : str) (f : file) :
  files w !! path = Some f →
  read_error f = None →
  Index (data f) old = -1 →
  replaceImportPaths (data f) old new = Some (data f)
  ∧ updateImportPathsInFile w path old new
    = Some (FS.mkWorld (files w) (calls w ++ [CallReadFile path]) (stdout w),
            None).
Proof.
  intros Hf Hr Hno.
  assert (replaceImportPaths (data f) old new = Some (data f)) as Hsame
    by by rewrite replaceImportPaths_spec, rewrite_content_same.
  split; [done|]. unfold updateImportPathsInFile, ReadFile, record.
  rewrite Hf, Hr, Hsame. cbn [mbind option_bind].
  by rewrite bool_decide_eq_false_2 by (intros H; by apply H).
Qed.

(** ** The lines of a rewritten content *)

Lemma split_on_chars (c ch : ascii) (s x : str) :
  x ∈ split_on c s → ch ∈ x → ch ∈ s.
Proof.
  intros (a & b & ->)%split_on_substring Hch.
  apply elem_of_app. right. apply elem_of_app. by left.
Qed.

Lemma Join_chars (ch : ascii) (sep : str) (elems : list str) :
  ch ∉ sep → Forall (λ e, ch ∉ e) elems → ch ∉ Join elems sep.
Proof.
  intros Hsep. induction 1 as [|e rest He Hrest IH]; [by intros ?%elem_of_nil|].
  destruct rest as [|e' rest]; [done|].
  rewrite Join_cons by done.
  intros [?|[?|?]%elem_of_app]%elem_of_app; done.
Qed.

Lemma rewrite_fields_chars (ch : ascii) (old new : str) (fields : list str) :
  ch ∉ new → Forall (λ e, ch ∉ e) fields →
  Forall (λ e, ch ∉ e) (rewrite_fields old new fields).
Proof.
  intros Hnew.
  enough ((Forall (λ e, ch ∉ e) fields →
           Forall (λ e, ch ∉ e) (rewrite_fields old new fields))
          ∧ ∀ x, Forall (λ e, ch ∉ e) (x :: fields) →
                 Forall (λ e, ch ∉ e) (rewrite_fields old new (x :: fields)))
    as [H _] by done.
  induction fields as [|y fs [IH1 IH2]]; [done|].
  split; [apply IH2|]. intros x Hall.
  destruct fs as [|z fs]; [done|]. cbn [rewrite_fields].
  apply Forall_cons in Hall as [Hx Hall].
  apply Forall_cons in Hall as [Hy Hall].
  constructor; [done|]. constructor; [|by apply IH1].
  unfold rewrite_value. destruct (refers_to old y); [|done].
  intros [?|Hin]%elem_of_app; [done|]. apply Hy.
  rewrite <- (take_drop (length old) y). apply elem_of_app. by right.
Qed.

Lemma rewrite_line_chars (ch : ascii) (old new line : str) :
  ch ≠ dquote → ch ∉ new → ch ∉ line → ch ∉ rewrite_line old new line.
Proof.
  intros Hq Hnew Hline. unfold rewrite_line. apply Join_chars.
  { by intros ?%list_elem_of_singleton. }
  apply rewrite_fields_chars; [done|].
  apply Forall_forall. intros x Hx Hch.
  by apply Hline, (split_on_chars dquote ch line x).
Qed.

(** X17.  [replaceImportPaths] keeps the lines of a content apart: with
    a new identity that holds no line break, the result has the lines of
    the content, in their number and order, each one rewritten or kept;
    the lines that are no import statement and lie in no import block
    are kept. *)
Theorem X17_replaceImportPaths_keeps_the_lines
    (content old new : str) :
  newline ∉ new →
  ∃ result,
    replaceImportPaths content old new = Some result
    ∧ splitLines result = rewrite_lines old new (splitLines content)
    ∧ length (splitLines result) = length (splitLines content)
    ∧ ∀ i line,
        splitLines content !! i = Some line →
        candidate_line (take i (splitLines content)) line = false →
        splitLines result !! i = Some line.
Proof.
  intros Hnew. eexists. split; [apply replaceImportPaths_spec|].
  assert (splitLines (rewrite_content old new content)
          = rewrite_lines old new (splitLines content)) as Hlines.
  { unfold rewrite_content. apply split_on_Join.
    - intros H%(f_equal length). rewrite rewrite_lines_length in H.
      pose proof (split_on_nonempty newline content) as Hne.
      unfold splitLines in H. by destruct (split_on newline content).
    - apply Forall_forall. intros l (i & Hi)%list_elem_of_lookup_1.
      destruct (lookup_lt_is_Some_2 (splitLines content) i) as [l0 Hl0].
      { rewrite <- (rewrite_lines_length old new). by eapply lookup_lt_Some. }
      rewrite (rewrite_lines_lookup old new _ i l0 Hl0) in Hi.
      injection Hi as <-.
      assert (newline ∉ l0) as Hl.
      { pose proof (split_on_Forall newline content) as Hall.
        rewrite Forall_forall in Hall. apply Hall.
        by eapply list_elem_of_lookup_2. }
      destruct (candidate_line _ _); [|done].
      by apply rewrite_line_chars. }
  split; [done|]. rewrite Hlines. split; [apply rewrite_lines_length|].
  intros i line Hi Hc. by rewrite (rewrite_lines_lookup old new _ i line Hi), Hc.
Qed.

(** ** The template manager: after a fetch, and after a failed one *)

Import TemplatePath.

Lemma loadMetadata_cacheDir (m : Cache.Manager) (w : Cache.World) :
  cacheDir (loadMetadata m w).1 = cacheDir m.
Proof. unfold loadMetadata. by destruct (metadata_file w). Qed.

Lemma IsCached_manager (m : Cache.Manager) (w : Cache.World) (now : Z)
    (key : str) :
  (Cache.IsCached m w now key).1 = (loadMetadata m w).1.
Proof.
  unfold Cache.IsCached. destruct (loadMetadata m w) as [m1 [e|]]; [done|].
  by destruct (lookup_template m1 key).
Qed.


(** [cloneTemplate] does not touch the metadata file, and after it has
    returned [nil] the directory of the template exists. *)
Lemma cloneTemplate_frame (w : Cache.World) (t : Template) (p token : str) :
  let r := cloneTemplate w t p token in
  metadata_file r.1 = metadata_file w
  ∧ metadata_write_error r.1 = metadata_write_error w
  ∧ (∃ evs, events r.1 = events w ++ evs)
  ∧ (r.2 = None → p ∈ existing r.1).
Proof.
  assert (p ≠ FilePath.Join p (lit ".git")) as Hne.
  { intros H%(f_equal length). unfold FilePath.Join in H.
    rewrite !length_app in H. cbn in H. lia. }
  unfold cloneTemplate, MkdirAll, log, set_existing.
  cbn [metadata_file metadata_write_error existing remove_error mkdir_error
       run_error events].
  destruct (mkdir_error w (FilePath.Dir p)).
  { cbn. (repeat split); [by eexists|done]. }
  unfold Run_clone, log, set_existing.
  cbn [metadata_file metadata_write_error existing remove_error mkdir_error
       run_error events].
  destruct (run_error w _).
  { cbn. (repeat split); [eexists; by rewrite <- app_assoc|done]. }
  unfold RemoveAll, log, set_existing.
  cbn [metadata_file metadata_write_error existing remove_error mkdir_error
       run_error events].
  destruct (remove_error w (FilePath.Join p (lit ".git")));
    cbn; (repeat split); try (eexists; by rewrite <- !app_assoc);
    intros _.
  - apply elem_of_union. left. apply elem_of_union. right.
    by apply elem_of_singleton.
  - apply elem_of_difference. split.
    + apply elem_of_union. left. apply elem_of_union. right.
      by apply elem_of_singleton.
    + by intros ?%elem_of_singleton.
Qed.

(** What [UpdateTemplate] does for a registered template: it fetches,
    removing the directory of the template first when there is one,
    without touching the metadata file; it returns the error of the
    fetch, or goes on to [UpdateCacheTime] with the directory in place. *)
Lemma UpdateTemplate_fetch (m : Template.Manager) (w : Cache.World)
    (now1 now2 : Z) (archType token : str) (t : Template) :
  GetTemplate m archType = inl t →
  let cachePath := GetTemplateCachePath (cacheManager m) archType in
  ∃ w2 evs,
    metadata_file w2 = metadata_file w
    ∧ metadata_write_error w2 = metadata_write_error w
    ∧ events w2 = events w ++ evs
    ∧ (cachePath ∈ existing w → EvRemoveAll cachePath ∈ evs)
    ∧ ((∃ e, UpdateTemplate m w now1 now2 archType token
             = Some (m, w2, Some e))
       ∨ (cachePath ∈ existing w2
          ∧ UpdateTemplate m w now1 now2 archType token
            = '(c, w3, err) ← UpdateCacheTime (cacheManager m) w2 now1 now2
                                archType;
              Some (with_cache m c, w3, err))).
Proof.
  intros Hreg cachePath. unfold UpdateTemplate. rewrite Hreg.
  fold cachePath. unfold pullTemplate.
  assert (∀ w1 evs1,
            metadata_file w1 = metadata_file w →
            metadata_write_error w1 = metadata_write_error w →
            events w1 = events w ++ evs1 →
            (cachePath ∈ existing w → EvRemoveAll cachePath ∈ evs1) →
            ∃ w2 evs,
              metadata_file w2 = metadata_file w
              ∧ metadata_write_error w2 = metadata_write_error w
              ∧ events w2 = events w ++ evs
              ∧ (cachePath ∈ existing w → EvRemoveAll cachePath ∈ evs)
              ∧ ((∃ e, match cloneTemplate w1 t cachePath token with
                       | (w', Some err) => Some (m, w', Some err)
                       | (w', None) =>
                           '(c, w3, err) ← UpdateCacheTime (cacheManager m)
                                             w' now1 now2 archType;
                           Some (with_cache m c, w3, err)
                       end = Some (m, w2, Some e))
                 ∨ (cachePath ∈ existing w2
                    ∧ match cloneTemplate w1 t cachePath token with
                      | (w', Some err) => Some (m, w', Some err)
                      | (w', None) =>
                          '(c, w3, err) ← UpdateCacheTime (cacheManager m)
                                            w' now1 now2 archType;
                          Some (with_cache m c, w3, err)
                      end
                      = '(c, w3, err) ← UpdateCacheTime (cacheManager m) w2
                                          now1 now2 archType;
                        Some (with_cache m c, w3, err)))) as Hclone.
  { intros w1 evs1 Hdoc Hwr Hev Hrm.
    destruct (cloneTemplate_frame w1 t cachePath token)
      as (Hdoc' & Hwr' & (evs' & Hev') & Hex).
    destruct (cloneTemplate w1 t cachePath token) as [w2 [e|]];
      cbn [fst snd] in *; exists w2, (evs1 ++ evs');
      (split; [congruence|]); (split; [congruence|]);
      (split; [by rewrite Hev', Hev, app_assoc|]);
      (split; [intros H; apply elem_of_app; left; by apply Hrm|]).
    - left. by exists e.
    - right. split; [by apply Hex|done]. }
  case_bool_decide as Hex.
  - unfold RemoveAll, log, set_existing.
    cbn [metadata_file metadata_write_error existing remove_error mkdir_error
         run_error events].
    destruct (remove_error w cachePath) as [e|].
    + exists (after w [EvRemoveAll cachePath] (existing w)),
        [EvRemoveAll cachePath].
      do 3 (split; [done|]). split; [intros _; by left|].
      left. by eexists.
    + apply (Hclone _ [EvRemoveAll cachePath]); try done.
      intros _. by left.
  - apply (Hclone w []); try done. by rewrite app_nil_r.
Qed.


(** X18.  After [EnsureTemplateCached] has fetched a template and
    returned [nil], the directory of the template exists and, for a day
    from the time of the fetch, every manager is given its path by
    [GetTemplatePath], and [EnsureTemplateCached] returns [nil] again
    without an effect. *)
Theorem X18_template_path_after_a_fetch
    (m m' : Template.Manager) (w w' : Cache.World) (now now1 now2 : Z)
    (archType token : str) :
  (Template.IsCached m w now archType).2 = false →
  EnsureTemplateCached m w now now1 now2 archType token
  = Some (m', w', None) →
  GetTemplateCachePath (cacheManager m) archType ∈ existing w'
  ∧ cacheDir (cacheManager m') = cacheDir (cacheManager m)
  ∧ ∀ (reader : Template.Manager) (now' : Z),
      now' < now1 + 24 * Hour →
      (GetTemplatePath reader w' now' archType).2
      = inl (GetTemplateCachePath (cacheManager reader) archType)
      ∧ ∀ t1 t2 token',
          ∃ reader',
            EnsureTemplateCached reader w' now' t1 t2 archType token'
            = Some (reader', w', None).
Proof.
  unfold EnsureTemplateCached. intros Hstale.
  assert (cacheDir (cacheManager (Template.IsCached m w now archType).1)
          = cacheDir (cacheManager m)) as Hdir.
  { unfold Template.IsCached.
    pose proof (IsCached_manager (cacheManager m) w now archType) as H.
    destruct (Cache.IsCached (cacheManager m) w now archType) as [c b].
    cbn [fst snd cacheManager with_cache] in *. subst c.
    apply loadMetadata_cacheDir. }
  assert (templates (Template.IsCached m w now archType).1 = templates m)
    as Htemplates.
  { unfold Template.IsCached.
    by destruct (Cache.IsCached (cacheManager m) w now archType). }
  destruct (Template.IsCached m w now archType) as [m0 cached].
  cbn [fst snd] in *. subst cached. intros Hrun.
  destruct (GetTemplate m0 archType) as [t|e] eqn:Hreg;
    [|by unfold UpdateTemplate in Hrun; rewrite Hreg in Hrun].
  destruct (UpdateTemplate_fetch m0 w now1 now2 archType token t Hreg)
    as (w2 & evs & Hdoc & Hwr & Hev & _ & [[e He]|[Hex Hupd]]);
    [by rewrite He in Hrun|].
  rewrite Hupd in Hrun. clear Hupd.
  destruct (UpdateCacheTime (cacheManager m0) w2 now1 now2 archType)
    as [[[c w3] err]|] eqn:Htouch; [|done].
  cbn [mbind option_bind] in Hrun. injection Hrun as <- <- ->.
  pose proof (UpdateCacheTime_document _ _ _ _ _ _ _ Htouch)
    as (loaded & _ & _ & _ & Hdir' & Hdoc' & _ & Hex' & _).
  unfold GetTemplateCachePath in *. rewrite <- Hdir.
  split; [by rewrite Hex'|]. split; [done|].
  intros reader now' Hnow.
  assert ((Cache.IsCached (cacheManager reader) w3 now' archType).2 = true)
    as Hcached.
  { apply IsCached_true.
    destruct (load_parsed_lookup (cacheManager reader) w3 _ archType Hdoc')
      as [Hok Hlook].
    rewrite lookup_insert_eq in Hlook. eexists. split; [done|].
    split; [done|]. cbn [CachedAt]. unfold CacheTTL. lia. }
  pose proof (IsCached_manager (cacheManager reader) w3 now' archType) as Hm.
  pose proof (loadMetadata_cacheDir (cacheManager reader) w3) as Hd.
  unfold GetTemplatePath, Template.IsCached.
  destruct (Cache.IsCached (cacheManager reader) w3 now' archType)
    as [c' b]. cbn [fst snd] in *. subst b c'.
  cbn [negb snd]. unfold GetTemplateCachePath.
  cbn [cacheManager with_cache]. rewrite Hd.
  split; [done|]. intros t1 t2 token'. by eexists.
Qed.


(** ** The validation of a configuration *)

(** X20.  [ValidateConfig] returns [nil] exactly when the project name,
    the module path and the architecture are not empty; the architecture
    is not looked up.  The configuration then has an output directory,
    the one it had or [.], and its other fields are kept.  Validating a
    second time changes nothing. *)
Theorem X20_ValidateConfig_is_stable (c : Config.Config) :
  ((ValidateConfig c).2 = None
   ↔ Config.ProjectName c ≠ [] ∧ Config.ModulePath c ≠ []
     ∧ Config.Architecture c ≠ [])
  ∧ ((ValidateConfig c).2 = None →
     Config.OutputDir (ValidateConfig c).1
     = (if bool_decide (Config.OutputDir c = []) then lit "."
        else Config.OutputDir c)
     ∧ Config.OutputDir (ValidateConfig c).1 ≠ []
     ∧ Config.ProjectName (ValidateConfig c).1 = Config.ProjectName c
     ∧ Config.ModulePath (ValidateConfig c).1 = Config.ModulePath c
     ∧ Config.Architecture (ValidateConfig c).1 = Config.Architecture c
     ∧ Config.Author (ValidateConfig c).1 = Config.Author c
     ∧ Config.Description (ValidateConfig c).1 = Config.Description c)
  ∧ ((ValidateConfig c).2 ≠ None → (ValidateConfig c).1 = c)
  ∧ ValidateConfig (ValidateConfig c).1 = ValidateConfig c.
Proof.
  unfold ValidateConfig, Config.Validate. destruct c as [n p a o au d].
  cbn [Config.ProjectName Config.ModulePath Config.Architecture
       Config.OutputDir Config.Author Config.Description].
  repeat case_bool_decide; subst;
    cbn [fst snd Config.ProjectName Config.ModulePath Config.Architecture
         Config.OutputDir Config.Author Config.Description];
    rewrite ?bool_decide_eq_false_2 by done;
    repeat split; try done; try (by intros (? & ? & ?)).
Qed.

(** ** The walk with a state of its own *)

Import TemplateFiles.

Lemma walk_directory {S : Type} (fn : PathWalk.WalkFunc (S := S))
    (path : str) (r : option error) (entries : list (str * node)) (s : S) :
  PathWalk.walk fn path (Directory r entries) s
  = '(s, err1) ← fn path (Some true) r s;
    match r, err1 with
    | None, Nil => PathWalk.walk_entries fn path entries s
    | _, _ => Some (s, err1)
    end.
Proof.
  cbn [PathWalk.walk]. destruct (fn path (Some true) r s) as [[s1 err1]|];
    [|done].
  cbn [mbind option_bind]. destruct r; [done|]. destruct err1; try done.
  revert s1. induction entries as [|[name child] rest IH]; intros s1; [done|].
  cbn [PathWalk.walk_entries].
  destruct (PathWalk.walk fn (FilePath.Join path name) child s1)
    as [[s2 err]|]; [|done].
  cbn [mbind option_bind]. destruct err; [apply IH| |done].
  destruct child; [done|apply IH|apply IH].
Qed.

(** The walk of [updateImportPaths] is this walk, on the files of the
    project. *)
Lemma walk_agrees (fn : Generator.WalkFunc) (n : node) (path : str)
    (w : FS.World) :
  Generator.walk fn path n w = PathWalk.walk fn path n w.
Proof. reflexivity. Qed.


(** ** The files of a cached template *)

Lemma listed_directory (path : str) (r : option error)
    (entries : list (str * node)) :
  listed path (Directory r entries)
  = if bool_decide (FilePath.Base path = lit ".git") then []
    else listed_entries path entries.
Proof.
  cbn [listed]. case_bool_decide; [done|].
  induction entries as [|[name child] rest IH]; [done|].
  cbn [listed_entries]. by rewrite <- IH.
Qed.

Lemma sound_directory (path : str) (r : option error)
    (entries : list (str * node)) :
  sound path (Directory r entries)
  = bool_decide (r = None)
    && (bool_decide (FilePath.Base path = lit ".git")
        || sound_entries path entries).
Proof.
  cbn [sound]. do 2 f_equal.
  induction entries as [|[name child] rest IH]; [done|].
  cbn [sound_entries]. by rewrite <- IH.
Qed.

(** A path below [base]: the base, a separator and a remainder. *)
Lemma Rel_below (base r : str) :
  Rel base (base ++ [FilePath.slash] ++ r) = inl r.
Proof.
  unfold Rel. rewrite bool_decide_eq_false_2.
  - rewrite app_assoc, HasPrefix_app.
    replace (length base + 1)%nat with (length (base ++ [FilePath.slash]))
      by by rewrite length_app.
    by rewrite drop_app_length.
  - intros H%(f_equal length). rewrite !length_app in H. cbn in H. lia.
Qed.

Lemma below_ne (base r : str) : base ++ [FilePath.slash] ++ r ≠ base.
Proof. intros H%(f_equal length). rewrite !length_app in H. cbn in H. lia. Qed.

Lemma Join_below (base r name : str) :
  FilePath.Join (base ++ [FilePath.slash] ++ r) name
  = base ++ [FilePath.slash] ++ (r ++ [FilePath.slash] ++ name).
Proof. unfold FilePath.Join. by rewrite <- !app_assoc. Qed.

Lemma GetTemplateFiles_visit_root (cachePath : str) (info : option bool)
    (files : list str) :
  GetTemplateFiles_visit cachePath cachePath info None files
  = Some (files, Nil).
Proof.
  unfold GetTemplateFiles_visit. by rewrite bool_decide_eq_true_2.
Qed.

Lemma GetTemplateFiles_visit_dir (cachePath r : str) (files : list str) :
  let path := cachePath ++ [FilePath.slash] ++ r in
  GetTemplateFiles_visit cachePath path (Some true) None files
  = Some (files,
          if bool_decide (FilePath.Base path = lit ".git") then SkipDir
          else Nil).
Proof.
  intros path. unfold GetTemplateFiles_visit.
  rewrite (bool_decide_eq_false_2 (path = cachePath)) by apply below_ne.
  cbn [mbind option_bind]. by case_bool_decide.
Qed.

Lemma GetTemplateFiles_visit_file (cachePath r : str) (files : list str) :
  GetTemplateFiles_visit cachePath (cachePath ++ [FilePath.slash] ++ r)
    (Some false) None files
  = Some (files ++ [r], Nil).
Proof.
  unfold GetTemplateFiles_visit.
  rewrite bool_decide_eq_false_2 by apply below_ne.
  cbn [mbind option_bind]. by rewrite Rel_below.
Qed.

Lemma drop_below (base r : str) :
  drop (length base + 1) (base ++ [FilePath.slash] ++ r) = r.
Proof.
  replace (length base + 1)%nat with (length (base ++ [FilePath.slash]))
    by by rewrite length_app.
  by rewrite app_assoc, drop_app_length.
Qed.

(** The walk of [GetTemplateFiles] below the cache path. *)
Lemma GetTemplateFiles_walk (cachePath : str) (n : node) :
  ∀ (r : str) (files : list str),
  let path := cachePath ++ [FilePath.slash] ++ r in
  sound path n = true →
  ∃ err,
    PathWalk.walk (GetTemplateFiles_visit cachePath) path n files
    = Some (files ++ (drop (length cachePath + 1) <$> listed path n), err)
    ∧ (err = Nil ∨ (err = SkipDir ∧ ∃ re entries, n = Directory re entries)).
Proof.
  induction n as [|e|re entries IH] using node_ind'; intros r files path Hs.
  - exists Nil. split; [|by left]. cbn [PathWalk.walk listed].
    subst path. rewrite GetTemplateFiles_visit_file.
    cbn [fmap list_fmap]. by rewrite drop_below.
  - done.
  - rewrite sound_directory in Hs. apply andb_true_iff in Hs as [Hre Hs].
    apply bool_decide_eq_true in Hre as ->.
    rewrite walk_directory, listed_directory.
    subst path. rewrite GetTemplateFiles_visit_dir.
    set (path := cachePath ++ [FilePath.slash] ++ r) in *.
    cbn [mbind option_bind].
    case_bool_decide as Hgit.
    { exists SkipDir. rewrite app_nil_r. split; [done|]. right.
      split; [done|]. by eexists _, _. }
    cbn [orb] in Hs. exists Nil. split; [|by left].
    clear Hgit. revert files Hs.
    induction IH as [|[name child] rest Hchild _ IHrest]; intros files Hs.
    { cbn. by rewrite app_nil_r. }
    cbn [sound_entries] in Hs. apply andb_true_iff in Hs as [Hc Hs].
    cbn [PathWalk.walk_entries listed_entries]. cbn [snd] in Hchild.
    subst path. rewrite Join_below in *.
    destruct (Hchild _ files Hc) as (err & -> & Herr).
    cbn [mbind option_bind]. rewrite fmap_app, (app_assoc files).
    destruct Herr as [->|[-> (re' & es & ->)]]; by apply IHrest.
Qed.

(** X21.  For a cached template whose directory the walk can read,
    [GetTemplateFiles] returns [nil] and lists the regular files of the
    directory in the order of the walk, those below a directory named
    [.git] left out and a file of that name not: each path is relative
    to the cache path, so that joined to the cache path it is the path
    of the file. *)
Theorem X21_GetTemplateFiles_lists_the_regular_files
    (m : Template.Manager) (w : Cache.World) (now : Z) (archType : str)
    (entries : list (str * node)) :
  let cachePath := GetTemplateCachePath (cacheManager m) archType in
  (Template.IsCached m w now archType).2 = true →
  sound_entries cachePath entries = true →
  ∃ m' files,
    GetTemplateFiles m w now archType (Directory None entries)
    = Some (m', files, None)
    ∧ files
      = drop (length cachePath + 1) <$> listed_entries cachePath entries
    ∧ FilePath.Join cachePath <$> files = listed_entries cachePath entries.
Proof.
  intros cachePath Hcached Hsound.
  assert (∀ files,
            PathWalk.walk_entries (GetTemplateFiles_visit cachePath)
              cachePath entries files
            = Some (files ++ (drop (length cachePath + 1)
                              <$> listed_entries cachePath entries), Nil)
            ∧ FilePath.Join cachePath
              <$> (drop (length cachePath + 1)
                   <$> listed_entries cachePath entries)
              = listed_entries cachePath entries) as Hwalk.
  { clear Hcached. induction entries as [|[name child] rest IH]; intros files.
    { cbn. by rewrite app_nil_r. }
    cbn [sound_entries] in Hsound.
    apply andb_true_iff in Hsound as [Hc Hs].
    cbn [PathWalk.walk_entries listed_entries].
    destruct (GetTemplateFiles_walk cachePath child name files Hc)
      as (err & Hrun & Herr).
    unfold FilePath.Join at 1. rewrite Hrun. cbn [mbind option_bind].
    rewrite !fmap_app, (app_assoc files).
    destruct (IH Hs (files ++ (drop (length cachePath + 1)
                               <$> listed (FilePath.Join cachePath name)
                                     child))) as [IH1 IH2].
    split.
    - destruct Herr as [->|[-> (re' & es & ->)]]; exact IH1.
    - rewrite IH2. f_equal. clear.
      assert (∀ (n : node) (r : str),
                Forall (λ p, ∃ r', p = cachePath ++ [FilePath.slash] ++ r')
                  (listed (cachePath ++ [FilePath.slash] ++ r) n)) as Hbelow.
      { induction n as [|e|re entries IH] using node_ind'; intros r.
        - repeat constructor. by eexists.
        - constructor.
        - rewrite listed_directory. case_bool_decide; [constructor|].
          induction IH as [|[nm ch] rest Hch _ IHrest]; [constructor|].
          cbn [listed_entries]. apply Forall_app. split; [|done].
          rewrite Join_below. apply Hch. }
      specialize (Hbelow child name).
      change (FilePath.Join cachePath name)
        with (cachePath ++ [FilePath.slash] ++ name).
      induction Hbelow as [|p ps (r' & ->) _ IHps]; [done|].
      cbn [fmap list_fmap]. f_equal; [|done].
      unfold FilePath.Join. by rewrite drop_below. }
  unfold GetTemplateFiles, TemplatePath.GetTemplatePath.
  pose proof (IsCached_manager (cacheManager m) w now archType) as Hm.
  pose proof (loadMetadata_cacheDir (cacheManager m) w) as Hd.
  unfold Template.IsCached in *.
  destruct (Cache.IsCached (cacheManager m) w now archType) as [c b].
  cbn [fst snd] in *. subst b c. cbn [negb].
  replace (GetTemplateCachePath
             (cacheManager
                (with_cache m (loadMetadata (cacheManager m) w).1)) archType)
    with cachePath
    by (unfold cachePath, GetTemplateCachePath;
        cbn [cacheManager with_cache]; by rewrite Hd).
  unfold PathWalk.Walk.
  rewrite walk_directory, GetTemplateFiles_visit_root.
  cbn [mbind option_bind].
  destruct (Hwalk []) as [-> Hjoin]. cbn [mbind option_bind app].
  by eexists _, _.
Qed.

(** ** The copy of a template *)

Lemma Base_git (path : str) :
  FilePath.Base (FilePath.Join path (lit ".git")) = lit ".git".
Proof.
  unfold FilePath.Base, FilePath.Join.
  rewrite bool_decide_eq_false_2 by by destruct path.
  by rewrite !rev_app_distr.
Qed.

(** To a name [.git] other than the cache path the function literal
    answers [SkipDir], be the name that of a directory or not, and does
    nothing else. *)
Lemma copy_visit_git (create : creation) (cachePath destPath path : str)
    (info : option bool) (d : disks) :
  path ≠ cachePath →
  FilePath.Base path = lit ".git" →
  CopyTemplateToDestination_visit create cachePath destPath path info None d
  = Some (d, SkipDir).
Proof.
  intros Hne Hgit. unfold CopyTemplateToDestination_visit.
  by rewrite bool_decide_eq_false_2, bool_decide_eq_true_2.
Qed.

(** A regular file named [.git] ends the walk of the directory it is
    in. *)
Lemma copy_stops_at_git_file (create : creation)
    (cachePath destPath path : str) (before rest : list (str * node)) :
  FilePath.Join path (lit ".git") ≠ cachePath →
  ∀ d : disks,
  PathWalk.walk_entries
    (CopyTemplateToDestination_visit create cachePath destPath)
    path (before ++ (lit ".git", Regular) :: rest) d
  = match
      PathWalk.walk_entries
        (CopyTemplateToDestination_visit create cachePath destPath)
        path before d
    with
    | Some (d', Nil) => Some (d', SkipDir)
    | r => r
    end.
Proof.
  intros Hne. induction before as [|[name child] before IH]; intros d.
  - cbn [app PathWalk.walk_entries PathWalk.walk].
    by rewrite copy_visit_git by (done || apply Base_git).
  - cbn [app PathWalk.walk_entries].
    destruct (PathWalk.walk _ (FilePath.Join path name) child d)
      as [[d1 err]|]; [|done].
    cbn [mbind option_bind]. destruct err; [apply IH| |done].
    destruct child; [done|apply IH|apply IH].
Qed.

Lemma prune_directory (path : str) (r : option error)
    (entries : list (str * node)) :
  prune path (Directory r entries) = Directory r (prune_entries path entries).
Proof.
  cbn [prune]. f_equal.
  induction entries as [|[name child] rest IH]; [done|].
  cbn [prune_entries]. by rewrite <- IH.
Qed.

(** The walk of the copy does on a tree what it does on what [prune]
    leaves of it. *)
Lemma copy_walk_prune (create : creation) (cachePath destPath : str)
    (n : node) :
  ∀ (path : str) (d : disks),
  (length cachePath ≤ length path)%nat →
  PathWalk.walk (CopyTemplateToDestination_visit create cachePath destPath)
    path (prune path n) d
  = PathWalk.walk (CopyTemplateToDestination_visit create cachePath destPath)
      path n d.
Proof.
  induction n as [|e|r entries IH] using node_ind'; intros path d Hlen;
    [done|done|].
  rewrite prune_directory, !walk_directory.
  destruct (CopyTemplateToDestination_visit create cachePath destPath path
              (Some true) r d) as [[d1 err1]|]; [|done].
  cbn [mbind option_bind]. destruct r; [done|]. destruct err1; try done.
  clear d. revert d1.
  induction IH as [|[name child] rest Hchild _ IHrest]; intros d1; [done|].
  cbn [snd] in Hchild. cbn [prune_entries].
  assert (length cachePath ≤ length (FilePath.Join path name))%nat as Hlen'.
  { unfold FilePath.Join. rewrite !length_app. lia. }
  assert (FilePath.Join path name ≠ cachePath) as Hne.
  { intros H%(f_equal length). unfold FilePath.Join in H.
    rewrite !length_app in H. cbn in H. lia. }
  case_bool_decide as Hgit.
  - destruct child as [|r' entries'|e'].
    + cbn [PathWalk.walk_entries PathWalk.walk].
      by rewrite copy_visit_git.
    + cbn [PathWalk.walk_entries]. rewrite !walk_directory.
      destruct r' as [e'|].
      * unfold CopyTemplateToDestination_visit at 1 3. done.
      * rewrite copy_visit_git by done. cbn [mbind option_bind].
        apply IHrest.
    + cbn [PathWalk.walk_entries].
      destruct (PathWalk.walk _ (FilePath.Join path name) (Broken e') d1)
        as [[d2 err]|]; [|done].
      cbn [mbind option_bind]. destruct err; [apply IHrest|apply IHrest|done].
  - cbn [PathWalk.walk_entries]. rewrite Hchild by done.
    destruct (PathWalk.walk _ (FilePath.Join path name) child d1)
      as [[d2 err]|]; [|done].
    cbn [mbind option_bind]. destruct err; [apply IHrest| |done].
    destruct child; [done| |apply IHrest].
    rewrite prune_directory. apply IHrest.
Qed.

(** The path that [GetTemplatePath] returns is the cache path of the
    architecture type. *)
Lemma GetTemplatePath_path (m m' : Template.Manager) (w : Cache.World)
    (now : Z) (archType cachePath : str) :
  GetTemplatePath m w now archType = (m', inl cachePath) →
  cachePath = GetTemplateCachePath (cacheManager m) archType.
Proof.
  unfold GetTemplatePath, Template.IsCached.
  pose proof (IsCached_manager (cacheManager m) w now archType) as Hm.
  pose proof (loadMetadata_cacheDir (cacheManager m) w) as Hd.
  destruct (Cache.IsCached (cacheManager m) w now archType) as [c b].
  cbn [fst] in Hm. subst c. destruct b; cbn [negb]; [|done].
  intros [= _ <-]. unfold GetTemplateCachePath.
  cbn [cacheManager with_cache]. by rewrite Hd.
Qed.

(** X22.  [CopyTemplateToDestination] answers [SkipDir] to every name
    [.git] below the cache path, at every depth and be it the name of a
    directory or not, and does nothing else there.  So a directory of
    that name is not copied and not looked into, and at a file of that
    name the walk leaves the directory the file is in: the entries that
    follow the file there are not copied, and no error is returned.  The
    copy of a tree is the copy of what [prune] leaves of it; with a
    regular file [.git] among the entries of the template, it is the copy
    of the entries before the file. *)
Theorem X22_copy_stops_at_every_name_git
    (m : Template.Manager) (create : creation) (d : disks) (now : Z)
    (archType destPath : str) :
  let cachePath := GetTemplateCachePath (cacheManager m) archType in
  (∀ (path : str) (info : option bool) (s : disks),
     path ≠ cachePath →
     FilePath.Base path = lit ".git" →
     CopyTemplateToDestination_visit create cachePath destPath path info
       None s
     = Some (s, SkipDir))
  ∧ (∀ tree : node,
       CopyTemplateToDestination m create d now archType destPath tree
       = CopyTemplateToDestination m create d now archType destPath
           (prune cachePath tree))
  ∧ (∀ (r : option error) (before rest : list (str * node)),
       CopyTemplateToDestination m create d now archType destPath
         (Directory r (before ++ (lit ".git", Regular) :: rest))
       = CopyTemplateToDestination m create d now archType destPath
           (Directory r before)).
Proof.
  intros cachePath. split; [intros; by apply copy_visit_git|]. split.
  - intros tree. unfold CopyTemplateToDestination.
    destruct (FilePath.IsAbs destPath); cbn [negb]; [|done].
    destruct (GetTemplatePath m d.1 now archType) as [m' [cp|e]] eqn:Hpath;
      [|done].
    apply GetTemplatePath_path in Hpath. fold cachePath in Hpath. subst cp.
    unfold PathWalk.Walk. by rewrite copy_walk_prune.
  - intros r before rest. unfold CopyTemplateToDestination.
    destruct (FilePath.IsAbs destPath); cbn [negb]; [|done].
    destruct (GetTemplatePath m d.1 now archType) as [m' [cp|e]]; [|done].
    unfold PathWalk.Walk. rewrite !walk_directory.
    destruct (CopyTemplateToDestination_visit create cp destPath cp
                (Some true) r d) as [[d1 err1]|]; [|done].
    cbn [mbind option_bind]. destruct r; [done|]. destruct err1; try done.
    rewrite copy_stops_at_git_file.
    + by destruct (PathWalk.walk_entries _ cp before d1) as [[d2 []]|].
    + intros H%(f_equal length). unfold FilePath.Join in H.
      rewrite !length_app in H. cbn in H. lia.
Qed.



(** ** The copy of a template that holds no name [.git] *)

Lemma reached_directory (path : str) (r : option error)
    (entries : list (str * node)) :
  reached path (Directory r entries)
  = (path, true) :: reached_entries path entries.
Proof.
  cbn [reached]. f_equal.
  induction entries as [|[name child] rest IH]; [done|].
  cbn [reached_entries]. by rewrite <- IH.
Qed.

Lemma visit_all_app {S : Type} (fn : PathWalk.WalkFunc (S := S))
    (l1 l2 : list (str * bool)) :
  ∀ s : S,
  visit_all fn (l1 ++ l2) s
  = match visit_all fn l1 s with
    | Some (s', Nil) => visit_all fn l2 s'
    | r => r
    end.
Proof.
  induction l1 as [|[p b] l1 IH]; intros s; [done|].
  cbn [app visit_all]. destruct (fn p (Some b) None s) as [[s1 err]|];
    [|done].
  cbn [mbind option_bind]. destruct err; [apply IH|done|done].
Qed.

(** The names at and below a path below the cache path are below it. *)
Lemma reached_below (cachePath : str) (n : node) :
  ∀ r : str,
  Forall (λ pb : str * bool, ∃ r', pb.1 = cachePath ++ [FilePath.slash] ++ r')
    (reached (cachePath ++ [FilePath.slash] ++ r) n).
Proof.
  induction n as [|e|re entries IH] using node_ind'; intros r.
  - repeat constructor. by eexists.
  - constructor.
  - rewrite reached_directory. constructor; [by eexists|].
    induction IH as [|[nm ch] rest Hch _ IHrest]; [constructor|].
    cbn [reached_entries]. apply Forall_app. split; [|done].
    rewrite Join_below. apply Hch.
Qed.

Lemma reached_entries_below (cachePath : str) (entries : list (str * node)) :
  Forall (λ pb : str * bool, ∃ r', pb.1 = cachePath ++ [FilePath.slash] ++ r')
    (reached_entries cachePath entries).
Proof.
  induction entries as [|[name child] rest IH]; [constructor|].
  cbn [reached_entries]. apply Forall_app. split; [|done].
  apply (reached_below cachePath child name).
Qed.

(** Without a name [.git] the files that are listed are the names
    reached that are no directories. *)
Lemma listed_reached (n : node) :
  ∀ path : str,
  Forall (λ pb : str * bool, FilePath.Base pb.1 ≠ lit ".git")
    (reached path n) →
  listed path n
  = omap (λ pb : str * bool, if pb.2 then None else Some pb.1)
      (reached path n).
Proof.
  induction n as [|e|re entries IH] using node_ind'; intros path Hfree;
    [done|done|].
  rewrite listed_directory. rewrite reached_directory in *.
  apply Forall_cons in Hfree as [Hgit Hfree]. cbn [fst] in Hgit.
  rewrite bool_decide_eq_false_2 by done. cbn [omap list_omap snd].
  induction IH as [|[nm ch] rest Hch _ IHrest]; [done|].
  cbn [reached_entries listed_entries] in *.
  apply Forall_app in Hfree as [Hfree1 Hfree2].
  rewrite omap_app. f_equal; [by apply Hch|by apply IHrest].
Qed.

Lemma listed_entries_reached (path : str) (entries : list (str * node)) :
  Forall (λ pb : str * bool, FilePath.Base pb.1 ≠ lit ".git")
    (reached_entries path entries) →
  listed_entries path entries
  = omap (λ pb : str * bool, if pb.2 then None else Some pb.1)
      (reached_entries path entries).
Proof.
  induction entries as [|[name child] rest IH]; intros Hfree; [done|].
  cbn [reached_entries listed_entries] in *.
  apply Forall_app in Hfree as [Hfree1 Hfree2].
  rewrite omap_app. f_equal; [by apply listed_reached|by apply IH].
Qed.

Section Copy.
Variable create : creation.
Variables cachePath destPath : str.

Let visit := CopyTemplateToDestination_visit create cachePath destPath.
Let tgt := target cachePath destPath.
Let file_names : list (str * bool) → list str :=
  omap (λ pb : str * bool, if pb.2 then None else Some pb.1).

Lemma target_below (r : str) :
  tgt (cachePath ++ [FilePath.slash] ++ r) = FilePath.Join destPath r.
Proof. unfold tgt, target. by rewrite drop_below. Qed.

Lemma file_names_elem (ops : list (str * bool)) (p : str) :
  p ∈ file_names ops ↔ (p, false) ∈ ops.
Proof.
  unfold file_names. rewrite list_elem_of_omap. split.
  - intros ([q []] & Hin & Hq); [done|]. by injection Hq as ->.
  - intros Hin. by exists (p, false).
Qed.

(** The function literal never answers [SkipDir] to a name other than
    [.git]. *)
Lemma copy_visit_no_skip (path : str) (info : option bool)
    (err : option error) (d d' : disks) :
  FilePath.Base path ≠ lit ".git" →
  visit path info err d ≠ Some (d', SkipDir).
Proof.
  intros Hgit. unfold visit, CopyTemplateToDestination_visit.
  destruct err; [done|]. case_bool_decide; [done|].
  rewrite bool_decide_eq_false_2 by done.
  destruct (Rel cachePath path); [|done].
  destruct info as [[|]|]; cbn [mbind option_bind]; [| |done].
  - by destruct (MkdirAll d.1 _) as [? [|]].
  - by destruct (copyFile create d path _) as [? [|]].
Qed.

Lemma visit_all_no_skip (ops : list (str * bool)) :
  ∀ d d' : disks,
  Forall (λ pb : str * bool, FilePath.Base pb.1 ≠ lit ".git") ops →
  visit_all visit ops d ≠ Some (d', SkipDir).
Proof.
  induction ops as [|[p b] ops IH]; intros d d' Hfree; [done|].
  apply Forall_cons in Hfree as [Hgit Hfree]. cbn [visit_all].
  destruct (visit p (Some b) None d) as [[d1 err]|] eqn:Hv; [|done].
  cbn [mbind option_bind]. destruct err; [by apply IH| |done].
  by apply copy_visit_no_skip in Hv.
Qed.

(** On a tree that the walk can read and that holds no name [.git], the
    walk calls the function literal on the names in turn. *)
Lemma copy_walk_visit_all (n : node) :
  ∀ (path : str) (d : disks),
  sound path n = true →
  Forall (λ pb : str * bool, FilePath.Base pb.1 ≠ lit ".git")
    (reached path n) →
  PathWalk.walk visit path n d = visit_all visit (reached path n) d.
Proof.
  induction n as [|e|re entries IH] using node_ind'; intros path d Hs Hfree.
  - cbn [PathWalk.walk reached visit_all].
    destruct (visit path (Some false) None d) as [[d1 err]|]; [|done].
    by destruct err.
  - done.
  - rewrite sound_directory in Hs. apply andb_true_iff in Hs as [Hre Hs].
    apply bool_decide_eq_true in Hre as ->.
    rewrite reached_directory in *.
    apply Forall_cons in Hfree as [Hgit Hfree]. cbn [fst] in Hgit.
    rewrite bool_decide_eq_false_2 in Hs by done. cbn [orb] in Hs.
    rewrite walk_directory. cbn [visit_all].
    destruct (visit path (Some true) None d) as [[d1 err1]|]; [|done].
    cbn [mbind option_bind]. destruct err1; try done.
    clear d. revert d1 Hs Hfree.
    induction IH as [|[nm ch] rest Hch _ IHrest]; intros d1 Hs Hfree;
      [done|].
    cbn [sound_entries reached_entries PathWalk.walk_entries] in *.
    apply andb_true_iff in Hs as [Hs1 Hs2].
    apply Forall_app in Hfree as [Hfree1 Hfree2].
    cbn [snd] in Hch. rewrite visit_all_app, Hch by done.
    pose proof (visit_all_no_skip
                  (reached (FilePath.Join path nm) ch) d1) as Hskip.
    destruct (visit_all visit (reached (FilePath.Join path nm) ch) d1)
      as [[d2 err]|]; [|done].
    cbn [mbind option_bind]. destruct err; [by apply IHrest| |done].
    by destruct (Hskip d2 Hfree1).
Qed.

Lemma copy_walk_entries_visit_all (entries : list (str * node)) :
  ∀ (path : str) (d : disks),
  sound_entries path entries = true →
  Forall (λ pb : str * bool, FilePath.Base pb.1 ≠ lit ".git")
    (reached_entries path entries) →
  PathWalk.walk_entries visit path entries d
  = visit_all visit (reached_entries path entries) d.
Proof.
  induction entries as [|[nm ch] rest IH]; intros path d Hs Hfree; [done|].
  cbn [sound_entries reached_entries PathWalk.walk_entries] in *.
  apply andb_true_iff in Hs as [Hs1 Hs2].
  apply Forall_app in Hfree as [Hfree1 Hfree2].
  rewrite visit_all_app, copy_walk_visit_all by done.
  pose proof (visit_all_no_skip
                (reached (FilePath.Join path nm) ch) d) as Hskip.
  destruct (visit_all visit (reached (FilePath.Join path nm) ch) d)
    as [[d2 err]|]; [|done].
  cbn [mbind option_bind]. destruct err; [by apply IH| |done].
  by destruct (Hskip d2 Hfree1).
Qed.

(** The function literal on a directory and on a file, when nothing
    fails. *)
Lemma copy_visit_dir (r : str) (d : disks) :
  let path := cachePath ++ [FilePath.slash] ++ r in
  FilePath.Base path ≠ lit ".git" →
  mkdir_error d.1 (tgt path) = None →
  visit path (Some true) None d
  = Some ((after d.1 [EvMkdirAll (tgt path)] (existing d.1 ∪ {[tgt path]}),
           d.2), Nil).
Proof.
  intros path Hgit Hmk. unfold visit, CopyTemplateToDestination_visit.
  rewrite (bool_decide_eq_false_2 (path = cachePath)) by apply below_ne.
  rewrite bool_decide_eq_false_2 by done.
  subst path. rewrite Rel_below. cbn [mbind option_bind].
  rewrite target_below in *. unfold MkdirAll, log, set_existing.
  cbn [mkdir_error]. by rewrite Hmk.
Qed.

Lemma copy_visit_file (r : str) (d : disks) (f : file) (c : created) :
  let path := cachePath ++ [FilePath.slash] ++ r in
  FilePath.Base path ≠ lit ".git" →
  files d.2 !! path = Some f →
  read_error f = None →
  mkdir_error d.1 (FilePath.Dir (tgt path)) = None →
  files d.2 !! tgt path = None →
  create (tgt path) = inl c →
  visit path (Some false) None d
  = Some ((after d.1 [EvMkdirAll (FilePath.Dir (tgt path))]
             (existing d.1 ∪ {[FilePath.Dir (tgt path)]}),
           FS.mkWorld
             (<[tgt path := File (data f) (created_read_error c)
                              (created_write_error c)]> (files d.2))
             (calls d.2
              ++ [CallReadFile path; CallWriteFile (tgt path) (data f)])
             (stdout d.2)), Nil).
Proof.
  intros path Hgit Hf Hr Hmk Hfresh Hc.
  unfold visit, CopyTemplateToDestination_visit.
  rewrite (bool_decide_eq_false_2 (path = cachePath)) by apply below_ne.
  rewrite bool_decide_eq_false_2 by done.
  subst path. rewrite Rel_below. cbn [mbind option_bind].
  rewrite target_below in *. destruct d as [cw fw]. cbn [fst snd] in *.
  unfold copyFile, ReadFile, record. rewrite Hf, Hr.
  unfold MkdirAll, log, set_existing. cbn [mkdir_error]. rewrite Hmk.
  unfold WriteFileMode, record. cbn [files calls stdout].
  rewrite Hfresh, Hc. by rewrite <- app_assoc.
Qed.

(** The names in turn: every file is put where it belongs, with the
    content it has. *)
Lemma visit_all_copies (ops : list (str * bool)) :
  ∀ d : disks,
  Forall (λ pb : str * bool,
            (∃ r, pb.1 = cachePath ++ [FilePath.slash] ++ r)
            ∧ FilePath.Base pb.1 ≠ lit ".git") ops →
  NoDup (file_names ops) →
  (∀ p, mkdir_error d.1 p = None) →
  (∀ p, p ∈ file_names ops →
        (∃ f, files d.2 !! p = Some f ∧ read_error f = None)
        ∧ files d.2 !! tgt p = None
        ∧ ∃ c, create (tgt p) = inl c) →
  ∃ d',
    visit_all visit ops d = Some (d', Nil)
    ∧ (∀ p f c, p ∈ file_names ops → files d.2 !! p = Some f →
                create (tgt p) = inl c →
                files d'.2 !! tgt p
                = Some (File (data f) (created_read_error c)
                          (created_write_error c)))
    ∧ (∀ q, q ∉ tgt <$> file_names ops → files d'.2 !! q = files d.2 !! q)
    ∧ (∀ p, (p, true) ∈ ops → tgt p ∈ existing d'.1)
    ∧ existing d.1 ⊆ existing d'.1.
Proof.
  induction ops as [|[p b] ops IH]; intros d Hall Hnd Hmk Hsrc.
  { exists d. split; [done|]. split; [by intros p f c ?%elem_of_nil|].
    split; [done|]. split; [by intros p ?%elem_of_nil|done]. }
  apply Forall_cons in Hall as [[[r Hp] Hgit] Hall]. cbn [fst] in *.
  subst p. set (p := cachePath ++ [FilePath.slash] ++ r) in *.
  destruct b.
  - change (file_names ((p, true) :: ops)) with (file_names ops) in *.
    set (d1 := (after d.1 [EvMkdirAll (tgt p)] (existing d.1 ∪ {[tgt p]}),
                d.2)).
    destruct (IH d1 Hall Hnd) as (d' & Hrun & Hcopied & Hkept & Hdirs & Hsub);
      [done|done|].
    exists d'. split.
    { cbn [visit_all]. subst p. rewrite copy_visit_dir by done.
      cbn [mbind option_bind]. exact Hrun. }
    split; [done|]. split; [done|].
    assert (existing d.1 ∪ {[tgt p]} ⊆ existing d'.1) as Hsub' by done.
    split; [|intros x Hx; apply Hsub', elem_of_union; by left].
    intros q [[= ->]|Hq]%elem_of_cons; [|by apply Hdirs].
    apply Hsub', elem_of_union. right. by apply elem_of_singleton.
  - change (file_names ((p, false) :: ops)) with (p :: file_names ops) in *.
    apply NoDup_cons in Hnd as [Hp Hnd].
    destruct (Hsrc p) as ((f & Hf & Hr) & Hfresh & c & Hc); [by left|].
    set (d1 := (after d.1 [EvMkdirAll (FilePath.Dir (tgt p))]
                  (existing d.1 ∪ {[FilePath.Dir (tgt p)]}),
                FS.mkWorld
                  (<[tgt p := File (data f) (created_read_error c)
                                (created_write_error c)]> (files d.2))
                  (calls d.2
                   ++ [CallReadFile p; CallWriteFile (tgt p) (data f)])
                  (stdout d.2))).
    assert (∀ q, q ∈ file_names ops → q ≠ tgt p ∧ tgt q ≠ tgt p) as Hne.
    { intros q Hq. destruct (Hsrc q) as [(g & Hg & _) _]; [by right|].
      split; [intros ->; congruence|].
      apply file_names_elem in Hq as Hq'.
      rewrite Forall_forall in Hall.
      destruct (Hall _ Hq') as [[r' Hr'] _]. cbn [fst] in Hr'. subst q.
      subst p. rewrite !target_below. unfold FilePath.Join.
      intros H%app_inv_head. injection H as ->. done. }
    destruct (IH d1 Hall Hnd) as (d' & Hrun & Hcopied & Hkept & Hdirs & Hsub).
    { done. }
    { intros q Hq. destruct (Hne q Hq) as [Hq1 Hq2].
      destruct (Hsrc q) as (Hread & Hfree & Hcreate); [by right|].
      cbn [d1 snd files]. by rewrite !lookup_insert_ne. }
    exists d'. split.
    { cbn [visit_all]. subst p. rewrite (copy_visit_file r d f c) by done.
      cbn [mbind option_bind]. exact Hrun. }
    split.
    { intros q g c' [->|Hq]%elem_of_cons Hg Hc'.
      - rewrite Hkept.
        + cbn [d1 snd files]. rewrite lookup_insert_eq. congruence.
        + intros (q & Heq & Hq)%list_elem_of_fmap.
          by destruct (Hne q Hq) as [_ []].
      - apply Hcopied; [done| |done]. destruct (Hne q Hq) as [Hq1 _].
        cbn [d1 snd files]. by rewrite lookup_insert_ne. }
    split.
    { intros q Hq. cbn [fmap list_fmap] in Hq.
      apply not_elem_of_cons in Hq as [Hq1 Hq2].
      rewrite Hkept by done. cbn [d1 snd files].
      by rewrite lookup_insert_ne. }
    split.
    { intros q [[=]|Hq]%elem_of_cons. by apply Hdirs. }
    intros x Hx. apply Hsub. cbn [d1 fst after existing].
    apply elem_of_union. by left.
Qed.

End Copy.

(** X24.  The copy of a template that holds no name [.git], into a
    destination where none of its files is yet: when the walk can read
    the template and its files can be read, every directory can be made
    and every file can be created at its place, which the modes of the
    directories of the template have to allow,
    [CopyTemplateToDestination] returns [nil]; every file that
    [GetTemplateFiles] lists is then at its relative path below the
    destination, with the content it has in the cache and with what its
    mode there allows, every directory of the template is made there, and
    no other file is changed.  The destination path and the cache path
    are clean paths and the names in the tree are names of entries, so
    that [filepath.Join] puts the paths together without changing
    them. *)
Theorem X24_copy_of_a_template_without_git
    (m : Template.Manager) (create : creation) (d : disks) (now : Z)
    (archType destPath : str) (entries : list (str * node)) :
  let cachePath := GetTemplateCachePath (cacheManager m) archType in
  let names := reached_entries cachePath entries in
  let sources := listed_entries cachePath entries in
  FilePath.IsAbs destPath = true →
  CleanPath.clean destPath = true →
  CleanPath.joins (cacheDir (cacheManager m)) archType = true →
  CleanPath.proper (Directory None entries) = true →
  (Template.IsCached m d.1 now archType).2 = true →
  sound_entries cachePath entries = true →
  Forall (λ pb : str * bool, FilePath.Base pb.1 ≠ lit ".git") names →
  NoDup sources →
  (∀ p, mkdir_error d.1 p = None) →
  (∀ p, p ∈ sources → ∃ f, files d.2 !! p = Some f ∧ read_error f = None) →
  (∀ p, p ∈ sources → files d.2 !! target cachePath destPath p = None) →
  (∀ p, p ∈ sources → ∃ c, create (target cachePath destPath p) = inl c) →
  ∃ m' d',
    CopyTemplateToDestination m create d now archType destPath
      (Directory None entries)
    = Some (m', d', None)
    ∧ (∀ p f c, p ∈ sources → files d.2 !! p = Some f →
                create (target cachePath destPath p) = inl c →
                files d'.2 !! target cachePath destPath p
                = Some (File (data f) (created_read_error c)
                          (created_write_error c)))
    ∧ (∀ q, q ∉ target cachePath destPath <$> sources →
            files d'.2 !! q = files d.2 !! q)
    ∧ (∀ p, (p, true) ∈ names →
            target cachePath destPath p ∈ existing d'.1).
Proof.
  intros cachePath names sources Habs _ _ _ Hcached Hsound Hfree Hnd Hmk
    Hread Hfresh Hcreate.
  assert (sources
          = omap (λ pb : str * bool, if pb.2 then None else Some pb.1) names)
    as Hsources by by apply listed_entries_reached.
  destruct (visit_all_copies create cachePath destPath names d)
    as (d' & Hrun & Hcopied & Hkept & Hdirs & _).
  { pose proof (reached_entries_below cachePath entries) as Hbelow.
    fold names in Hbelow. rewrite Forall_forall in *.
    intros pb Hpb. split; [by apply Hbelow|by apply Hfree]. }
  { by rewrite <- Hsources. }
  { done. }
  { rewrite <- Hsources. intros p Hp.
    split; [by apply Hread|]. split; [by apply Hfresh|by apply Hcreate]. }
  rewrite <- Hsources in Hcopied, Hkept.
  unfold CopyTemplateToDestination, TemplatePath.GetTemplatePath.
  rewrite Habs. cbn [negb].
  pose proof (IsCached_manager (cacheManager m) d.1 now archType) as Hm.
  pose proof (loadMetadata_cacheDir (cacheManager m) d.1) as Hd.
  unfold Template.IsCached in *.
  destruct (Cache.IsCached (cacheManager m) d.1 now archType) as [c b].
  cbn [fst snd] in *. subst b c. cbn [negb].
  replace (GetTemplateCachePath
             (cacheManager
                (with_cache m (loadMetadata (cacheManager m) d.1).1))
             archType)
    with cachePath
    by (unfold cachePath, GetTemplateCachePath;
        cbn [cacheManager with_cache]; by rewrite Hd).
  unfold PathWalk.Walk. rewrite walk_directory.
  assert (CopyTemplateToDestination_visit create cachePath destPath cachePath
            (Some true) None d = Some (d, Nil)) as ->.
  { unfold CopyTemplateToDestination_visit.
    by rewrite bool_decide_eq_true_2. }
  cbn [mbind option_bind].
  rewrite copy_walk_entries_visit_all by done.
  fold names. rewrite Hrun. cbn [mbind option_bind].
  by eexists _, _.
Qed.

(** ** The size of the cache *)

Import CacheSize.

Lemma readable_directory (r : option error) (entries : list (str * node)) :
  readable (Directory r entries)
  = bool_decide (r = None) && readable_entries entries.
Proof. reflexivity. Qed.

(** On a tree that can be read, a function literal that never answers
    [SkipDir] is called on the names in turn. *)
Lemma walk_visit_all {S : Type} (fn : PathWalk.WalkFunc (S := S)) :
  (∀ path info err s s', fn path info err s ≠ Some (s', SkipDir)) →
  ∀ (n : node) (path : str) (s : S),
    readable n = true →
    PathWalk.walk fn path n s = visit_all fn (reached path n) s.
Proof.
  intros Hskip.
  assert (∀ names s s', visit_all fn names s ≠ Some (s', SkipDir)) as Hskips.
  { induction names as [|[p b] names IH]; intros s s'; [done|].
    cbn [visit_all].
    destruct (fn p (Some b) None s) as [[s1 err]|] eqn:Hv; [|done].
    cbn [mbind option_bind]. destruct err; [apply IH| |done].
    by apply Hskip in Hv. }
  induction n as [|e|re entries IH] using node_ind'; intros path s Hr.
  - cbn [PathWalk.walk reached visit_all].
    destruct (fn path (Some false) None s) as [[s1 err]|]; [|done].
    by destruct err.
  - done.
  - rewrite readable_directory in Hr. apply andb_true_iff in Hr as [Hre Hr].
    apply bool_decide_eq_true in Hre as ->.
    rewrite reached_directory, walk_directory. cbn [visit_all].
    destruct (fn path (Some true) None s) as [[s1 err1]|]; [|done].
    cbn [mbind option_bind]. destruct err1; try done.
    clear s. revert s1 Hr.
    induction IH as [|[nm ch] rest Hch _ IHrest]; intros s1 Hr; [done|].
    cbn [readable_entries reached_entries PathWalk.walk_entries] in *.
    apply andb_true_iff in Hr as [Hr1 Hr2]. cbn [snd] in Hch.
    rewrite visit_all_app, Hch by done.
    pose proof (Hskips (reached (FilePath.Join path nm) ch) s1) as Hno.
    destruct (visit_all fn (reached (FilePath.Join path nm) ch) s1)
      as [[s2 err]|]; [|done].
    cbn [mbind option_bind]. destruct err; [by apply IHrest| |done].
    by destruct (Hno s2).
Qed.

Lemma GetCacheSize_visit_all (size_of : str → Z) (names : list (str * bool)) :
  ∀ size : Z,
  visit_all (GetCacheSize_visit size_of) names size
  = Some (foldl add64 size (sizes size_of names), Nil).
Proof.
  induction names as [|[p [|]] names IH]; intros size; [done| |].
  - cbn [visit_all GetCacheSize_visit mbind option_bind negb].
    by rewrite IH.
  - cbn [visit_all GetCacheSize_visit mbind option_bind negb].
    by rewrite IH.
Qed.

(** Sizes that are not negative and whose sum is an [int64] add up
    without wrapping around. *)
Lemma foldl_add64 (l : list Z) :
  ∀ size : Z,
  0 ≤ size →
  Forall (λ z, 0 ≤ z) l →
  size + foldr Z.add 0 l < 2 ^ 63 →
  foldl add64 size l = size + foldr Z.add 0 l.
Proof.
  induction l as [|z l IH]; intros size Hsize Hall Hsum; cbn [foldl foldr].
  { lia. }
  apply Forall_cons in Hall as [Hz Hall]. cbn [foldr] in Hsum.
  assert (0 ≤ foldr Z.add 0 l) as Hrest.
  { clear -Hall. induction Hall; cbn [foldr]; lia. }
  assert (add64 size z = size + z) as ->.
  { unfold add64. rewrite Z.mod_small; lia. }
  rewrite IH; [lia|lia|done|lia].
Qed.

(** X25.  On a cache directory that the walk can read, [GetCacheSize]
    returns [nil] and the sum of the sizes of all files that are no
    directories, at every depth and whatever their names, the metadata
    file among them; the sum is that of [int64], which is the plain sum
    when the sizes are not negative and their sum is an [int64]. *)
Theorem X25_GetCacheSize_adds_up_every_file
    (m : Cache.Manager) (size_of : str → Z) (tree : node) :
  readable tree = true →
  let found := sizes size_of (reached (cacheDir m) tree) in
  GetCacheSize m size_of tree = Some (foldl add64 0 found, None)
  ∧ (Forall (λ z, 0 ≤ z) found → foldr Z.add 0 found < 2 ^ 63 →
     GetCacheSize m size_of tree = Some (foldr Z.add 0 found, None)).
Proof.
  intros Hr found.
  assert (GetCacheSize m size_of tree = Some (foldl add64 0 found, None))
    as Hrun.
  { unfold GetCacheSize, PathWalk.Walk.
    rewrite walk_visit_all, GetCacheSize_visit_all; [done| |done].
    intros path info err s s'. unfold GetCacheSize_visit.
    destruct err; [done|]. by destruct info as [[|]|]. }
  split; [done|]. intros Hall Hsum.
  by rewrite Hrun, foldl_add64.
Qed.

(** ** The further properties at concrete inputs *)

Ltac for_each :=
  refine (proj1 (Forall_forall _ _) _); by_computation.

(** Discharges the first hypothesis of [H] by computation. *)
Ltac feed H :=
  match type of H with
  | ?A → _ =>
      let a := fresh in
      assert A as a by first [assumption | by vm_compute | by_computation];
      specialize (H a); clear a
  end.

Lemma X2_scenario :
  UpdateCacheTime Cases.manager Scenario.cache Scenario.noon Scenario.noon
    Cases.key
  = Some (Cache.mkManager (cacheDir Cases.manager)
            (Some {[Cases.key := Scenario.touched_info]}),
          Scenario.touched_cache, None)
  ∧ Utf8.valid_metadata
      (Cache.mkManager (cacheDir Cases.manager)
         (Some {[Cases.key := Scenario.touched_info]})) = true
  ∧ CleanPath.joins (cacheDir Cases.manager) Cases.key = true
  ∧ ∀ reader : Cache.Manager,
      (GetCacheInfo reader Scenario.touched_cache Cases.key).2
      = inl Scenario.touched_info
      ∧ ∀ now,
          (GetCacheAge reader Scenario.touched_cache now Cases.key).2
          = inl (Since now Scenario.noon).
Proof.
  assert (UpdateCacheTime Cases.manager Scenario.cache Scenario.noon
            Scenario.noon Cases.key
          = Some (Cache.mkManager (cacheDir Cases.manager)
                    (Some {[Cases.key := Scenario.touched_info]}),
                  Scenario.touched_cache, None)) as Htouch
    by reflexivity.
  assert (Utf8.valid_metadata
            (Cache.mkManager (cacheDir Cases.manager)
               (Some {[Cases.key := Scenario.touched_info]})) = true)
    as Hvalid by by vm_compute.
  assert (CleanPath.joins (cacheDir Cases.manager) Cases.key = true)
    as Hclean by by vm_compute.
  split; [exact Htouch|]. split; [exact Hvalid|]. split; [exact Hclean|].
  exact (X2_GetCacheInfo_after_UpdateCacheTime _ _ _ _ _ _ _ Htouch Hvalid
           Hclean).
Defined.


Lemma X5_scenario :
  ClearTemplateCache Cases.manager Scenario.touched_cache Cases.key
  = (Cases.cleared.1.1, Cases.cleared.1.2, None)
  ∧ Utf8.valid_metadata Cases.cleared.1.1 = true
  ∧ (Scenario.layeredPath ∉ existing Cases.cleared.1.2)
  ∧ ∀ now,
      (Cache.IsCached Cases.cleared.1.1 Cases.cleared.1.2 now Cases.key).2
      = false.
Proof.
  assert (ClearTemplateCache Cases.manager Scenario.touched_cache Cases.key
          = (Cases.cleared.1.1, Cases.cleared.1.2, None)) as Hclear
    by reflexivity.
  assert (Utf8.valid_metadata Cases.cleared.1.1 = true) as Hvalid
    by by vm_compute.
  split; [exact Hclear|]. split; [exact Hvalid|].
  destruct (X5_ClearTemplateCache_forgets_the_key _ _ _ _ _ Hclear Hvalid)
    as (Hgone & Hstale & _).
  split; [exact Hgone|exact Hstale].
Defined.

Lemma X6_scenario :
  let w := Cases.corrupt_with_directory in
  let e := lit "unexpected end of JSON input" in
  metadata_file w = Unparsable e Absent
  ∧ GetTemplateCachePath Cases.manager Cases.key ∈ existing w
  ∧ remove_error w (GetTemplateCachePath Cases.manager Cases.key) = None
  ∧ ∃ m',
      ClearTemplateCache Cases.manager w Cases.key
      = (m',
         after w [EvRemoveAll (GetTemplateCachePath Cases.manager Cases.key)]
           (existing w ∖ {[GetTemplateCachePath Cases.manager Cases.key]}),
         Some (lit "failed to load metadata: "
               ++ lit "failed to parse metadata: " ++ e)).
Proof.
  intros w e.
  assert (GetTemplateCachePath Cases.manager Cases.key ∈ existing w) as Hex
    by by_computation.
  split; [reflexivity|]. split; [exact Hex|]. split; [reflexivity|].
  exact (X6_ClearTemplateCache_removes_before_it_loads Cases.manager w
           Cases.key e Absent eq_refl Hex eq_refl).
Defined.

Lemma X7_scenario :
  let w := Scenario.touched_cache in
  (∀ p, p ∈ listed_dirs Cases.manager Cases.listing →
        remove_error w p = None)
  ∧ metadata_write_error w = None
  ∧ ∃ m1 w1,
      ClearCache Cases.manager w (inl Cases.listing) = (m1, w1, None)
      ∧ (existing w1
         = existing w
           ∖ list_to_set (listed_dirs Cases.manager Cases.listing))
      ∧ metadata_file w1 = Parsed (Object ∅)
      ∧ ∀ now key, (Cache.IsCached m1 w1 now key).2 = false.
Proof.
  intros w.
  assert (∀ p, p ∈ listed_dirs Cases.manager Cases.listing →
               remove_error w p = None) as Hrm by (intros p _; reflexivity).
  split; [exact Hrm|]. split; [reflexivity|].
  destruct (X7_ClearCache_empties_the_cache Cases.manager w Cases.listing
              Hrm eq_refl) as (m1 & w1 & Hrun & _ & Hex & Hdoc & Hnone & _).
  by exists m1, w1.
Defined.

Lemma X8_scenario :
  let w := Scenario.corrupt_cache in
  (∀ p, p ∈ listed_dirs Cases.manager Cases.listing →
        remove_error w p = None)
  ∧ metadata_write_error w = None
  ∧ (∃ e partial, metadata_file w = Unparsable e partial)
  ∧ ∃ m1 w1,
      ClearCache Cases.manager w (inl Cases.listing) = (m1, w1, None)
      ∧ ∃ reader' w2,
          UpdateCacheTime Cases.manager w1 Scenario.noon Scenario.noon
            Cases.key
          = Some (reader', w2, None).
Proof.
  intros w.
  assert (∀ p, p ∈ listed_dirs Cases.manager Cases.listing →
               remove_error w p = None) as Hrm by (intros p _; reflexivity).
  split; [exact Hrm|]. split; [reflexivity|]. split; [by eexists _, _|].
  destruct (X8_ClearCache_repairs_the_metadata Cases.manager w Cases.listing
              Hrm eq_refl) as (m1 & w1 & Hrun & Htouch).
  exists m1, w1. split; [exact Hrun|].
  exact (Htouch Cases.manager Scenario.noon Scenario.noon Cases.key).
Defined.

Lemma X9_scenario :
  let w := Cases.stuck_cache in
  let before := [(lit "cache-metadata.json", false); (lit "layered", true)] in
  let rest := [(lit "zeta", true)] in
  (∀ p, p ∈ listed_dirs Cases.manager before → remove_error w p = None)
  ∧ remove_error w (FilePath.Join (cacheDir Cases.manager) (lit "modular"))
    = Some (lit "permission denied")
  ∧ ClearCache Cases.manager w (inl (before ++ (lit "modular", true) :: rest))
    = (Cases.manager,
       after w
         (EvRemoveAll <$> listed_dirs Cases.manager before
                          ++ [Cases.modularPath])
         (existing w ∖ list_to_set (listed_dirs Cases.manager before)),
       Some (lit "failed to remove " ++ Cases.modularPath ++ lit ": "
             ++ lit "permission denied")).
Proof.
  intros w before rest.
  assert (∀ p, p ∈ listed_dirs Cases.manager before →
               remove_error w p = None) as Hrm by for_each.
  assert (remove_error w
            (FilePath.Join (cacheDir Cases.manager) (lit "modular"))
          = Some (lit "permission denied")) as Hstuck by by vm_compute.
  split; [exact Hrm|]. split; [exact Hstuck|].
  exact (X9_ClearCache_stops_at_the_first_failure Cases.manager w before
           rest (lit "modular") (lit "permission denied") Hrm Hstuck).
Defined.



Lemma X13_scenario :
  let w := Scenario.project Scenario.manifest_bare in
  let err := lit "no module declaration found in go.mod" in
  FilePath.IsAbs Scenario.projectPath = true
  ∧ (extractOriginalModulePath w
       (FilePath.Join Scenario.projectPath (lit "go.mod"))).2 = inr err
  ∧ ∃ w' added,
      customizeProject w Scenario.tree Scenario.newIdentity
        Scenario.projectPath
      = Some (w', Some (lit "failed to extract original module path: "
                        ++ err))
      ∧ files w' = files w
      ∧ stdout w' = stdout w
      ∧ calls w' = calls w ++ added
      ∧ Forall (λ c, ∀ p content, c ≠ CallWriteFile p content) added.
Proof.
  intros w err. split; [by vm_compute|]. split; [by vm_compute|].
  apply (X13_customizeProject_without_identity w Scenario.tree
           Scenario.newIdentity Scenario.projectPath err);
    by vm_compute.
Defined.

Lemma X14_scenario :
  let w := Cases.project Cases.writable in
  let old := Scenario.oldIdentity in
  FilePath.IsAbs Scenario.projectPath = true
  ∧ files w !! FilePath.Join Scenario.projectPath (lit "go.mod")
    = Some Cases.writable
  ∧ read_error Cases.writable = None
  ∧ extractOriginalModulePath_loop (splitLines (data Cases.writable))
    = inl old
  ∧ ∃ w',
      customizeProject w Cases.tree old Scenario.projectPath
      = Some (w', None)
      ∧ files w' !! Cases.mainPath = files w !! Cases.mainPath
      ∧ stdout w' = stdout w ++ [].
Proof.
  intros w old.
  repeat (split; [first [by vm_compute | by_computation]|]).
  pose proof (X14_customizeProject_same_identity w Cases.tree old
                Scenario.projectPath Cases.writable old) as H.
  do 4 feed H. specialize (H eq_refl).
  destruct H as (w' & Hrun & _ & Hkept & Hout).
  exists w'. split; [exact Hrun|]. split; [|exact Hout].
  apply Hkept. by_computation.
Defined.


Lemma X16_scenario :
  let w := Cases.project Cases.writable in
  let f := File Scenario.source None None in
  files w !! Cases.mainPath = Some f
  ∧ read_error f = None
  ∧ Index (data f) Cases.absent = -1
  ∧ replaceImportPaths (data f) Cases.absent Scenario.newIdentity
    = Some (data f)
  ∧ updateImportPathsInFile w Cases.mainPath Cases.absent
      Scenario.newIdentity
    = Some (FS.mkWorld (files w) (calls w ++ [CallReadFile Cases.mainPath])
              (stdout w), None).
Proof.
  intros w f. split; [by vm_compute|]. split; [reflexivity|].
  split; [by vm_compute|].
  apply (X16_file_without_the_identity_is_not_written w Cases.mainPath
           Cases.absent Scenario.newIdentity f);
    by vm_compute.
Defined.

Lemma X17_scenario :
  (newline ∉ Scenario.newIdentity)
  ∧ ∃ result,
      replaceImportPaths Scenario.source Scenario.oldIdentity
        Scenario.newIdentity = Some result
      ∧ splitLines result
        = rewrite_lines Scenario.oldIdentity Scenario.newIdentity
            (splitLines Scenario.source)
      ∧ length (splitLines result) = length (splitLines Scenario.source).
Proof.
  assert (newline ∉ Scenario.newIdentity) as Hnl by by_computation.
  split; [exact Hnl|].
  destruct (X17_replaceImportPaths_keeps_the_lines Scenario.source
              Scenario.oldIdentity Scenario.newIdentity Hnl)
    as (result & Hrun & Hlines & Hlen & _).
  by exists result.
Defined.

Lemma X18_scenario :
  (Template.IsCached Scenario.manager Scenario.cache Scenario.noon
     Cases.key).2 = false
  ∧ ∃ m' w',
      Cases.fetched = Some (m', w', None)
      ∧ Scenario.layeredPath ∈ existing w'
      ∧ (GetTemplatePath Scenario.manager w' Cases.later Cases.key).2
        = inl Scenario.layeredPath.
Proof.
  assert ((Template.IsCached Scenario.manager Scenario.cache Scenario.noon
             Cases.key).2 = false) as Hstale by reflexivity.
  split; [exact Hstale|].
  assert (∃ m' w', Cases.fetched = Some (m', w', None))
    as (m' & w' & Hrun) by (vm_compute; by eexists _, _).
  exists m', w'. split; [exact Hrun|].
  destruct (X18_template_path_after_a_fetch Scenario.manager m'
              Scenario.cache w' Scenario.noon Scenario.noon Scenario.noon
              Cases.key [] Hstale Hrun) as (Hex & _ & Hpath).
  split; [exact Hex|].
  apply (Hpath Scenario.manager Cases.later). by vm_compute.
Defined.


Lemma X21_scenario :
  (Template.IsCached Scenario.manager Scenario.touched_cache Cases.later
     Cases.key).2 = true
  ∧ sound_entries Scenario.layeredPath Cases.template = true
  ∧ ∃ m',
      GetTemplateFiles Scenario.manager Scenario.touched_cache Cases.later
        Cases.key (Directory None Cases.template)
      = Some (m', [lit ".gitignore"; lit "cmd/main.go"; lit "go.mod"], None).
Proof.
  assert ((Template.IsCached Scenario.manager Scenario.touched_cache
             Cases.later Cases.key).2 = true) as Hcached by by vm_compute.
  assert (sound_entries Scenario.layeredPath Cases.template = true)
    as Hsound by by vm_compute.
  split; [exact Hcached|]. split; [exact Hsound|].
  destruct (X21_GetTemplateFiles_lists_the_regular_files Scenario.manager
              Scenario.touched_cache Cases.later Cases.key Cases.template
              Hcached Hsound) as (m' & files & Hrun & Hfiles & _).
  exists m'. rewrite Hrun, Hfiles. by vm_compute.
Defined.

Lemma X22_scenario :
  let cachePath := Scenario.layeredPath in
  let destPath := Scenario.projectPath in
  let path := lit "/home/user/.cache/.pick-your-go/layered/cmd/.git" in
  path ≠ cachePath
  ∧ FilePath.Base path = lit ".git"
  ∧ CopyTemplateToDestination_visit Cases.create cachePath destPath path
      (Some false) None Cases.disks
    = Some (Cases.disks, SkipDir)
  ∧ prune cachePath (Directory None Cases.template)
    = Directory None Cases.pruned_template
  ∧ CopyTemplateToDestination Scenario.manager Cases.create Cases.disks
      Cases.later Cases.key destPath (Directory None Cases.template)
    = CopyTemplateToDestination Scenario.manager Cases.create Cases.disks
        Cases.later Cases.key destPath (Directory None Cases.pruned_template).
Proof.
  intros cachePath destPath path.
  assert (path ≠ cachePath) as Hne by by vm_compute.
  assert (FilePath.Base path = lit ".git") as Hgit by by vm_compute.
  pose proof (X22_copy_stops_at_every_name_git Scenario.manager Cases.create
                Cases.disks Cases.later Cases.key destPath)
    as (Hvisit & Hprune & _).
  split; [exact Hne|]. split; [exact Hgit|].
  split; [exact (Hvisit path (Some false) Cases.disks Hne Hgit)|].
  split; [reflexivity|].
  exact (Hprune (Directory None Cases.template)).
Defined.


Lemma X24_scenario :
  let cachePath := Scenario.layeredPath in
  let destPath := Scenario.projectPath in
  let names := reached_entries cachePath Cases.plain_template in
  let sources := listed_entries cachePath Cases.plain_template in
  FilePath.IsAbs destPath = true
  ∧ CleanPath.clean destPath = true
  ∧ CleanPath.joins (cacheDir (cacheManager Scenario.manager)) Cases.key
    = true
  ∧ CleanPath.proper (Directory None Cases.plain_template) = true
  ∧ (Template.IsCached Scenario.manager Cases.disks.1 Cases.later
       Cases.key).2 = true
  ∧ sound_entries cachePath Cases.plain_template = true
  ∧ Forall (λ pb : str * bool, FilePath.Base pb.1 ≠ lit ".git") names
  ∧ NoDup sources
  ∧ (∀ p, mkdir_error Cases.disks.1 p = None)
  ∧ (∀ p, p ∈ sources →
          ∃ f, files Cases.disks.2 !! p = Some f ∧ read_error f = None)
  ∧ (∀ p, p ∈ sources →
          files Cases.disks.2 !! target cachePath destPath p = None)
  ∧ (∀ p, p ∈ sources →
          ∃ c, Cases.create (target cachePath destPath p) = inl c)
  ∧ ∃ m' d',
      CopyTemplateToDestination Scenario.manager Cases.create Cases.disks
        Cases.later Cases.key destPath (Directory None Cases.plain_template)
      = Some (m', d', None)
      ∧ files d'.2 !! Cases.mainPath
        = Some (File Scenario.source None None)
      ∧ lit "/tmp/project/cmd" ∈ existing d'.1.
Proof.
  intros cachePath destPath names sources.
  assert (FilePath.IsAbs destPath = true) as Habs by by vm_compute.
  assert (CleanPath.clean destPath = true) as Hclean by by vm_compute.
  assert (CleanPath.joins (cacheDir (cacheManager Scenario.manager))
            Cases.key = true) as Hclean' by by vm_compute.
  assert (CleanPath.proper (Directory None Cases.plain_template) = true)
    as Hproper by by vm_compute.
  assert ((Template.IsCached Scenario.manager Cases.disks.1 Cases.later
             Cases.key).2 = true) as Hcached by by vm_compute.
  assert (sound_entries cachePath Cases.plain_template = true) as Hsound
    by by vm_compute.
  assert (Forall (λ pb : str * bool, FilePath.Base pb.1 ≠ lit ".git") names)
    as Hfree by by_computation.
  assert (NoDup sources) as Hnd by by_computation.
  assert (∀ p, mkdir_error Cases.disks.1 p = None) as Hmk
    by (intros p; reflexivity).
  assert (∀ p, p ∈ sources →
               ∃ f, files Cases.disks.2 !! p = Some f ∧ read_error f = None)
    as Hread.
  { refine (proj1 (Forall_forall _ _) _).
    repeat (apply Forall_cons; split; [by eexists|]). apply Forall_nil_2. }
  assert (∀ p, p ∈ sources →
               files Cases.disks.2 !! target cachePath destPath p = None)
    as Hfresh by for_each.
  assert (∀ p, p ∈ sources →
               ∃ c, Cases.create (target cachePath destPath p) = inl c)
    as Hcreate by (intros p _; by eexists).
  do 9 (split; [assumption|]).
  split; [exact Hread|]. split; [exact Hfresh|]. split; [exact Hcreate|].
  destruct (X24_copy_of_a_template_without_git Scenario.manager Cases.create
              Cases.disks Cases.later Cases.key destPath Cases.plain_template
              Habs Hclean Hclean' Hproper Hcached Hsound Hfree Hnd Hmk Hread
              Hfresh Hcreate)
    as (m' & d' & Hrun & Hcopied & _ & Hdirs).
  exists m', d'. split; [exact Hrun|]. split.
  - apply (Hcopied (lit "/home/user/.cache/.pick-your-go/layered/cmd/main.go")
             (File Scenario.source None None)
             (TemplateFiles.Created None None));
      [by_computation|by vm_compute|reflexivity].
  - apply (Hdirs (lit "/home/user/.cache/.pick-your-go/layered/cmd")).
    by_computation.
Defined.

Lemma X25_scenario :
  readable Cases.cache_tree = true
  ∧ GetCacheSize Cases.manager Cases.size_of Cases.cache_tree
    = Some (180 + 4 * 1024, None).
Proof.
  assert (readable Cases.cache_tree = true) as Hr by by vm_compute.
  split; [exact Hr|].
  destruct (X25_GetCacheSize_adds_up_every_file Cases.manager Cases.size_of
              Cases.cache_tree Hr) as [_ Hsum].
  rewrite Hsum; [by vm_compute|by_computation|by vm_compute].
Defined.
